(** * Chile-Terremotea-Sim: the intensity, MMI and damage pipeline

    A shallow embedding of the pure computation core of the simulator
    (utils/attenuationModel.js, utils/mmiScale.js, utils/damageModel.js,
    utils/geoUtils.js), of the gauge of components/IntensityDisplay.jsx and
    of the effect of App.jsx that calls the core, with the properties its
    specification states about it and further properties read off the code.

    Number model.  A JavaScript number is modelled by [num]: an exact real,
    one of the two infinities, or NaN.  Comparisons, NaN propagation and the
    arithmetic of the infinities follow IEEE-754 as JavaScript exposes it;
    finite arithmetic is exact (no rounding, no overflow to infinity, no
    signed zero).  [Math.log10], [Math.exp] and [Math.sqrt] are the real
    functions on their domains and take the IEEE special values outside.
    Where the code multiplies, squares or divides unbounded arguments the
    statements bound them by [MAX_SAFE_INTEGER], [MAX_VALUE] and [MIN_VALUE],
    so that the doubles of the code neither overflow nor underflow there. *)

From Stdlib Require Import Reals Lra Lia ZArith Bool List String.
Import ListNotations.

Local Open Scope R_scope.

(* ------------------------------------------------------------------ *)
(** ** JavaScript numbers *)

Module JS.

Inductive num : Type :=
| NaN : num
| NegInf : num
| Fin (r : R) : num
| PosInf : num.

Definition Rltb (x y : R) : bool := if Rlt_dec x y then true else false.
Definition Rleb (x y : R) : bool := if Rle_dec x y then true else false.

(** [a < b], [a <= b], [a > b], [a >= b]: false as soon as one side is NaN. *)
Definition lt (a b : num) : bool :=
  match a, b with
  | NaN, _ | _, NaN => false
  | NegInf, NegInf => false
  | NegInf, _ => true
  | Fin _, NegInf => false
  | Fin x, Fin y => Rltb x y
  | Fin _, PosInf => true
  | PosInf, _ => false
  end.

Definition le (a b : num) : bool :=
  match a, b with
  | NaN, _ | _, NaN => false
  | NegInf, _ => true
  | Fin _, NegInf => false
  | Fin x, Fin y => Rleb x y
  | Fin _, PosInf => true
  | PosInf, PosInf => true
  | PosInf, _ => false
  end.

Definition gt (a b : num) : bool := lt b a.
Definition ge (a b : num) : bool := le b a.

Definition isNaN (a : num) : bool :=
  match a with NaN => true | _ => false end.

(** The infinity with the sign of [x] times the sign [pos]; NaN at zero
    (infinity times zero). *)
Definition signed_inf (pos : bool) (x : R) : num :=
  if Rlt_dec 0 x then (if pos then PosInf else NegInf)
  else if Rlt_dec x 0 then (if pos then NegInf else PosInf)
  else NaN.

Definition neg (a : num) : num :=
  match a with
  | NaN => NaN
  | NegInf => PosInf
  | Fin x => Fin (- x)
  | PosInf => NegInf
  end.

Definition add (a b : num) : num :=
  match a, b with
  | NaN, _ | _, NaN => NaN
  | PosInf, NegInf | NegInf, PosInf => NaN
  | PosInf, _ | _, PosInf => PosInf
  | NegInf, _ | _, NegInf => NegInf
  | Fin x, Fin y => Fin (x + y)
  end.

Definition sub (a b : num) : num :=
  match a, b with
  | NaN, _ | _, NaN => NaN
  | PosInf, PosInf | NegInf, NegInf => NaN
  | PosInf, _ | _, NegInf => PosInf
  | NegInf, _ | _, PosInf => NegInf
  | Fin x, Fin y => Fin (x - y)
  end.

Definition mul (a b : num) : num :=
  match a, b with
  | NaN, _ | _, NaN => NaN
  | PosInf, PosInf | NegInf, NegInf => PosInf
  | PosInf, NegInf | NegInf, PosInf => NegInf
  | PosInf, Fin y | Fin y, PosInf => signed_inf true y
  | NegInf, Fin y | Fin y, NegInf => signed_inf false y
  | Fin x, Fin y => Fin (x * y)
  end.

(** Division; a finite zero divisor is taken as +0. *)
Definition div (a b : num) : num :=
  match a, b with
  | NaN, _ | _, NaN => NaN
  | (PosInf | NegInf), (PosInf | NegInf) => NaN
  | Fin _, (PosInf | NegInf) => Fin 0
  | PosInf, Fin y => if Rlt_dec y 0 then NegInf else PosInf
  | NegInf, Fin y => if Rlt_dec y 0 then PosInf else NegInf
  | Fin x, Fin y =>
      if Req_dec_T y 0 then signed_inf true x else Fin (x / y)
  end.

Definition Math_sqrt (a : num) : num :=
  match a with
  | NaN | NegInf => NaN
  | Fin x => if Rlt_dec x 0 then NaN else Fin (sqrt x)
  | PosInf => PosInf
  end.

Definition Math_log10 (a : num) : num :=
  match a with
  | NaN | NegInf => NaN
  | Fin x =>
      if Rlt_dec x 0 then NaN
      else if Req_dec_T x 0 then NegInf
      else Fin (ln x / ln 10)
  | PosInf => PosInf
  end.

Definition Math_exp (a : num) : num :=
  match a with
  | NaN => NaN
  | NegInf => Fin 0
  | Fin x => Fin (exp x)
  | PosInf => PosInf
  end.

(** [Math.max] and [Math.min] of two arguments: NaN if either is NaN. *)
Definition Math_max (a b : num) : num :=
  match a, b with
  | NaN, _ | _, NaN => NaN
  | _, _ => if lt a b then b else a
  end.

Definition Math_min (a b : num) : num :=
  match a, b with
  | NaN, _ | _, NaN => NaN
  | _, _ => if lt b a then b else a
  end.

(** [Math.round]: the nearest integer, ties towards +infinity. *)
Definition Math_round (a : num) : num :=
  match a with
  | Fin x => Fin (IZR (Zfloor (x + / 2)))
  | _ => a
  end.

(** [Math.pow base n] for a literal exponent [n] that is a natural number:
    [Math.pow x 0] is 1 for every [x], NaN included. *)
Fixpoint Math_pow (base : num) (n : nat) : num :=
  match n with
  | O => Fin 1
  | S O => base
  | S m => mul base (Math_pow base m)
  end.

(** Strict equality [===] of two numbers: NaN equals nothing. *)
Definition strict_eq (a b : num) : bool :=
  match a, b with
  | NegInf, NegInf | PosInf, PosInf => true
  | Fin x, Fin y => if Req_dec_T x y then true else false
  | _, _ => false
  end.

Definition is_integer (y : R) : bool :=
  if Req_dec_T y (IZR (Zfloor y)) then true else false.

(** [Math.pow base exponent] for an arbitrary exponent: an exponent 0 gives
    1, a NaN operand otherwise NaN, a negative base with a fractional
    exponent NaN; the infinities as ECMAScript lists them. *)
Definition Math_pow_num (base exponent : num) : num :=
  match exponent with
  | NaN => NaN
  | Fin y =>
      if Req_dec_T y 0 then Fin 1
      else
        match base with
        | NaN => NaN
        | PosInf => if Rlt_dec 0 y then PosInf else Fin 0
        | NegInf =>
            if Rlt_dec 0 y then
              (if is_integer y && Z.odd (Zfloor y) then NegInf else PosInf)
            else Fin 0
        | Fin x =>
            if Req_dec_T x 0 then (if Rlt_dec 0 y then Fin 0 else PosInf)
            else if Rlt_dec 0 x then Fin (Rpower x y)
            else if is_integer y then
              Fin ((if Z.odd (Zfloor y) then -1 else 1) * Rpower (- x) y)
            else NaN
        end
  | PosInf =>
      match base with
      | NaN => NaN
      | PosInf | NegInf => PosInf
      | Fin x =>
          if Rlt_dec 1 (Rabs x) then PosInf
          else if Req_dec_T (Rabs x) 1 then NaN
          else Fin 0
      end
  | NegInf =>
      match base with
      | NaN => NaN
      | PosInf | NegInf => Fin 0
      | Fin x =>
          if Rlt_dec 1 (Rabs x) then Fin 0
          else if Req_dec_T (Rabs x) 1 then NaN
          else PosInf
      end
  end.

Definition Math_PI : num := Fin PI.

(** [Math.sin] and [Math.cos]: NaN at the infinities. *)
Definition Math_sin (a : num) : num :=
  match a with
  | Fin x => Fin (sin x)
  | _ => NaN
  end.

Definition Math_cos (a : num) : num :=
  match a with
  | Fin x => Fin (cos x)
  | _ => NaN
  end.

(** [Math.atan2 y x], the angle of the point (x, y) in [-PI, PI]; a zero is
    taken as +0. *)
Definition Math_atan2 (y x : num) : num :=
  match y, x with
  | NaN, _ | _, NaN => NaN
  | PosInf, PosInf => Fin (PI / 4)
  | PosInf, NegInf => Fin (3 * PI / 4)
  | PosInf, Fin _ => Fin (PI / 2)
  | NegInf, PosInf => Fin (- (PI / 4))
  | NegInf, NegInf => Fin (- (3 * PI / 4))
  | NegInf, Fin _ => Fin (- (PI / 2))
  | Fin _, PosInf => Fin 0
  | Fin b, NegInf => if Rlt_dec b 0 then Fin (- PI) else Fin PI
  | Fin b, Fin a =>
      if Rlt_dec 0 a then Fin (atan (b / a))
      else if Rlt_dec a 0 then
        (if Rlt_dec b 0 then Fin (atan (b / a) - PI)
         else Fin (atan (b / a) + PI))
      else if Rlt_dec 0 b then Fin (PI / 2)
      else if Rlt_dec b 0 then Fin (- (PI / 2))
      else Fin 0
  end.

(** The integer part of a real, towards zero. *)
Definition trunc_R (x : R) : R :=
  if Rle_dec 0 x then IZR (Zfloor x) else - IZR (Zfloor (- x)).

(** The remainder operator [n % d]: the sign of the dividend. *)
Definition rem (n d : num) : num :=
  match n, d with
  | NaN, _ | _, NaN => NaN
  | (PosInf | NegInf), _ => NaN
  | Fin x, (PosInf | NegInf) => Fin x
  | Fin x, Fin y =>
      if Req_dec_T y 0 then NaN else Fin (x - y * trunc_R (x / y))
  end.

(** A template literal: text fragments and interpolated numbers. *)
Inductive fragment : Type :=
| Text (s : string)
| Interp (v : num).

(** [throw new Error(message)] or a normal return. *)
Inductive completion (A : Type) : Type :=
| Return (a : A)
| ThrowError (message : list fragment).

Arguments Return {A} a.
Arguments ThrowError {A} message.

Definition bind {A B : Type} (c : completion A) (k : A -> completion B)
  : completion B :=
  match c with
  | Return a => k a
  | ThrowError m => ThrowError m
  end.

(** The limits of double precision, as [Number] exposes them.  The finite
    arithmetic above is exact: it agrees with the code, up to the rounding of
    the last bit, as long as no intermediate result leaves the range of the
    doubles.  A statement whose arguments could leave it bounds them with
    these constants. *)
Definition MAX_SAFE_INTEGER : R := 9007199254740991.  (* 2^53 - 1 *)
Definition MAX_VALUE : R := (2 - / 2 ^ 52) * 2 ^ 1023.
Definition MIN_VALUE : R := / 2 ^ 1074.

(** An array holds at most 2^32 - 1 elements. *)
Definition MAX_ARRAY_LENGTH : R := 4294967295.

End JS.

Import JS.

Coercion Fin : R >-> num.

(* ------------------------------------------------------------------ *)
(** ** utils/attenuationModel.js *)

Module Attenuation.

Record constants : Type := {
  a : num;  (* base intensity offset *)
  b : num;  (* magnitude scaling factor *)
  c : num;  (* logarithmic distance decay *)
  d : num;  (* linear distance decay *)
}.

Definition ATTENUATION_CONSTANTS : constants :=
  {| a := Fin (-3.5); b := Fin 1.8; c := Fin 3.5; d := Fin 0.002 |}.

(** The attenuation formula [a + b*M - c*log10(R) - d*R]. *)
Definition formula (magnitude R : num) : num :=
  let '{| a := a; b := b; c := c; d := d |} := ATTENUATION_CONSTANTS in
  sub (sub (add a (mul b magnitude)) (mul c (Math_log10 R))) (mul d R).

Definition calculateIntensity (magnitude depth distance : num)
  : completion num :=
  if lt magnitude 0 || gt magnitude 10 then
    ThrowError [Text "Invalid magnitude: "; Interp magnitude;
                Text ". Must be between 0 and 10."]
  else if lt depth 0 || gt depth 700 then
    ThrowError [Text "Invalid depth: "; Interp depth;
                Text ". Must be between 0 and 700 km."]
  else if lt distance 0 then
    ThrowError [Text "Invalid distance: "; Interp distance;
                Text ". Must be non-negative."]
  else
    let hypocentralDistance :=
      Math_sqrt (add (mul distance distance) (mul depth depth)) in
    let R := Math_max hypocentralDistance 1 in
    let intensity := formula magnitude R in
    Return (Math_max intensity 0).

(** The mutable locals of [estimateFeltRadius]. *)
Record search : Type := {
  minDist : num;
  maxDist : num;
  iterations : nat;
}.

Definition tolerance : num := Fin 1.
Definition maxIterations : nat := 50.

Definition search_init : search :=
  {| minDist := Fin 0; maxDist := Fin 5000; iterations := 0 |}.

(** The loop condition [maxDist - minDist > tolerance && iterations < maxIterations]. *)
Definition search_cond (s : search) : bool :=
  gt (sub (maxDist s) (minDist s)) tolerance
  && (iterations s <? maxIterations)%nat.

(** One execution of the loop body. *)
Definition search_body (magnitude depth targetIntensity : num) (s : search)
  : completion search :=
  let midDist := div (add (minDist s) (maxDist s)) 2 in
  bind (calculateIntensity magnitude depth midDist) (fun intensity =>
    if gt intensity targetIntensity then
      Return {| minDist := midDist; maxDist := maxDist s;
                iterations := S (iterations s) |}
    else
      Return {| minDist := minDist s; maxDist := midDist;
                iterations := S (iterations s) |}).

(** The [while] loop, unrolled at most [fuel] times; [None] when the fuel
    runs out before the condition turns false. *)
Fixpoint search_loop (fuel : nat) (magnitude depth targetIntensity : num)
  (s : search) : option (completion search) :=
  match fuel with
  | O => None
  | S fuel' =>
      if search_cond s then
        match search_body magnitude depth targetIntensity s with
        | Return s' => search_loop fuel' magnitude depth targetIntensity s'
        | ThrowError m => Some (ThrowError m)
        end
      else Some (Return s)
  end.

(** The default parameter [targetIntensity = 3.0]: [None] is an omitted
    argument. *)
Definition default_target (targetIntensity : option num) : num :=
  match targetIntensity with
  | Some t => t
  | None => Fin 3.0
  end.

Definition estimateFeltRadius (fuel : nat)
  (magnitude depth : num) (targetIntensity : option num)
  : option (completion num) :=
  let targetIntensity := default_target targetIntensity in
  match search_loop fuel magnitude depth targetIntensity search_init with
  | None => None
  | Some (ThrowError m) => Some (ThrowError m)
  | Some (Return s) => Some (Return (div (add (minDist s) (maxDist s)) 2))
  end.

(** [calculateIntensityFromHypocentral]: the same formula on a 3D distance
    that the caller already has. *)
Definition calculateIntensityFromHypocentral
  (magnitude hypocentralDistance : num) : completion num :=
  if lt magnitude 0 || gt magnitude 10 then
    ThrowError [Text "Invalid magnitude: "; Interp magnitude;
                Text ". Must be between 0 and 10."]
  else if lt hypocentralDistance 0 then
    ThrowError [Text "Invalid hypocentral distance: ";
                Interp hypocentralDistance;
                Text ". Must be non-negative."]
  else
    let R := Math_max hypocentralDistance 1 in
    let intensity := formula magnitude R in
    Return (Math_max intensity 0).

(** [getEpicentralIntensity]: no validation, [R = max(depth, 1)]. *)
Definition getEpicentralIntensity (magnitude depth : num) : num :=
  let R := Math_max depth 1 in
  let intensity := formula magnitude R in
  Math_max intensity 0.

(** A point [{ distance, intensity }] of the decay curve. *)
Record decay_point : Type := {
  dp_distance : num;
  dp_intensity : num;
}.

(** The loop [for (let i = 0; i <= steps; i++)] of
    [getIntensityDecayCurve], entered at counter [i] with the points pushed
    so far; at most [fuel] tests of the condition.  The counter is a natural
    number: the counter of the code is exact, and its array can take the
    points, for [steps] below [MAX_ARRAY_LENGTH]. *)
Fixpoint decay_loop (fuel : nat) (magnitude depth stepSize steps : num)
  (i : nat) (curve : list decay_point)
  : option (completion (list decay_point)) :=
  match fuel with
  | O => None
  | S fuel' =>
      if le (Fin (INR i)) steps then
        let distance := mul (Fin (INR i)) stepSize in
        match calculateIntensity magnitude depth distance with
        | Return intensity =>
            decay_loop fuel' magnitude depth stepSize steps (S i)
              (curve ++ [{| dp_distance := distance;
                            dp_intensity := intensity |}])
        | ThrowError m => Some (ThrowError m)
        end
      else Some (Return curve)
  end.

(** [getIntensityDecayCurve(magnitude, depth, maxDistance = 1000,
    steps = 100)]; [None] for an omitted argument. *)
Definition getIntensityDecayCurve (fuel : nat) (magnitude depth : num)
  (maxDistance steps : option num)
  : option (completion (list decay_point)) :=
  let maxDistance :=
    match maxDistance with Some v => v | None => Fin 1000 end in
  let steps := match steps with Some v => v | None => Fin 100 end in
  let stepSize := div maxDistance steps in
  decay_loop fuel magnitude depth stepSize steps 0 [].

(** [n] executions of the loop body, each entered with the condition true. *)
Inductive iterates (magnitude depth targetIntensity : num)
  : nat -> search -> search -> Prop :=
| iterates_O s : iterates magnitude depth targetIntensity 0 s s
| iterates_S n s s' s'' :
    search_cond s = true ->
    search_body magnitude depth targetIntensity s = Return s' ->
    iterates magnitude depth targetIntensity n s' s'' ->
    iterates magnitude depth targetIntensity (S n) s s''.

End Attenuation.

(* ------------------------------------------------------------------ *)
(** ** utils/mmiScale.js *)

Module MMI.

Record entry : Type := {
  level : string;
  numericLevel : Z;
  minIntensity : num;
  maxIntensity : num;
  name : string;
  description : string;
  shaking : string;
  damage : string;
  color : string;
}.

Definition MMI_I : entry :=
  {| level := "I"; numericLevel := 1;
     minIntensity := Fin 0; maxIntensity := Fin 1.5;
     name := "Not felt";
     description := "Not felt except by a very few under especially favorable conditions.";
     shaking := "Not felt"; damage := "None"; color := "#FFFFFF" |}.

Definition MMI_II : entry :=
  {| level := "II"; numericLevel := 2;
     minIntensity := Fin 1.5; maxIntensity := Fin 2.5;
     name := "Weak";
     description := "Felt only by a few persons at rest, especially on upper floors of buildings.";
     shaking := "Weak"; damage := "None"; color := "#ACD8E9" |}.

Definition MMI_III : entry :=
  {| level := "III"; numericLevel := 3;
     minIntensity := Fin 2.5; maxIntensity := Fin 3.5;
     name := "Weak";
     description := "Felt quite noticeably by persons indoors. Many people do not recognize it as an earthquake. Standing motor cars may rock slightly.";
     shaking := "Weak"; damage := "None"; color := "#ACD8E9" |}.

Definition MMI_IV : entry :=
  {| level := "IV"; numericLevel := 4;
     minIntensity := Fin 3.5; maxIntensity := Fin 4.5;
     name := "Light";
     description := "Felt indoors by many, outdoors by few. Sensation like heavy truck striking building. Dishes, windows, doors disturbed.";
     shaking := "Light"; damage := "None"; color := "#7BC5A6" |}.

Definition MMI_V : entry :=
  {| level := "V"; numericLevel := 5;
     minIntensity := Fin 4.5; maxIntensity := Fin 5.5;
     name := "Moderate";
     description := "Felt by nearly everyone; many awakened. Some dishes, windows broken. Unstable objects overturned.";
     shaking := "Moderate"; damage := "Very light"; color := "#FDE357" |}.

Definition MMI_VI : entry :=
  {| level := "VI"; numericLevel := 6;
     minIntensity := Fin 5.5; maxIntensity := Fin 6.5;
     name := "Strong";
     description := "Felt by all, many frightened. Some heavy furniture moved; a few instances of fallen plaster. Damage slight.";
     shaking := "Strong"; damage := "Light"; color := "#FDB462" |}.

Definition MMI_VII : entry :=
  {| level := "VII"; numericLevel := 7;
     minIntensity := Fin 6.5; maxIntensity := Fin 7.5;
     name := "Very strong";
     description := "Damage negligible in buildings of good design and construction; slight to moderate in well-built ordinary structures; considerable damage in poorly built or badly designed structures.";
     shaking := "Very strong"; damage := "Moderate"; color := "#FB923C" |}.

Definition MMI_VIII : entry :=
  {| level := "VIII"; numericLevel := 8;
     minIntensity := Fin 7.5; maxIntensity := Fin 8.5;
     name := "Severe";
     description := "Damage slight in specially designed structures; considerable damage in ordinary substantial buildings with partial collapse. Damage great in poorly built structures. Heavy furniture overturned.";
     shaking := "Severe"; damage := "Moderate to heavy"; color := "#F87171" |}.

Definition MMI_IX : entry :=
  {| level := "IX"; numericLevel := 9;
     minIntensity := Fin 8.5; maxIntensity := Fin 9.5;
     name := "Violent";
     description := "Damage considerable in specially designed structures; well-designed frame structures thrown out of plumb. Buildings shifted off foundations. Ground cracked conspicuously.";
     shaking := "Violent"; damage := "Heavy"; color := "#DC2626" |}.

Definition MMI_X : entry :=
  {| level := "X"; numericLevel := 10;
     minIntensity := Fin 9.5; maxIntensity := Fin 10.5;
     name := "Extreme";
     description := "Some well-built wooden structures destroyed; most masonry and frame structures destroyed with foundations. Rails bent.";
     shaking := "Extreme"; damage := "Very heavy"; color := "#991B1B" |}.

Definition MMI_XI : entry :=
  {| level := "XI"; numericLevel := 11;
     minIntensity := Fin 10.5; maxIntensity := Fin 11.5;
     name := "Extreme";
     description := "Few, if any structures remain standing. Bridges destroyed. Rails bent greatly.";
     shaking := "Extreme"; damage := "Very heavy"; color := "#7F1D1D" |}.

Definition MMI_XII : entry :=
  {| level := "XII"; numericLevel := 12;
     minIntensity := Fin 11.5; maxIntensity := PosInf;
     name := "Extreme";
     description := "Total damage. Waves seen on ground surfaces. Objects thrown into the air.";
     shaking := "Extreme"; damage := "Very heavy"; color := "#450A0A" |}.

Definition MMI_SCALE : list entry :=
  [MMI_I; MMI_II; MMI_III; MMI_IV; MMI_V; MMI_VI;
   MMI_VII; MMI_VIII; MMI_IX; MMI_X; MMI_XI; MMI_XII].

(** What [getMMI] returns: a table entry, spread into a fresh object that
    also carries [intensityValue] on every path but the first. *)
Record result : Type := {
  band : entry;
  intensityValue : option num;
}.

(** The test of the [for] loop: [x >= level.minIntensity && x < level.maxIntensity]. *)
Definition in_range (x : num) (l : entry) : bool :=
  ge x (minIntensity l) && lt x (maxIntensity l).

(** The [for] loop of [getMMI]: the first entry whose test succeeds. *)
Fixpoint scan (x : num) (levels : list entry) : option entry :=
  match levels with
  | [] => None
  | l :: rest => if in_range x l then Some l else scan x rest
  end.

(** [MMI_SCALE[0]] and [MMI_SCALE[MMI_SCALE.length - 1]]; the table is a
    non-empty constant, so the default of [nth] and [last] is never used. *)
Definition getMMI (x : num) : result :=
  if lt x 0 || isNaN x then
    {| band := nth 0 MMI_SCALE MMI_I; intensityValue := None |}
  else
    match scan x MMI_SCALE with
    | Some l => {| band := l; intensityValue := Some x |}
    | None => {| band := last MMI_SCALE MMI_I; intensityValue := Some x |}
    end.

Definition getMMILevel (x : num) : string := level (band (getMMI x)).
Definition getMMINumeric (x : num) : Z := numericLevel (band (getMMI x)).

Definition getMMIColor (x : num) : string := color (band (getMMI x)).

Definition isFelt (x : num) : bool := (3 <=? getMMINumeric x)%Z.
Definition isDamaging (x : num) : bool := (6 <=? getMMINumeric x)%Z.
Definition isSevere (x : num) : bool := (8 <=? getMMINumeric x)%Z.

(** The argument of [getIntensityRangeForMMI]: a string or a number. *)
Inductive level_arg : Type :=
| LevelString (s : string)
| LevelNumber (n : num).

Record intensity_range : Type := {
  range_min : num;
  range_max : num;
  range_level : string;
}.

Definition romanMap : list (string * Z) :=
  [("I", 1); ("II", 2); ("III", 3); ("IV", 4); ("V", 5); ("VI", 6);
   ("VII", 7); ("VIII", 8); ("IX", 9); ("X", 10); ("XI", 11);
   ("XII", 12)]%Z%string.

Fixpoint property (key : string) (object : list (string * Z)) : option Z :=
  match object with
  | [] => None
  | (k, v) :: rest => if String.eqb k key then Some v else property key rest
  end.

(** [romanMap[roman.toUpperCase()] || 1]; the built-in [toUpperCase] is a
    parameter.  Every value of the map is non-zero, so the default is taken
    exactly for a missing key; an upper-cased key holds no lower-case
    letter, so it never names a property that the object inherits. *)
Definition romanToNumeric (toUpperCase : string -> string) (roman : string)
  : Z :=
  match property (toUpperCase roman) romanMap with
  | Some v => v
  | None => 1
  end.

(** [MMI_SCALE.find(l => l.numericLevel === numericLevel)]. *)
Definition find_level (numericLevel : num) : option entry :=
  find (fun l => strict_eq (Fin (IZR (MMI.numericLevel l))) numericLevel)
       MMI_SCALE.

(** [getIntensityRangeForMMI]; [None] is the [null] result. *)
Definition getIntensityRangeForMMI (toUpperCase : string -> string)
  (mmiLevel : level_arg) : option intensity_range :=
  let numericLevel :=
    match mmiLevel with
    | LevelString s => Fin (IZR (romanToNumeric toUpperCase s))
    | LevelNumber n => n
    end in
  match find_level numericLevel with
  | None => None
  | Some l =>
      Some {| range_min := minIntensity l;
              range_max := maxIntensity l;
              range_level := level l |}
  end.

Definition estimatePGA (x : num) : num :=
  let mmi := Fin (IZR (getMMINumeric x)) in
  let pgaInG := Math_pow_num 10 (div (sub mmi 3.7) 2.2) in
  let pgaPercent := mul pgaInG 100 in
  Math_max pgaPercent 0.

Definition getSimpleDescription (x : num) : string :=
  let mmi := getMMINumeric x in
  if (mmi <=? 2)%Z then "Not felt by most people"
  else if (mmi =? 3)%Z then "Felt by people at rest, indoors"
  else if (mmi =? 4)%Z then "Felt by most people indoors"
  else if (mmi =? 5)%Z then "Felt by everyone, minor damage possible"
  else if (mmi =? 6)%Z then "Slight damage to buildings"
  else if (mmi =? 7)%Z then "Moderate damage to ordinary buildings"
  else if (mmi =? 8)%Z then "Considerable damage, buildings may collapse"
  else if (mmi =? 9)%Z then "Heavy damage, ground cracks visible"
  else if (mmi =? 10)%Z then "Most buildings destroyed"
  else if (11 <=? mmi)%Z then "Total devastation"
  else "Unknown".

End MMI.

(* ------------------------------------------------------------------ *)
(** ** utils/damageModel.js *)

Module Damage.

Record parameters : Type := {
  k : num;          (* steepness factor *)
  threshold : num;  (* intensity threshold *)
}.

Definition DAMAGE_PARAMETERS : parameters :=
  {| k := Fin 1.5; threshold := Fin 6.0 |}.

Definition estimateDamage (intensityValue : num) : num :=
  if lt intensityValue 0 || isNaN intensityValue then Fin 0
  else
    let '{| k := k; threshold := threshold |} := DAMAGE_PARAMETERS in
    let damagePercent :=
      div 100 (add 1 (Math_exp (mul (neg k) (sub intensityValue threshold)))) in
    Math_max 0 (Math_min 100 damagePercent).

Record category : Type := {
  label : string;          (* the field named category in the source *)
  cat_description : string;
  cat_color : string;
  severity : Z;
}.

Definition getDamageCategory (damagePercent : num) : category :=
  if lt damagePercent 5 then
    {| label := "None";
       cat_description := "No significant damage expected";
       cat_color := "#10B981"; severity := 0 |}
  else if lt damagePercent 15 then
    {| label := "Very Light";
       cat_description := "Minor cosmetic damage, no structural issues";
       cat_color := "#84CC16"; severity := 1 |}
  else if lt damagePercent 30 then
    {| label := "Light";
       cat_description := "Some cracks in walls, minor damage to chimneys";
       cat_color := "#FDE047"; severity := 2 |}
  else if lt damagePercent 50 then
    {| label := "Moderate";
       cat_description := "Damage to chimneys, plaster falls, some structural damage";
       cat_color := "#FB923C"; severity := 3 |}
  else if lt damagePercent 70 then
    {| label := "Heavy";
       cat_description := "Significant structural damage, partial collapse possible";
       cat_color := "#F87171"; severity := 4 |}
  else
    {| label := "Very Heavy";
       cat_description := "Severe structural damage, widespread collapse";
       cat_color := "#DC2626"; severity := 5 |}.

Record population : Type := {
  total : num;
  affected : num;
  displaced : num;
  percentAffected : num;
}.

(** The products are exact here; in the code they are whole numbers without
    rounding while the hundredfold of the population stays within
    [MAX_SAFE_INTEGER]. *)
Definition estimateAffectedPopulation (totalPopulation damagePercent : num)
  : population :=
  if lt totalPopulation 0 || lt damagePercent 0 then
    {| total := Fin 0; affected := Fin 0; displaced := Fin 0;
       percentAffected := Fin 0 |}
  else
    let affectedPercent := Math_min (mul damagePercent 1.2) 100 in
    let affected := Math_round (div (mul totalPopulation affectedPercent) 100) in
    let displacementFactor := Math_max 0 (div (sub damagePercent 40) 60) in
    let displaced := Math_round (mul affected displacementFactor) in
    {| total := totalPopulation;
       affected := affected;
       displaced := displaced;
       percentAffected := div (Math_round (mul affectedPercent 10)) 10 |}.

Record casualties : Type := {
  low : num;
  medium : num;
  high : num;
  cas_description : string;
  warning : option string;
}.

(** The squared rate is exact here; in the code it cannot overflow for a
    damage percentage within the documented range, up to 100. *)
Definition estimateCasualtyRisk (totalPopulation damagePercent : num)
  : casualties :=
  if lt damagePercent 60 then
    {| low := Fin 0; medium := Fin 0; high := Fin 0;
       cas_description := "Casualties unlikely at this damage level";
       warning := None |}
  else
    let fatalityRate :=
      mul (Math_pow (div (sub damagePercent 60) 40) 2) 0.01 in
    let estimated := Math_round (mul totalPopulation fatalityRate) in
    {| low := Math_round (mul estimated 0.5);
       medium := estimated;
       high := Math_round (mul estimated 2);
       cas_description := "Estimated casualties (very rough approximation)";
       warning := Some "This is a simplified model - actual casualties depend on many factors including time of day, building codes, and emergency response"%string |}.

Record building_damage : Type := {
  bd_type : string;
  bd_damage : num;
  bd_description : string;
}.

Record damage_by_type : Type := {
  modern : building_damage;
  standard : building_damage;
  unreinforced : building_damage;
  informal : building_damage;
}.

Definition getBuildingDamageByType (intensityValue : num) : damage_by_type :=
  let baseDamage := estimateDamage intensityValue in
  {| modern :=
       {| bd_type := "Modern/Engineered";
          bd_damage := Math_max 0 (mul baseDamage 0.4);
          bd_description := "Reinforced concrete, seismic design" |};
     standard :=
       {| bd_type := "Standard Construction";
          bd_damage := baseDamage;
          bd_description := "Well-built ordinary structures" |};
     unreinforced :=
       {| bd_type := "Unreinforced Masonry";
          bd_damage := Math_min 100 (mul baseDamage 1.6);
          bd_description := "Older buildings, no seismic design" |};
     informal :=
       {| bd_type := "Informal Construction";
          bd_damage := Math_min 100 (mul baseDamage 2.0);
          bd_description := "Poor quality, non-engineered" |} |}.

Record economic_loss : Type := {
  directLoss : num;
  indirectLoss : num;
  totalLoss : num;
  percentOfGDP : num;
}.

(** [estimateEconomicLoss(damagePercent, totalPopulation,
    gdpPerCapita = 15000)]; [None] for an omitted third argument.  The
    products and the power are exact here; in the code they stay finite and
    non-zero while four times population times GDP per capita is within
    [MAX_VALUE] and the hundredth of the percentage is at least [MIN_VALUE]
    in size. *)
Definition estimateEconomicLoss (damagePercent totalPopulation : num)
  (gdpPerCapita : option num) : economic_loss :=
  let gdpPerCapita :=
    match gdpPerCapita with Some v => v | None => Fin 15000 end in
  let averageBuildingValuePerPerson := mul gdpPerCapita 3 in
  let totalBuildingValue :=
    mul totalPopulation averageBuildingValuePerPerson in
  let lossFactor := Math_pow_num (div damagePercent 100) 1.3 in
  let directLoss := mul totalBuildingValue lossFactor in
  let indirectLoss := mul directLoss 0.3 in
  {| directLoss := Math_round directLoss;
     indirectLoss := Math_round indirectLoss;
     totalLoss := Math_round (add directLoss indirectLoss);
     percentOfGDP :=
       div (Math_round
              (mul (div (add directLoss indirectLoss)
                        (mul totalPopulation gdpPerCapita)) 1000)) 10 |}.




(** A scenario [{ magnitude, depth, distance }]. *)
Record scenario : Type := {
  sc_magnitude : num;
  sc_depth : num;
  sc_distance : num;
}.

(** An element of the result of [compareDamageScenarios]: the scenario's own
    fields spread between [scenarioId] and the computed fields. *)
Record comparison : Type := {
  scenarioId : Z;
  c_scenario : scenario;
  c_intensity : num;
  c_damage : num;
  c_category : string;
  c_severity : Z;
}.

(** [scenarios.map((scenario, index) => ...)] from position [index] on; an
    exception of the callback aborts the whole map. *)
Fixpoint compare_from (calculateIntensity : num -> num -> num -> completion num)
  (index : nat) (scenarios : list scenario) : completion (list comparison) :=
  match scenarios with
  | [] => Return []
  | scenario :: rest =>
      bind (calculateIntensity (sc_magnitude scenario) (sc_depth scenario)
              (sc_distance scenario)) (fun intensity =>
        let damage := estimateDamage intensity in
        let category := getDamageCategory damage in
        bind (compare_from calculateIntensity (S index) rest) (fun results =>
          Return ({| scenarioId := Z.of_nat index + 1;
                     c_scenario := scenario;
                     c_intensity := intensity;
                     c_damage := damage;
                     c_category := label category;
                     c_severity := severity category |} :: results)))
  end.

Definition compareDamageScenarios (scenarios : list scenario)
  (calculateIntensity : num -> num -> num -> completion num)
  : completion (list comparison) :=
  compare_from calculateIntensity 0 scenarios.

End Damage.


(* ------------------------------------------------------------------ *)
(** ** components/IntensityDisplay.jsx *)

Module IntensityDisplay.

(** A cell of the gauge: [{ level, min, max, name, color }]. *)
Record cell : Type := {
  cell_level : string;
  cell_min : num;
  cell_max : num;
  cell_name : string;
  cell_color : string;
}.

Definition mmiLevels : list cell :=
  [ {| cell_level := "I"; cell_min := Fin 0; cell_max := Fin 1.5;
       cell_name := "Not felt"; cell_color := "#FFFFFF" |};
    {| cell_level := "II"; cell_min := Fin 1.5; cell_max := Fin 2.5;
       cell_name := "Weak"; cell_color := "#ACD8E9" |};
    {| cell_level := "III"; cell_min := Fin 2.5; cell_max := Fin 3.5;
       cell_name := "Weak"; cell_color := "#ACD8E9" |};
    {| cell_level := "IV"; cell_min := Fin 3.5; cell_max := Fin 4.5;
       cell_name := "Light"; cell_color := "#7BC5A6" |};
    {| cell_level := "V"; cell_min := Fin 4.5; cell_max := Fin 5.5;
       cell_name := "Moderate"; cell_color := "#FDE357" |};
    {| cell_level := "VI"; cell_min := Fin 5.5; cell_max := Fin 6.5;
       cell_name := "Strong"; cell_color := "#FDB462" |};
    {| cell_level := "VII"; cell_min := Fin 6.5; cell_max := Fin 7.5;
       cell_name := "Very strong"; cell_color := "#FB923C" |};
    {| cell_level := "VIII"; cell_min := Fin 7.5; cell_max := Fin 8.5;
       cell_name := "Severe"; cell_color := "#F87171" |};
    {| cell_level := "IX"; cell_min := Fin 8.5; cell_max := Fin 9.5;
       cell_name := "Violent"; cell_color := "#DC2626" |};
    {| cell_level := "X"; cell_min := Fin 9.5; cell_max := Fin 10.5;
       cell_name := "Extreme"; cell_color := "#991B1B" |};
    {| cell_level := "XI"; cell_min := Fin 10.5; cell_max := Fin 11.5;
       cell_name := "Extreme"; cell_color := "#7F1D1D" |};
    {| cell_level := "XII"; cell_min := Fin 11.5; cell_max := Fin 99;
       cell_name := "Extreme"; cell_color := "#450A0A" |} ].

(** [isActive = intensity >= level.min && intensity < level.max]. *)
Definition isActive (intensity : num) (c : cell) : bool :=
  ge intensity (cell_min c) && lt intensity (cell_max c).

(** The levels of the cells the gauge renders as active, in order. *)
Definition active_levels (intensity : num) : list string :=
  map cell_level (filter (isActive intensity) mmiLevels).

End IntensityDisplay.

(* ------------------------------------------------------------------ *)
(** ** utils/geoUtils.js: the validators *)

Module GeoValidation.

(** Every value of the model is a number, so [typeof x === 'number']
    holds. *)
Definition isValidCoordinate (lat lon : num) : bool :=
  ge lat (Fin (-90)) && le lat (Fin 90)
  && ge lon (Fin (-180)) && le lon (Fin 180)
  && negb (isNaN lat) && negb (isNaN lon).

Definition isValidDepth (depth : num) : bool :=
  ge depth (Fin 0) && le depth (Fin 700) && negb (isNaN depth).

End GeoValidation.

(* ------------------------------------------------------------------ *)
(** ** utils/geoUtils.js: distances and bearing *)

Module Geo.

Definition EARTH_RADIUS_KM : num := Fin 6371.

Definition toRadians (degrees : num) : num :=
  mul degrees (div Math_PI 180).

(** The haversine formula.  The term [a] is exact here and never exceeds 1;
    computed in double precision it can round above 1 next to the antipode
    (see [clear_of_antipode]). *)
Definition calculateDistance (lat1 lon1 lat2 lon2 : num) : num :=
  let phi1 := toRadians lat1 in
  let phi2 := toRadians lat2 in
  let dphi := toRadians (sub lat2 lat1) in
  let dlambda := toRadians (sub lon2 lon1) in
  let a :=
    add (mul (Math_sin (div dphi 2)) (Math_sin (div dphi 2)))
        (mul (mul (mul (Math_cos phi1) (Math_cos phi2))
                  (Math_sin (div dlambda 2)))
             (Math_sin (div dlambda 2))) in
  let c := mul 2 (Math_atan2 (Math_sqrt a) (Math_sqrt (sub 1 a))) in
  let distance := mul EARTH_RADIUS_KM c in
  distance.

Definition calculateHypocentralDistance
  (epicenterLat epicenterLon siteLat siteLon depth : num) : num :=
  let horizontalDistance :=
    calculateDistance epicenterLat epicenterLon siteLat siteLon in
  let hypocentralDistance :=
    Math_sqrt (add (Math_pow horizontalDistance 2) (Math_pow depth 2)) in
  hypocentralDistance.

Definition calculateBearing (lat1 lon1 lat2 lon2 : num) : num :=
  let phi1 := toRadians lat1 in
  let phi2 := toRadians lat2 in
  let dlambda := toRadians (sub lon2 lon1) in
  let y := mul (Math_sin dlambda) (Math_cos phi2) in
  let x := sub (mul (Math_cos phi1) (Math_sin phi2))
               (mul (mul (Math_sin phi1) (Math_cos phi2))
                    (Math_cos dlambda)) in
  let theta := Math_atan2 y x in
  let bearing := rem (add (div (mul theta 180) Math_PI) 360) 360 in
  bearing.

End Geo.

(* ------------------------------------------------------------------ *)
(** ** App.jsx: the effect that recomputes the results *)

Module App.

Record city : Type := {
  city_name : string;   (* the field named city in the source *)
  city_lat : num;
  city_lon : num;
  population : num;
}.

Record epicenter : Type := {
  lat : num;
  lon : num;
}.

Record results : Type := {
  res_city : string;
  res_distance : num;
  res_intensityValue : num;
  res_mmi : MMI.result;
  res_damagePercent : num;
  res_affectedPop : Damage.population;
}.

(** [cities.find(c => c.city === selectedCity) || cities[0]]. *)
Definition select_city (cities : list city) (selectedCity : string)
  : option city :=
  match find (fun c => String.eqb (city_name c) selectedCity) cities with
  | Some c => Some c
  | None => hd_error cities
  end.

(** The body of the effect: [None] when it returns before [setResults]
    (no city), otherwise the object passed to [setResults], or the error
    [calculateIntensity] throws. *)
Definition computeResults (magnitude depth : num) (epicenter : epicenter)
  (selectedCity : string) (cities : list city)
  : option (completion results) :=
  match select_city cities selectedCity with
  | None => None
  | Some city =>
      let distance :=
        Geo.calculateHypocentralDistance (lat epicenter) (lon epicenter)
          (city_lat city) (city_lon city) depth in
      Some (bind (Attenuation.calculateIntensity magnitude depth distance)
        (fun intensityValue =>
           let mmi := MMI.getMMI intensityValue in
           let damagePercent := Damage.estimateDamage intensityValue in
           let affectedPop :=
             Damage.estimateAffectedPopulation (population city)
               damagePercent in
           Return {| res_city := city_name city;
                     res_distance := distance;
                     res_intensityValue := intensityValue;
                     res_mmi := mmi;
                     res_damagePercent := damagePercent;
                     res_affectedPop := affectedPop |}))
  end.

End App.

(* ------------------------------------------------------------------ *)
(** ** Predicates of the statements *)

Module Props.

Import Attenuation MMI Damage.

(** The three guards of [calculateIntensity], as the source writes them. *)
Definition bad_magnitude (magnitude : num) : bool :=
  lt magnitude 0 || gt magnitude 10.
Definition bad_depth (depth : num) : bool :=
  lt depth 0 || gt depth 700.
Definition bad_distance (distance : num) : bool :=
  lt distance 0.

Definition rejected (magnitude depth distance : num) : bool :=
  bad_magnitude magnitude || bad_depth depth || bad_distance distance.

Definition magnitude_message (v : num) : list fragment :=
  [Text "Invalid magnitude: "; Interp v; Text ". Must be between 0 and 10."].
Definition depth_message (v : num) : list fragment :=
  [Text "Invalid depth: "; Interp v; Text ". Must be between 0 and 700 km."].
Definition distance_message (v : num) : list fragment :=
  [Text "Invalid distance: "; Interp v; Text ". Must be non-negative."].

Definition VERY_HEAVY : category :=
  {| label := "Very Heavy";
     cat_description := "Severe structural damage, widespread collapse";
     cat_color := "#DC2626"; severity := 5 |}.

(** The conditions of the five branches before the final [else]. *)
Definition in_lower_band (damagePercent : num) : bool :=
  lt damagePercent 5 || lt damagePercent 15 || lt damagePercent 30
  || lt damagePercent 50 || lt damagePercent 70.

(** The local [hypocentralDistance] of [calculateIntensity]. *)
Definition hypocentralDistance (depth distance : num) : num :=
  Math_sqrt (add (mul distance distance) (mul depth depth)).

(** The arguments [calculateIntensity] accepts and the specification calls
    valid: magnitude in [0,10], depth in [0,700], distance at least 0. *)
Definition valid_magnitude (magnitude : num) : Prop :=
  le 0 magnitude = true /\ le magnitude 10 = true.
Definition valid_depth (depth : num) : Prop :=
  le 0 depth = true /\ le depth 700 = true.
Definition valid_distance (distance : num) : Prop :=
  le 0 distance = true.

(** [calculateIntensity] on finite valid arguments, as a real function. *)
Definition log10_R (x : R) : R := ln x / ln 10.
Definition radius_R (D X : R) : R := Rmax (sqrt (X * X + D * D)) 1.
Definition intensity_R (M D X : R) : R :=
  Rmax (-3.5 + 1.8 * M - 3.5 * log10_R (radius_R D X)
        - 0.002 * radius_R D X) 0.

(** The invariant of the bisection: a finite bracket [lo, hi] with
    [0 <= lo] whose width has been halved once per iteration. *)
Definition bracket (s : search) (lo hi : R) : Prop :=
  minDist s = Fin lo /\ maxDist s = Fin hi /\ 0 <= lo
  /\ hi - lo = 5000 / 2 ^ iterations s.

(** The logistic curve of [estimateDamage], as a real function. *)
Definition damage_R (x : R) : R := 100 / (1 + exp (- (1.5 * (x - 6)))).

(** [Math.round] on a real. *)
Definition round_R (x : R) : R := IZR (Zfloor (x + / 2)).

(** The all-zero result of [estimateAffectedPopulation]. *)
Definition NO_IMPACT : population :=
  {| total := Fin 0; affected := Fin 0; displaced := Fin 0;
     percentAffected := Fin 0 |}.

(** The point the decay curve has at counter [i], for a finite step. *)
Definition decay_point_at (M D h : R) (i : nat) : decay_point :=
  {| dp_distance := Fin (INR i * h);
     dp_intensity := Fin (intensity_R M D (INR i * h)) |}.

(** The bisection keeps the target between the intensities at the two ends
    of its bracket: the intensity at [lo] exceeds the target unless [lo] is
    still 0, and the intensity at [hi] does not unless [hi] is still 5000. *)
Definition straddles (M D : R) (target : num) (s : search) (lo hi : R)
  : Prop :=
  bracket s lo hi /\ hi <= 5000
  /\ (lo = 0 \/ gt (Fin (intensity_R M D lo)) target = true)
  /\ (hi = 5000 \/ gt (Fin (intensity_R M D hi)) target = false).

(** The range [getIntensityRangeForMMI] reports for a table entry. *)
Definition range_of (l : entry) : intensity_range :=
  {| range_min := minIntensity l;
     range_max := maxIntensity l;
     range_level := level l |}.

(** [toUpperCase] on ASCII strings, an instance of the built-in. *)
Definition ascii_upper (c : Ascii.ascii) : Ascii.ascii :=
  let n := Ascii.nat_of_ascii c in
  if ((97 <=? n) && (n <=? 122))%nat then Ascii.ascii_of_nat (n - 32)
  else c.

Fixpoint ascii_toUpperCase (s : string) : string :=
  match s with
  | EmptyString => EmptyString
  | String c rest => String (ascii_upper c) (ascii_toUpperCase rest)
  end.

(** The value [estimatePGA] computes at numeric level [n]. *)
Definition pga_R (n : Z) : R := Rpower 10 ((IZR n - 3.7) / 2.2) * 100.

(** The loss factor [(damagePercent / 100) ^ 1.3] on a non-negative real. *)
Definition loss_R (d : R) : R :=
  if Req_dec_T (d / 100) 0 then 0 else Rpower (d / 100) 1.3.


(** The intensity function of [compareDamageScenarios] applied to the
    three fields of a scenario. *)
Definition applied (intensityOf : num -> num -> num -> completion num)
  (sc : scenario) : completion num :=
  intensityOf (sc_magnitude sc) (sc_depth sc) (sc_distance sc).

(** The gauge cell that corresponds to a band of the MMI table: the same
    numeral, bounds, name and colour, with 99 in place of an infinite
    maximum. *)
Definition cell_of (l : entry) : IntensityDisplay.cell :=
  {| IntensityDisplay.cell_level := level l;
     IntensityDisplay.cell_min := minIntensity l;
     IntensityDisplay.cell_max :=
       match maxIntensity l with PosInf => Fin 99 | m => m end;
     IntensityDisplay.cell_name := name l;
     IntensityDisplay.cell_color := color l |}.

(** [toRadians] and the haversine term [a] of [calculateDistance] on
    finite coordinates. *)
Definition rad (degrees : R) : R := degrees * (PI / 180).

Definition haversine_R (lat1 lon1 lat2 lon2 : R) : R :=
  sin (rad (lat2 - lat1) / 2) * sin (rad (lat2 - lat1) / 2)
  + cos (rad lat1) * cos (rad lat2) * sin (rad (lon2 - lon1) / 2)
    * sin (rad (lon2 - lon1) / 2).

(** Two points that keep clear of being antipodal: the haversine term is
    at most 0.99, which is a central angle below 168.5 degrees.  Next to 1
    the term computed in double precision can round above 1, and the square
    root of [1 - a] is then NaN. *)
Definition clear_of_antipode (lat1 lon1 lat2 lon2 : R) : Prop :=
  haversine_R lat1 lon1 lat2 lon2 <= 0.99.

(** A number whose square is a normal double: squaring it neither overflows
    nor underflows. *)
Definition square_in_range (x : R) : Prop :=
  / 2 ^ 511 <= Rabs x <= 2 ^ 511.

(** The band without an upper bound. *)
Definition open_ended (l : entry) : bool :=
  match maxIntensity l with PosInf => true | _ => false end.

(** Membership of an intensity in a band: [min <= x < max], the open-ended
    band taking every intensity from its minimum on. *)
Definition in_band (x : num) (l : entry) : bool :=
  le (minIntensity l) x && (lt x (maxIntensity l) || open_ended l).

End Props.

Import Props.
(* ------------------------------------------------------------------ *)
(** ** Facts about the number model *)

Section NumFacts.

Lemma Rltb_true x y : Rltb x y = true <-> x < y.
Proof. unfold Rltb; destruct (Rlt_dec x y); split; intros; try easy. Qed.

Lemma Rltb_false x y : Rltb x y = false <-> y <= x.
Proof.
  unfold Rltb; destruct (Rlt_dec x y); split; intros; try easy; lra.
Qed.

Lemma Rleb_true x y : Rleb x y = true <-> x <= y.
Proof. unfold Rleb; destruct (Rle_dec x y); split; intros; try easy. Qed.

Lemma Rleb_false x y : Rleb x y = false <-> y < x.
Proof.
  unfold Rleb; destruct (Rle_dec x y); split; intros; try easy; lra.
Qed.

Lemma lt_Fin x y : lt (Fin x) (Fin y) = true <-> x < y.
Proof. apply Rltb_true. Qed.

Lemma lt_Fin_false x y : lt (Fin x) (Fin y) = false <-> y <= x.
Proof. apply Rltb_false. Qed.

Lemma le_Fin x y : le (Fin x) (Fin y) = true <-> x <= y.
Proof. apply Rleb_true. Qed.

Lemma le_Fin_false x y : le (Fin x) (Fin y) = false <-> y < x.
Proof. apply Rleb_false. Qed.

Lemma lt_irrefl a : lt a a = false.
Proof. destruct a; simpl; auto. apply Rltb_false; lra. Qed.

Lemma lt_le a b : lt a b = true -> le a b = true.
Proof.
  destruct a, b; simpl; auto.
  rewrite Rltb_true, Rleb_true; lra.
Qed.

Lemma le_trans a b c : le a b = true -> le b c = true -> le a c = true.
Proof.
  destruct a, b, c; simpl; auto; try discriminate.
  rewrite !Rleb_true; lra.
Qed.

Lemma lt_le_trans a b c : lt a b = true -> le b c = true -> lt a c = true.
Proof.
  destruct a, b, c; simpl; auto; try discriminate.
  rewrite !Rltb_true, Rleb_true; lra.
Qed.

Lemma le_lt_trans a b c : le a b = true -> lt b c = true -> lt a c = true.
Proof.
  destruct a, b, c; simpl; auto; try discriminate.
  rewrite !Rltb_true, Rleb_true; lra.
Qed.

Lemma lt_asym a b : lt a b = true -> lt b a = false.
Proof.
  destruct a, b; simpl; auto; try discriminate.
  rewrite Rltb_true, Rltb_false; lra.
Qed.

Lemma le_not_lt a b : le a b = true -> lt b a = false.
Proof.
  destruct a, b; simpl; auto; try discriminate.
  rewrite Rleb_true, Rltb_false; lra.
Qed.

(** A number that passes [0 <= a] is a non-negative real or +infinity. *)
Lemma le_0_inv a :
  le 0 a = true -> (exists x, a = Fin x /\ 0 <= x) \/ a = PosInf.
Proof.
  destruct a; simpl; try discriminate; auto.
  rewrite Rleb_true; eauto.
Qed.

Lemma between_inv lo a hi :
  le (Fin lo) a = true -> le a (Fin hi) = true ->
  exists x, a = Fin x /\ lo <= x <= hi.
Proof.
  destruct a; simpl; try discriminate.
  rewrite !Rleb_true; eauto.
Qed.

End NumFacts.

(** Decide the real comparisons that a goal or a hypothesis branches on. *)
Ltac case_R :=
  repeat match goal with
  | |- context [Rlt_dec ?x ?y] => destruct (Rlt_dec x y); try lra
  | |- context [Rle_dec ?x ?y] => destruct (Rle_dec x y); try lra
  | |- context [Req_dec_T ?x ?y] => destruct (Req_dec_T x y); try lra
  | H : context [Rlt_dec ?x ?y] |- _ => destruct (Rlt_dec x y); try lra
  | H : context [Rle_dec ?x ?y] |- _ => destruct (Rle_dec x y); try lra
  | H : context [Req_dec_T ?x ?y] |- _ => destruct (Req_dec_T x y); try lra
  end.

Ltac js_cmp :=
  unfold gt, ge, lt, le, Rltb, Rleb in *; case_R.

(* ------------------------------------------------------------------ *)
(** ** Input validation of [calculateIntensity] *)

Section Validation.

Import Attenuation.

Lemma calculateIntensity_cases magnitude depth distance :
  calculateIntensity magnitude depth distance =
    if bad_magnitude magnitude then ThrowError (magnitude_message magnitude)
    else if bad_depth depth then ThrowError (depth_message depth)
    else if bad_distance distance then ThrowError (distance_message distance)
    else Return (Math_max
                   (formula magnitude
                      (Math_max (Math_sqrt (add (mul distance distance)
                                                (mul depth depth))) 1)) 0).
Proof. reflexivity. Qed.

Lemma nan_passes_guards :
  bad_magnitude NaN = false /\ bad_depth NaN = false /\ bad_distance NaN = false.
Proof. repeat split. Qed.

(** C3. [calculateIntensity] throws exactly when the magnitude is below 0 or
    above 10, or the depth is below 0 or above 700, or the distance is below
    0; the error names the first offending value and its valid range.  On
    every other input it returns a number; NaN arguments fail every one of
    the comparisons, so they are not rejected. *)
Theorem calculateIntensity_rejects_exactly magnitude depth distance :
  ((exists message,
       calculateIntensity magnitude depth distance = ThrowError message)
     <-> rejected magnitude depth distance = true)
  /\ ((exists value,
         calculateIntensity magnitude depth distance = Return value)
     <-> rejected magnitude depth distance = false)
  /\ (bad_magnitude magnitude = true ->
      calculateIntensity magnitude depth distance
      = ThrowError (magnitude_message magnitude))
  /\ (bad_magnitude magnitude = false -> bad_depth depth = true ->
      calculateIntensity magnitude depth distance
      = ThrowError (depth_message depth))
  /\ (bad_magnitude magnitude = false -> bad_depth depth = false ->
      bad_distance distance = true ->
      calculateIntensity magnitude depth distance
      = ThrowError (distance_message distance))
  /\ rejected NaN NaN NaN = false
  /\ calculateIntensity NaN NaN NaN = Return NaN.
Proof.
  rewrite calculateIntensity_cases. unfold rejected.
  destruct (bad_magnitude magnitude), (bad_depth depth),
    (bad_distance distance); simpl;
    repeat split; intros;
    repeat match goal with
      | H : exists _, _ |- _ => destruct H
      | H : ThrowError _ = ThrowError _ |- _ => injection H as <-
      end;
    try discriminate; eauto.
Qed.

Lemma calculateIntensity_rejects_exactly_witness :
  bad_magnitude (Fin 11) = true
  /\ calculateIntensity (Fin 11) (Fin 35) (Fin 335)
     = ThrowError (magnitude_message (Fin 11))
  /\ bad_magnitude (Fin 5) = false /\ bad_depth (Fin 35) = false
  /\ bad_distance (Fin (-1)) = true
  /\ calculateIntensity (Fin 5) (Fin 35) (Fin (-1))
     = ThrowError (distance_message (Fin (-1))).
Proof.
  assert (H11 : bad_magnitude (Fin 11) = true).
  { apply orb_true_iff; right. apply lt_Fin; lra. }
  assert (H5 : bad_magnitude (Fin 5) = false).
  { apply orb_false_iff; split; apply lt_Fin_false; lra. }
  assert (H35 : bad_depth (Fin 35) = false).
  { apply orb_false_iff; split; apply lt_Fin_false; lra. }
  assert (Hneg : bad_distance (Fin (-1)) = true).
  { apply lt_Fin; lra. }
  repeat split; try assumption.
  - exact (proj1 (proj2 (proj2
      (calculateIntensity_rejects_exactly (Fin 11) (Fin 35) (Fin 335)))) H11).
  - exact (proj1 (proj2 (proj2 (proj2 (proj2
      (calculateIntensity_rejects_exactly (Fin 5) (Fin 35) (Fin (-1)))))))
      H5 H35 Hneg).
Defined.

End Validation.

(* ------------------------------------------------------------------ *)
(** ** The damage categories *)

Section DamageCategories.

Import Damage.

Lemma above_100_not_lower p : gt p 100 = true -> in_lower_band p = false.
Proof.
  unfold in_lower_band. destruct p; simpl; try discriminate; auto.
  intros H. js_cmp; auto; discriminate.
Qed.

(** C10. [getDamageCategory] is a total function, and every input that none
    of the lower branches takes, percentages above 100 and NaN among
    them, is classified as Very Heavy with severity 5. *)
Theorem getDamageCategory_top_band (damagePercent : num) :
  in_lower_band damagePercent = false
    \/ gt damagePercent 100 = true
    \/ isNaN damagePercent = true ->
  getDamageCategory damagePercent = VERY_HEAVY
  /\ label (getDamageCategory damagePercent) = "Very Heavy"%string
  /\ severity (getDamageCategory damagePercent) = 5%Z.
Proof.
  intros H.
  assert (Hlow : in_lower_band damagePercent = false).
  { destruct H as [H | [H | H]]; auto using above_100_not_lower.
    destruct damagePercent; try discriminate; reflexivity. }
  assert (E : getDamageCategory damagePercent = VERY_HEAVY).
  { unfold in_lower_band in Hlow.
    repeat (apply orb_false_elim in Hlow; destruct Hlow as [Hlow ?]).
    unfold getDamageCategory.
    repeat match goal with H : lt _ _ = false |- _ => rewrite H; clear H end.
    reflexivity. }
  rewrite E. repeat split.
Qed.

Lemma getDamageCategory_top_band_witness :
  (gt (Fin 150) 100 = true
   /\ severity (getDamageCategory (Fin 150)) = 5%Z)
  /\ (isNaN NaN = true /\ severity (getDamageCategory NaN) = 5%Z).
Proof.
  split; split.
  - apply lt_Fin; lra.
  - apply (getDamageCategory_top_band (Fin 150)).
    right; left. apply lt_Fin; lra.
  - reflexivity.
  - apply (getDamageCategory_top_band NaN). right; right; reflexivity.
Defined.

End DamageCategories.

(* ------------------------------------------------------------------ *)
(** ** The MMI classifier *)

Section Classifier.

Import MMI.

Lemma MMI_SCALE_length : List.length MMI_SCALE = 12%nat.
Proof. reflexivity. Qed.

Lemma getMMI_invalid x :
  lt x 0 = true \/ isNaN x = true ->
  getMMI x = {| band := MMI_I; intensityValue := None |}.
Proof.
  intros H. unfold getMMI.
  replace (lt x 0 || isNaN x) with true; [reflexivity|].
  destruct H as [-> | ->]; auto using orb_true_r.
Qed.

(** Every band of the table, tried one after the other. *)
Ltac each_band H :=
  simpl in H;
  repeat (destruct H as [H | H]; [subst | ]); try contradiction.

Lemma getMMI_in_table x : In (band (getMMI x)) MMI_SCALE.
Proof.
  unfold getMMI. destruct (lt x 0 || isNaN x); [simpl; auto|].
  unfold MMI_SCALE, scan.
  repeat match goal with
    | |- context [in_range x ?l] => destruct (in_range x l); [simpl; tauto|]
    end.
  simpl; tauto.
Qed.

Lemma getMMI_in_band x :
  le 0 x = true -> in_band x (band (getMMI x)) = true.
Proof.
  intros H. destruct (le_0_inv _ H) as [(r & -> & Hr) | ->];
    [|reflexivity].
  unfold getMMI, MMI_SCALE, scan, in_range, in_band. simpl.
  js_cmp; simpl; js_cmp; reflexivity.
Qed.

Lemma in_band_unique x l :
  le 0 x = true -> In l MMI_SCALE -> in_band x l = true ->
  l = band (getMMI x).
Proof.
  intros H Hl Hb. destruct (le_0_inv _ H) as [(r & -> & Hr) | ->].
  - unfold getMMI, MMI_SCALE, scan, in_range. simpl.
    each_band Hl; unfold in_band in Hb; simpl in Hb;
      js_cmp; simpl in *; try discriminate; js_cmp; try reflexivity.
  - each_band Hl; try discriminate; reflexivity.
Qed.

Lemma getMMI_at_minimum l :
  In l MMI_SCALE -> band (getMMI (minIntensity l)) = l.
Proof.
  intros Hl.
  each_band Hl; unfold getMMI, MMI_SCALE, scan, in_range; simpl;
    js_cmp; simpl; js_cmp; reflexivity.
Qed.

(** C6. The table has twelve bands.  For every intensity [x >= 0] exactly
    one of them contains [x] (its minimum is at most [x] and [x] is below
    its maximum, the last band being open-ended), and [getMMI x] returns
    that band together with [x].  An intensity equal to the minimum of a
    band is classified into that band.  Intensities below 0 and NaN are
    classified as MMI I. *)
Theorem getMMI_partition :
  List.length MMI_SCALE = 12%nat
  /\ (forall x, le 0 x = true ->
        In (band (getMMI x)) MMI_SCALE
        /\ in_band x (band (getMMI x)) = true
        /\ (forall l, In l MMI_SCALE -> in_band x l = true ->
              l = band (getMMI x))
        /\ intensityValue (getMMI x) = Some x)
  /\ (forall l, In l MMI_SCALE -> band (getMMI (minIntensity l)) = l)
  /\ (forall x, lt x 0 = true \/ isNaN x = true ->
        band (getMMI x) = MMI_I /\ level (band (getMMI x)) = "I"%string).
Proof.
  split; [reflexivity|]. split; [|split].
  - intros x H. repeat split.
    + apply getMMI_in_table.
    + now apply getMMI_in_band.
    + intros l; now apply in_band_unique.
    + unfold getMMI.
      replace (lt x 0 || isNaN x) with false.
      * now destruct (scan x MMI_SCALE).
      * symmetry. rewrite (le_not_lt _ _ H). now destruct x.
  - apply getMMI_at_minimum.
  - intros x H. now rewrite (getMMI_invalid x H).
Qed.

Lemma getMMI_partition_witness :
  le 0 (Fin 7.5) = true
  /\ band (getMMI (Fin 7.5)) = MMI_VIII
  /\ band (getMMI (Fin (-1))) = MMI_I.
Proof.
  destruct getMMI_partition as (_ & Hpos & Hmin & Hneg).
  split; [apply le_Fin; lra|]. split.
  - apply (Hmin MMI_VIII). simpl; tauto.
  - apply (Hneg (Fin (-1))). left. apply lt_Fin; lra.
Defined.

End Classifier.

(* ------------------------------------------------------------------ *)
(** ** The attenuation formula on valid arguments *)

Section AttenuationFacts.

Import Attenuation.

Lemma Math_max_Fin x y : Math_max (Fin x) (Fin y) = Fin (Rmax x y).
Proof.
  unfold Math_max, lt, Rltb, Rmax.
  destruct (Rlt_dec x y), (Rle_dec x y); try reflexivity; try lra.
  f_equal; lra.
Qed.

Lemma Math_min_Fin x y : Math_min (Fin x) (Fin y) = Fin (Rmin x y).
Proof.
  unfold Math_min, lt, Rltb, Rmin.
  destruct (Rlt_dec y x), (Rle_dec x y); try reflexivity; lra.
Qed.

Lemma Math_sqrt_Fin x : 0 <= x -> Math_sqrt (Fin x) = Fin (sqrt x).
Proof. intros H. unfold Math_sqrt. now destruct (Rlt_dec x 0); [lra|]. Qed.

Lemma Math_log10_Fin x : 0 < x -> Math_log10 (Fin x) = Fin (log10_R x).
Proof.
  intros H. unfold Math_log10.
  destruct (Rlt_dec x 0); [lra|]. now destruct (Req_dec_T x 0); [lra|].
Qed.

Lemma ln_10_pos : 0 < ln 10.
Proof. rewrite <- ln_1. apply ln_increasing; lra. Qed.

Lemma log10_R_le x y : 0 < x -> x <= y -> log10_R x <= log10_R y.
Proof.
  intros Hx [Hlt | ->]; [|lra].
  unfold log10_R. apply Rmult_le_compat_r.
  - left. apply Rinv_0_lt_compat, ln_10_pos.
  - left. now apply ln_increasing.
Qed.

Lemma radius_R_ge_1 D X : 1 <= radius_R D X.
Proof. apply Rmax_r. Qed.

Lemma radius_R_le D X X' : 0 <= X -> X <= X' -> radius_R D X <= radius_R D X'.
Proof.
  intros H0 H. unfold radius_R.
  apply Rle_max_compat_r, sqrt_le_1_alt. nra.
Qed.

Lemma intensity_R_nonneg M D X : 0 <= intensity_R M D X.
Proof. apply Rmax_r. Qed.

Lemma intensity_R_magnitude M M' D X :
  M <= M' -> intensity_R M D X <= intensity_R M' D X.
Proof. intros H. unfold intensity_R. apply Rle_max_compat_r. lra. Qed.

Lemma intensity_R_distance M D X X' :
  0 <= X -> X <= X' -> intensity_R M D X' <= intensity_R M D X.
Proof.
  intros H0 H. unfold intensity_R. apply Rle_max_compat_r.
  pose proof (radius_R_le D X X' H0 H) as Hr.
  pose proof (radius_R_ge_1 D X) as H1.
  assert (log10_R (radius_R D X) <= log10_R (radius_R D X'))
    by (apply log10_R_le; lra).
  lra.
Qed.

Lemma calculateIntensity_finite M D X :
  0 <= M <= 10 -> 0 <= D <= 700 -> 0 <= X ->
  calculateIntensity (Fin M) (Fin D) (Fin X) = Return (Fin (intensity_R M D X)).
Proof.
  intros HM HD HX. rewrite calculateIntensity_cases.
  replace (bad_magnitude (Fin M)) with false
    by (unfold bad_magnitude; js_cmp; reflexivity).
  replace (bad_depth (Fin D)) with false
    by (unfold bad_depth; js_cmp; reflexivity).
  replace (bad_distance (Fin X)) with false
    by (unfold bad_distance; js_cmp; reflexivity).
  cbn [mul add]. rewrite Math_sqrt_Fin by nra.
  rewrite Math_max_Fin. fold (radius_R D X).
  pose proof (radius_R_ge_1 D X).
  unfold formula. cbn [ATTENUATION_CONSTANTS mul add].
  rewrite Math_log10_Fin by lra.
  cbn [mul sub]. rewrite Math_max_Fin.
  unfold intensity_R. reflexivity.
Qed.

Lemma calculateIntensity_infinite M D :
  0 <= M <= 10 -> 0 <= D <= 700 ->
  calculateIntensity (Fin M) (Fin D) PosInf = Return (Fin 0).
Proof.
  intros HM HD. rewrite calculateIntensity_cases.
  replace (bad_magnitude (Fin M)) with false
    by (unfold bad_magnitude; js_cmp; reflexivity).
  replace (bad_depth (Fin D)) with false
    by (unfold bad_depth; js_cmp; reflexivity).
  cbn. unfold signed_inf. case_R. reflexivity.
Qed.

Lemma calculateIntensity_valid magnitude depth distance :
  valid_magnitude magnitude -> valid_depth depth -> valid_distance distance ->
  exists M D,
    magnitude = Fin M /\ depth = Fin D /\ 0 <= M <= 10 /\ 0 <= D <= 700
    /\ ((exists X, distance = Fin X /\ 0 <= X
          /\ calculateIntensity magnitude depth distance
             = Return (Fin (intensity_R M D X)))
        \/ (distance = PosInf
            /\ calculateIntensity magnitude depth distance = Return (Fin 0))).
Proof.
  intros [Hm0 Hm1] [Hd0 Hd1] Hx.
  destruct (between_inv _ _ _ Hm0 Hm1) as (M & -> & HM).
  destruct (between_inv _ _ _ Hd0 Hd1) as (D & -> & HD).
  exists M, D. repeat split; try tauto.
  destruct (le_0_inv _ Hx) as [(X & -> & HX) | ->].
  - left. exists X. auto using calculateIntensity_finite.
  - right. auto using calculateIntensity_infinite.
Qed.

(** C4. On valid arguments (magnitude in [0,10], depth in [0,700], distance
    at least 0) [calculateIntensity] returns a non-negative intensity; with
    depth and distance fixed the intensity does not decrease when the
    magnitude grows; with magnitude and depth fixed it does not increase
    when the distance grows from a point whose hypocentral distance exceeds
    1 km. *)
Theorem calculateIntensity_monotone magnitude depth distance :
  valid_magnitude magnitude -> valid_depth depth -> valid_distance distance ->
  exists i,
    calculateIntensity magnitude depth distance = Return i
    /\ le 0 i = true
    /\ (forall magnitude',
          valid_magnitude magnitude' -> le magnitude magnitude' = true ->
          exists i',
            calculateIntensity magnitude' depth distance = Return i'
            /\ le i i' = true)
    /\ (forall distance',
          le distance distance' = true ->
          lt 1 (hypocentralDistance depth distance) = true ->
          exists i',
            calculateIntensity magnitude depth distance' = Return i'
            /\ le i' i = true).
Proof.
  intros Hm Hd Hx.
  destruct (calculateIntensity_valid _ _ _ Hm Hd Hx)
    as (M & D & -> & -> & HM & HD & Hcase).
  destruct Hcase as [(X & -> & HX & E) | (-> & E)]; rewrite E.
  - eexists; split; [reflexivity|]. split; [|split].
    + apply le_Fin, intensity_R_nonneg.
    + intros m' Hm' Hle.
      destruct (calculateIntensity_valid _ _ _ Hm' Hd Hx)
        as (M' & D' & -> & HD' & _ & _ & Hcase).
      injection HD' as <-. apply le_Fin in Hle.
      destruct Hcase as [(X' & HX' & _ & E') | (HX' & _)];
        [|discriminate].
      injection HX' as <-. rewrite E'.
      eexists; split; [reflexivity|].
      now apply le_Fin, intensity_R_magnitude.
    + intros x' Hle _.
      assert (Hx' : valid_distance x') by (eapply le_trans; eauto).
      destruct (calculateIntensity_valid _ _ _ Hm Hd Hx')
        as (M' & D' & HM' & HD' & _ & _ & Hcase).
      injection HM' as <-. injection HD' as <-.
      destruct Hcase as [(X' & -> & HX' & E') | (-> & E')]; rewrite E';
        (eexists; split; [reflexivity|]).
      * apply le_Fin in Hle. now apply le_Fin, intensity_R_distance.
      * apply le_Fin, intensity_R_nonneg.
  - eexists; split; [reflexivity|]. split; [|split].
    + apply le_Fin; lra.
    + intros m' Hm' Hle.
      destruct (calculateIntensity_valid _ _ _ Hm' Hd Hx)
        as (M' & D' & -> & HD' & _ & _ & Hcase).
      destruct Hcase as [(X' & HX' & _) | (_ & E')]; [discriminate|].
      rewrite E'. eexists; split; [reflexivity|]. apply le_Fin; lra.
    + intros x' Hle _. destruct x'; try discriminate.
      rewrite E. eexists; split; [reflexivity|]. apply le_Fin; lra.
Qed.

Lemma calculateIntensity_monotone_witness :
  valid_magnitude (Fin 6) /\ valid_depth (Fin 30) /\ valid_distance (Fin 100)
  /\ valid_magnitude (Fin 7) /\ le (Fin 6) (Fin 7) = true
  /\ le (Fin 100) (Fin 200) = true
  /\ lt 1 (hypocentralDistance (Fin 30) (Fin 100)) = true
  /\ exists i i' i'',
      calculateIntensity (Fin 6) (Fin 30) (Fin 100) = Return i
      /\ le 0 i = true
      /\ calculateIntensity (Fin 7) (Fin 30) (Fin 100) = Return i'
      /\ le i i' = true
      /\ calculateIntensity (Fin 6) (Fin 30) (Fin 200) = Return i''
      /\ le i'' i = true.
Proof.
  assert (Hm : valid_magnitude (Fin 6)) by (split; apply le_Fin; lra).
  assert (Hd : valid_depth (Fin 30)) by (split; apply le_Fin; lra).
  assert (Hx : valid_distance (Fin 100)) by (apply le_Fin; lra).
  assert (Hm' : valid_magnitude (Fin 7)) by (split; apply le_Fin; lra).
  assert (Hmm : le (Fin 6) (Fin 7) = true) by (apply le_Fin; lra).
  assert (Hxx : le (Fin 100) (Fin 200) = true) by (apply le_Fin; lra).
  assert (Hr : lt 1 (hypocentralDistance (Fin 30) (Fin 100)) = true).
  { unfold hypocentralDistance. cbn [mul add].
    rewrite Math_sqrt_Fin by lra. apply lt_Fin.
    rewrite <- sqrt_1 at 1. apply sqrt_lt_1; lra. }
  repeat (split; [assumption|]).
  destruct (calculateIntensity_monotone (Fin 6) (Fin 30) (Fin 100) Hm Hd Hx)
    as (i & E & H0 & Hmag & Hdist).
  destruct (Hmag (Fin 7) Hm' Hmm) as (i' & E' & Hi').
  destruct (Hdist (Fin 200) Hxx Hr) as (i'' & E'' & Hi'').
  exists i, i', i''. auto 10.
Defined.

End AttenuationFacts.

(* ------------------------------------------------------------------ *)
(** ** The calibration scenario *)

Section Calibration.

Import Attenuation MMI.

Lemma ln_le x y : 0 < x -> x <= y -> ln x <= ln y.
Proof. intros Hx [H | ->]; [left; now apply ln_increasing | lra]. Qed.

(** Bounds on a decimal logarithm from integer powers. *)
Lemma log10_R_lower x (n k : nat) :
  0 < x -> 10 ^ k <= x ^ n -> INR k <= INR n * log10_R x.
Proof.
  intros Hx H. pose proof ln_10_pos as H10.
  assert (Hk : 0 < 10 ^ k) by (apply pow_lt; lra).
  apply ln_le in H; [|assumption].
  rewrite !ln_pow in H by lra.
  unfold log10_R. apply Rmult_le_reg_r with (ln 10); [assumption|].
  replace (INR n * (ln x / ln 10) * ln 10) with (INR n * ln x)
    by (field; lra).
  assumption.
Qed.

Lemma log10_R_upper x (n k : nat) :
  0 < x -> x ^ n <= 10 ^ k -> INR n * log10_R x <= INR k.
Proof.
  intros Hx H. pose proof ln_10_pos as H10.
  assert (Hn : 0 < x ^ n) by (apply pow_lt; lra).
  apply ln_le in H; [|assumption].
  rewrite !ln_pow in H by lra.
  unfold log10_R. apply Rmult_le_reg_r with (ln 10); [assumption|].
  replace (INR n * (ln x / ln 10) * ln 10) with (INR n * ln x)
    by (field; lra).
  assumption.
Qed.

(** The hypocentral distance of the scenario, sqrt(335^2 + 35^2). *)
Lemma calibration_radius :
  336 < radius_R 35 335 < 337.
Proof.
  unfold radius_R.
  assert (H : 336 < sqrt (335 * 335 + 35 * 35) < 337).
  { split.
    - apply Rle_lt_trans with (sqrt (336 * 336)).
      + rewrite sqrt_square; lra.
      + apply sqrt_lt_1; lra.
    - apply Rlt_le_trans with (sqrt (337 * 337)).
      + apply sqrt_lt_1; lra.
      + rewrite sqrt_square; lra. }
  rewrite Rmax_left; lra.
Qed.

Lemma calibration_log10 :
  2.5 <= log10_R (radius_R 35 335) <= 2.6.
Proof.
  pose proof calibration_radius as [Hlo Hhi].
  set (h := radius_R 35 335) in *.
  split.
  - assert (H : INR 5 <= INR 2 * log10_R h).
    { apply log10_R_lower; [lra|].
      apply Rle_trans with (336 ^ 2); [simpl; lra|].
      apply pow_incr; lra. }
    simpl in H. lra.
  - assert (H : INR 5 * log10_R h <= INR 13).
    { apply log10_R_upper; [lra|].
      apply Rle_trans with (337 ^ 5); [apply pow_incr; lra | simpl; lra]. }
    simpl in H. lra.
Qed.

Lemma calibration_intensity :
  2.5 < intensity_R 8.8 35 335 < 3.
Proof.
  pose proof calibration_radius. pose proof calibration_log10.
  unfold intensity_R. rewrite Rmax_left; lra.
Qed.

(** C1, as the code behaves.  For the calibration scenario (M8.8, depth 35
    km, distance 335 km) [calculateIntensity] returns a value between 2.5 and
    3, which is not within 0.5 of the documented 7.2, and [getMMI] classifies
    it as MMI III, neither VII nor VIII. *)
Theorem calibration_scenario_misses :
  exists v,
    calculateIntensity (Fin 8.8) (Fin 35) (Fin 335) = Return (Fin v)
    /\ 2.5 < v < 3
    /\ ~ Rabs (v - 7.2) <= 0.5
    /\ band (getMMI (Fin v)) = MMI_III
    /\ level (band (getMMI (Fin v))) = "III"%string.
Proof.
  exists (intensity_R 8.8 35 335).
  pose proof calibration_intensity as Hv.
  split; [apply calculateIntensity_finite; lra|].
  split; [assumption|]. split.
  - intros H. unfold Rabs in H. destruct (Rcase_abs _); lra.
  - assert (E : MMI_III = band (getMMI (Fin (intensity_R 8.8 35 335)))).
    { apply in_band_unique.
      - apply le_Fin; lra.
      - simpl; tauto.
      - unfold in_band. simpl. apply andb_true_iff; split.
        + apply Rleb_true; lra.
        + apply orb_true_iff; left. apply Rltb_true; lra. }
    rewrite <- E. split; reflexivity.
Qed.

End Calibration.

(* ------------------------------------------------------------------ *)
(** ** The logistic damage curve *)

Section DamageCurve.

Import Damage.

Lemma damage_R_bounds x : 0 < damage_R x < 100.
Proof.
  unfold damage_R. set (e := exp _). pose proof (exp_pos (- (1.5 * (x - 6)))).
  fold e in H. split.
  - apply Rdiv_lt_0_compat; lra.
  - apply Rmult_lt_reg_r with (1 + e); [lra|].
    unfold Rdiv. rewrite Rmult_assoc, Rinv_l by lra. lra.
Qed.

Lemma damage_R_le x y : x <= y -> damage_R x <= damage_R y.
Proof.
  intros H. unfold damage_R.
  pose proof (exp_pos (- (1.5 * (y - 6)))) as Hy.
  assert (He : exp (- (1.5 * (y - 6))) <= exp (- (1.5 * (x - 6)))).
  { destruct H as [H | ->]; [left; apply exp_increasing; lra | lra]. }
  unfold Rdiv. apply Rmult_le_compat_l; [lra|].
  apply Rinv_le_contravar; lra.
Qed.

Lemma estimateDamage_finite x :
  0 <= x -> estimateDamage (Fin x) = Fin (damage_R x).
Proof.
  intros Hx. unfold estimateDamage.
  replace (lt (Fin x) 0 || isNaN (Fin x)) with false
    by (js_cmp; reflexivity).
  cbn [DAMAGE_PARAMETERS neg sub mul Math_exp add].
  match goal with
  | |- context [exp ?t] => replace t with (- (1.5 * (x - 6))) by lra
  end.
  pose proof (exp_pos (- (1.5 * (x - 6)))) as He.
  unfold div. destruct (Req_dec_T _ 0) as [E | _]; [lra|].
  rewrite Math_min_Fin, Math_max_Fin. fold (damage_R x). pose proof (damage_R_bounds x).
  rewrite Rmin_right, Rmax_right by lra. reflexivity.
Qed.

Lemma estimateDamage_PosInf : estimateDamage PosInf = Fin 100.
Proof.
  unfold estimateDamage.
  cbn [lt isNaN orb DAMAGE_PARAMETERS neg sub mul]. unfold signed_inf.
  destruct (Rlt_dec 0 (- (1.5))); [lra|].
  destruct (Rlt_dec (- (1.5)) 0); [|lra].
  cbn [Math_exp add]. unfold div.
  destruct (Req_dec_T (1 + 0) 0); [lra|].
  rewrite Math_min_Fin, Math_max_Fin.
  replace (100 / (1 + 0)) with 100 by (field; lra).
  rewrite Rmin_left, Rmax_right by lra. reflexivity.
Qed.

Lemma estimateDamage_below_0 x :
  lt x 0 = true \/ isNaN x = true -> estimateDamage x = Fin 0.
Proof.
  intros H. unfold estimateDamage.
  replace (lt x 0 || isNaN x) with true; [reflexivity|].
  destruct H as [-> | ->]; auto using orb_true_r.
Qed.

(** Every input gives a real percentage between 0 and 100. *)
Lemma estimateDamage_range x :
  exists p, estimateDamage x = Fin p /\ 0 <= p <= 100.
Proof.
  destruct x as [| | r |].
  - exists 0. split; [now apply estimateDamage_below_0; right | lra].
  - exists 0. split; [now apply estimateDamage_below_0; left | lra].
  - destruct (Rlt_dec r 0).
    + exists 0. split; [|lra].
      apply estimateDamage_below_0; left. now apply lt_Fin.
    + exists (damage_R r). split; [apply estimateDamage_finite; lra|].
      pose proof (damage_R_bounds r). lra.
  - exists 100. split; [apply estimateDamage_PosInf | lra].
Qed.

(** C5. [estimateDamage] is non-decreasing: [x <= y] gives
    [estimateDamage x <= estimateDamage y]; its value always lies in
    [0,100]; and [estimateDamage (-5)] is 0. *)
Theorem estimateDamage_monotone_bounded :
  (forall x y, le x y = true ->
     le (estimateDamage x) (estimateDamage y) = true)
  /\ (forall x, le 0 (estimateDamage x) = true
             /\ le (estimateDamage x) 100 = true)
  /\ estimateDamage (Fin (-5)) = Fin 0.
Proof.
  split; [|split].
  - intros x y H.
    destruct (estimateDamage_range y) as (q & Ey & Hq).
    destruct x as [| | r |]; try discriminate.
    + rewrite estimateDamage_below_0 by now left.
      rewrite Ey. apply le_Fin; lra.
    + destruct (Rlt_dec r 0).
      * rewrite estimateDamage_below_0 by (left; now apply lt_Fin).
        rewrite Ey. apply le_Fin; lra.
      * rewrite estimateDamage_finite by lra.
        destruct y as [| | s |]; try discriminate.
        -- apply le_Fin in H. rewrite estimateDamage_finite by lra.
           now apply le_Fin, damage_R_le.
        -- rewrite estimateDamage_PosInf.
           pose proof (damage_R_bounds r). apply le_Fin; lra.
    + destruct y; try discriminate.
      rewrite estimateDamage_PosInf. apply le_Fin; lra.
  - intros x. destruct (estimateDamage_range x) as (p & -> & Hp).
    split; apply le_Fin; lra.
  - apply estimateDamage_below_0. left. apply lt_Fin; lra.
Qed.

Lemma estimateDamage_monotone_bounded_witness :
  le (Fin 5) (Fin 7.2) = true
  /\ le (estimateDamage (Fin 5)) (estimateDamage (Fin 7.2)) = true.
Proof.
  assert (H : le (Fin 5) (Fin 7.2) = true) by (apply le_Fin; lra).
  split; [exact H|].
  exact (proj1 estimateDamage_monotone_bounded (Fin 5) (Fin 7.2) H).
Defined.

Lemma exp_INR_mult (n : nat) x : exp (INR n * x) = exp x ^ n.
Proof.
  induction n as [|n IH].
  - simpl. rewrite Rmult_0_l. apply exp_0.
  - rewrite S_INR, Rmult_plus_distr_r, Rmult_1_l, exp_plus, IH.
    simpl. ring.
Qed.

(** [(1 + x)^n <= exp (n x)], from [1 + x <= exp x]. *)
Lemma exp_pow_lower x (n : nat) :
  0 <= 1 + x -> (1 + x) ^ n <= exp (INR n * x).
Proof.
  intros H. rewrite exp_INR_mult. apply pow_incr.
  split; [assumption | apply exp_ineq1_le].
Qed.

Lemma exp_pow_upper x (n : nat) :
  0 < 1 - x -> exp (INR n * x) <= / (1 - x) ^ n.
Proof.
  intros H.
  replace (INR n * x) with (- (INR n * - x)) by ring.
  rewrite exp_Ropp.
  assert (Hp : 0 < (1 - x) ^ n) by now apply pow_lt.
  apply Rinv_le_contravar; [assumption|].
  replace (1 - x) with (1 + - x) by ring.
  apply exp_pow_lower. lra.
Qed.

(** The logistic value between the values at two bounds of the exponential. *)
Lemma logistic_between e lo hi :
  0 <= lo -> lo <= e <= hi ->
  100 / (1 + hi) <= 100 / (1 + e) <= 100 / (1 + lo).
Proof.
  intros H0 [H1 H2]. unfold Rdiv.
  split; apply Rmult_le_compat_l; try lra; apply Rinv_le_contravar; lra.
Qed.

Lemma damage_R_at_7_2 : 85 < damage_R 7.2 < 87.
Proof.
  unfold damage_R.
  replace (- (1.5 * (7.2 - 6))) with (INR 36 * (- 0.05)) by (simpl; lra).
  pose proof (exp_pow_lower (- 0.05) 36) as Hlo.
  pose proof (exp_pow_upper (- 0.05) 36) as Hhi.
  set (e := exp _) in *.
  assert (H : 0.15 <= e <= 0.175).
  { split.
    - eapply Rle_trans; [|apply Hlo; lra]. simpl; lra.
    - eapply Rle_trans; [apply Hhi; lra|].
      apply Rmult_le_reg_r with ((1 - - 0.05) ^ 36); [apply pow_lt; lra|].
      rewrite Rinv_l by (apply pow_nonzero; lra). simpl; lra. }
  pose proof (logistic_between e 0.15 0.175 ltac:(lra) H) as [H1 H2].
  split.
  - eapply Rlt_le_trans; [|exact H1]. apply Rmult_lt_reg_r with (1 + 0.175); [lra|].
    unfold Rdiv. rewrite Rmult_assoc, Rinv_l by lra. lra.
  - eapply Rle_lt_trans; [exact H2|]. apply Rmult_lt_reg_r with (1 + 0.15); [lra|].
    unfold Rdiv. rewrite Rmult_assoc, Rinv_l by lra. lra.
Qed.

Lemma damage_R_at_5 : 15 < damage_R 5 < 21.
Proof.
  unfold damage_R.
  replace (- (1.5 * (5 - 6))) with (INR 6 * 0.25) by (simpl; lra).
  pose proof (exp_pow_lower 0.25 6) as Hlo.
  pose proof (exp_pow_upper 0.25 6) as Hhi.
  set (e := exp _) in *.
  assert (H : 3.8 <= e <= 5.62).
  { split.
    - eapply Rle_trans; [|apply Hlo; lra]. simpl; lra.
    - eapply Rle_trans; [apply Hhi; lra|].
      apply Rmult_le_reg_r with ((1 - 0.25) ^ 6); [apply pow_lt; lra|].
      rewrite Rinv_l by (apply pow_nonzero; lra). simpl; lra. }
  pose proof (logistic_between e 3.8 5.62 ltac:(lra) H) as [H1 H2].
  split.
  - eapply Rlt_le_trans; [|exact H1]. apply Rmult_lt_reg_r with (1 + 5.62); [lra|].
    unfold Rdiv. rewrite Rmult_assoc, Rinv_l by lra. lra.
  - eapply Rle_lt_trans; [exact H2|]. apply Rmult_lt_reg_r with (1 + 3.8); [lra|].
    unfold Rdiv. rewrite Rmult_assoc, Rinv_l by lra. lra.
Qed.

(** C2, as the code behaves.  With k = 1.5 and threshold = 6.0 the logistic
    curve gives [estimateDamage 7.2] between 85 and 87, which is not within 3
    of the documented 76; [estimateDamage 5.0] lies between 15 and 21, that
    is within 3 of 18. *)
Theorem damage_scenarios :
  k DAMAGE_PARAMETERS = Fin 1.5 /\ threshold DAMAGE_PARAMETERS = Fin 6.0
  /\ exists d72 d50,
      estimateDamage (Fin 7.2) = Fin d72
      /\ estimateDamage (Fin 5.0) = Fin d50
      /\ 85 < d72 < 87
      /\ ~ Rabs (d72 - 76) <= 3
      /\ Rabs (d50 - 18) <= 3.
Proof.
  split; [reflexivity|]. split; [reflexivity|].
  exists (damage_R 7.2), (damage_R 5.0).
  pose proof damage_R_at_7_2 as H72.
  assert (H50 : 15 < damage_R 5.0 < 21).
  { replace 5.0 with 5 by lra. apply damage_R_at_5. }
  split; [apply estimateDamage_finite; lra|].
  split; [apply estimateDamage_finite; lra|].
  split; [assumption|]. split.
  - unfold Rabs. destruct (Rcase_abs _); lra.
  - unfold Rabs. destruct (Rcase_abs _); lra.
Qed.

End DamageCurve.

(* ------------------------------------------------------------------ *)
(** ** The bisection of [estimateFeltRadius] *)

Section FeltRadius.

Import Attenuation.

Variables magnitude depth targetIntensity : num.
Hypothesis magnitude_ok : valid_magnitude magnitude.
Hypothesis depth_ok : valid_depth depth.

Lemma bracket_init : bracket search_init 0 5000.
Proof. unfold bracket; simpl. repeat split; lra. Qed.

Lemma pow2_pos n : 0 < 2 ^ n.
Proof. apply pow_lt; lra. Qed.

Lemma bracket_width_pos s lo hi : bracket s lo hi -> lo < hi.
Proof.
  intros (_ & _ & _ & Hw). pose proof (pow2_pos (iterations s)).
  assert (0 < 5000 / 2 ^ iterations s) by (apply Rdiv_lt_0_compat; lra).
  lra.
Qed.

(** The body never throws on a bracket, and halves it. *)
Lemma search_body_bracket s lo hi :
  bracket s lo hi ->
  exists s' lo' hi',
    search_body magnitude depth targetIntensity s = Return s'
    /\ bracket s' lo' hi'
    /\ iterations s' = S (iterations s).
Proof.
  intros Hb. pose proof (bracket_width_pos _ _ _ Hb) as Hlt.
  destruct Hb as (Emin & Emax & Hlo & Hw).
  unfold search_body. rewrite Emin, Emax. cbn [add]. unfold div.
  destruct (Req_dec_T 2 0) as [E | _]; [lra|].
  assert (Hmid : valid_distance (Fin ((lo + hi) / 2))).
  { apply le_Fin. lra. }
  destruct (calculateIntensity_valid _ _ _ magnitude_ok depth_ok Hmid)
    as (M & D & _ & _ & _ & _ & [(X & _ & _ & E) | (Habs & _)]);
    [|discriminate].
  rewrite E. cbn [bind].
  assert (Hhalf : 5000 / 2 ^ S (iterations s) = (hi - lo) / 2).
  { rewrite Hw. simpl. field. apply Rgt_not_eq, pow2_pos. }
  destruct (gt _ targetIntensity).
  - exists {| minDist := Fin ((lo + hi) / 2); maxDist := Fin hi;
              iterations := S (iterations s) |}, ((lo + hi) / 2), hi.
    split; [reflexivity|]. split; [|reflexivity].
    unfold bracket. cbn [minDist maxDist iterations].
    repeat split; lra.
  - exists {| minDist := Fin lo; maxDist := Fin ((lo + hi) / 2);
              iterations := S (iterations s) |}, lo, ((lo + hi) / 2).
    split; [reflexivity|]. split; [|reflexivity].
    unfold bracket. cbn [minDist maxDist iterations].
    repeat split; lra.
Qed.

(** Before the thirteenth iteration the bracket is wider than 1 km. *)
Lemma search_cond_before_13 s lo hi :
  bracket s lo hi -> (iterations s < 13)%nat -> search_cond s = true.
Proof.
  intros (Emin & Emax & _ & Hw) Hn. unfold search_cond, tolerance, gt.
  rewrite Emin, Emax. cbn [sub].
  apply andb_true_iff; split.
  - apply lt_Fin. rewrite Hw.
    assert (H : 2 ^ iterations s <= 2 ^ 12) by (apply Rle_pow; [lra | lia]).
    pose proof (pow2_pos (iterations s)) as Hp.
    apply Rmult_lt_reg_r with (2 ^ iterations s); [assumption|].
    unfold Rdiv. rewrite Rmult_assoc, Rinv_l by lra. simpl in H. lra.
  - apply Nat.ltb_lt. unfold maxIterations. lia.
Qed.

(** After the thirteenth it is within 1 km. *)
Lemma search_cond_at_13 s lo hi :
  bracket s lo hi -> iterations s = 13%nat ->
  search_cond s = false
  /\ le (sub (maxDist s) (minDist s)) tolerance = true.
Proof.
  intros (Emin & Emax & _ & Hw) Hn. unfold search_cond, tolerance, gt.
  rewrite Emin, Emax. cbn [sub]. rewrite Hn in Hw.
  assert (H : hi - lo <= 1) by (rewrite Hw; simpl; lra).
  split.
  - apply andb_false_iff; left. now apply lt_Fin_false.
  - now apply le_Fin.
Qed.

Lemma search_loop_runs (n : nat) :
  forall s lo hi,
    bracket s lo hi -> (iterations s + n = 13)%nat ->
    exists s' lo' hi',
      bracket s' lo' hi'
      /\ iterations s' = 13%nat
      /\ iterates magnitude depth targetIntensity n s s'
      /\ forall fuel, (n < fuel)%nat ->
           search_loop fuel magnitude depth targetIntensity s
           = Some (Return s').
Proof.
  induction n as [|n IH]; intros s lo hi Hb Hn.
  - exists s, lo, hi. split; [assumption|]. split; [lia|].
    split; [constructor|].
    intros [|fuel] Hf; [lia|]. simpl.
    destruct (search_cond_at_13 s lo hi Hb) as [-> _]; [lia | reflexivity].
  - destruct (search_body_bracket s lo hi Hb) as (s1 & lo1 & hi1 & E & Hb1 & Hn1).
    destruct (IH s1 lo1 hi1 Hb1) as (s' & lo' & hi' & Hb' & Hn' & Hit & Hrun);
      [lia|].
    assert (Hc : search_cond s = true)
      by (apply (search_cond_before_13 s lo hi Hb); lia).
    exists s', lo', hi'. split; [assumption|]. split; [assumption|].
    split; [econstructor; eauto|].
    intros [|fuel] Hf; [lia|]. simpl. rewrite Hc, E.
    apply Hrun. lia.
Qed.

End FeltRadius.

Section FeltRadiusResult.

Import Attenuation.

(** C9. On a valid magnitude and depth, and for every target intensity,
    [estimateFeltRadius] terminates: starting from the bracket [0, 5000] the
    loop body runs [iterations s] times, at most 50 (in fact 13), each time
    with the loop condition true; it stops with the condition false, the
    bracket then being within the 1 km tolerance, and the function returns
    the midpoint of that final bracket without throwing. *)
Theorem estimateFeltRadius_terminates
  (magnitude depth : num) (targetIntensity : option num) :
  valid_magnitude magnitude -> valid_depth depth ->
  exists s,
    iterates magnitude depth (default_target targetIntensity)
      (iterations s) search_init s
    /\ (iterations s <= maxIterations)%nat
    /\ iterations s = 13%nat
    /\ search_cond s = false
    /\ le (sub (maxDist s) (minDist s)) tolerance = true
    /\ forall fuel, (iterations s < fuel)%nat ->
         estimateFeltRadius fuel magnitude depth targetIntensity
         = Some (Return (div (add (minDist s) (maxDist s)) 2)).
Proof.
  intros Hm Hd.
  destruct (search_loop_runs magnitude depth (default_target targetIntensity)
              Hm Hd 13 search_init 0 5000 bracket_init eq_refl)
    as (s & lo & hi & Hb & Hn & Hit & Hrun).
  destruct (search_cond_at_13 s lo hi Hb Hn) as [Hc Hw].
  exists s. rewrite Hn. repeat split; auto.
  - unfold maxIterations; lia.
  - intros fuel Hf. unfold estimateFeltRadius. cbn zeta. now rewrite Hrun.
Qed.

End FeltRadiusResult.

Lemma estimateFeltRadius_terminates_witness :
  valid_magnitude (Fin 8.8) /\ valid_depth (Fin 35)
  /\ exists r,
       Attenuation.estimateFeltRadius 51 (Fin 8.8) (Fin 35) None
       = Some (Return r).
Proof.
  assert (Hm : valid_magnitude (Fin 8.8)) by (split; apply le_Fin; lra).
  assert (Hd : valid_depth (Fin 35)) by (split; apply le_Fin; lra).
  split; [exact Hm|]. split; [exact Hd|].
  destruct (estimateFeltRadius_terminates (Fin 8.8) (Fin 35) None Hm Hd)
    as (s & _ & _ & Hn & _ & _ & Hrun).
  eexists. apply Hrun. rewrite Hn. repeat constructor.
Defined.

(* ------------------------------------------------------------------ *)
(** ** Rounding *)

Section Rounding.

Lemma Math_round_Fin x : Math_round (Fin x) = Fin (round_R x).
Proof. reflexivity. Qed.

Lemma round_R_le x y : x <= y -> round_R x <= round_R y.
Proof. intros H. apply IZR_le, Zfloor_le. lra. Qed.

Lemma round_R_IZR z : round_R (IZR z) = IZR z.
Proof. unfold round_R. f_equal. apply Zfloor_eq. lra. Qed.

Lemma round_R_0 : round_R 0 = 0.
Proof. apply (round_R_IZR 0). Qed.

Lemma round_R_nonneg x : 0 <= x -> 0 <= round_R x.
Proof. intros H. rewrite <- round_R_0. now apply round_R_le. Qed.

(** Rounding a part of a whole number does not exceed it. *)
Lemma round_R_part z x : x <= IZR z -> round_R x <= IZR z.
Proof. intros H. rewrite <- (round_R_IZR z). now apply round_R_le. Qed.

End Rounding.

(* ------------------------------------------------------------------ *)
(** ** Affected and displaced population *)

Section Population.

Import Damage.

Lemma estimateAffectedPopulation_negative t d :
  lt t 0 = true \/ lt d 0 = true ->
  estimateAffectedPopulation t d = NO_IMPACT.
Proof.
  intros H. unfold estimateAffectedPopulation.
  replace (lt t 0 || lt d 0) with true; [reflexivity|].
  destruct H as [-> | ->]; auto using orb_true_r.
Qed.

Lemma estimateAffectedPopulation_finite T P :
  0 <= T -> 0 <= P ->
  estimateAffectedPopulation (Fin T) (Fin P) =
    let affectedPercent := Rmin (P * 1.2) 100 in
    let affected := round_R (T * affectedPercent / 100) in
    {| total := Fin T;
       affected := Fin affected;
       displaced := Fin (round_R (affected * Rmax 0 ((P - 40) / 60)));
       percentAffected := Fin (round_R (affectedPercent * 10) / 10) |}.
Proof.
  intros HT HP. unfold estimateAffectedPopulation.
  replace (lt (Fin T) 0 || lt (Fin P) 0) with false
    by (js_cmp; reflexivity).
  cbn [mul sub]. rewrite Math_min_Fin. cbn [mul]. unfold div.
  destruct (Req_dec_T 100 0); [lra|]. destruct (Req_dec_T 60 0); [lra|].
  destruct (Req_dec_T 10 0); [lra|].
  rewrite !Math_round_Fin, Math_max_Fin. cbn [mul].
  rewrite Math_round_Fin. reflexivity.
Qed.

Lemma affected_bounds T P :
  0 <= T -> 0 <= P ->
  0 <= T * Rmin (P * 1.2) 100 / 100 <= T.
Proof.
  intros HT HP.
  assert (H : 0 <= Rmin (P * 1.2) 100 <= 100).
  { unfold Rmin. destruct (Rle_dec _ _); lra. }
  split; nra.
Qed.

Lemma displaced_le_affected T P :
  0 <= T -> 0 <= P <= 100 ->
  let affected := round_R (T * Rmin (P * 1.2) 100 / 100) in
  round_R (affected * Rmax 0 ((P - 40) / 60)) <= affected.
Proof.
  intros HT HP affected. subst affected. unfold round_R at 2 3.
  set (z := Zfloor _).
  assert (Hz : 0 <= IZR z).
  { apply (round_R_nonneg (T * Rmin (P * 1.2) 100 / 100)).
    apply affected_bounds; lra. }
  apply round_R_part.
  assert (Hf : 0 <= Rmax 0 ((P - 40) / 60) <= 1).
  { unfold Rmax. destruct (Rle_dec _ _); lra. }
  nra.
Qed.

(** C7, as the code behaves.  For a damage percentage of at most 100 and a
    total population whose hundredfold is at most [MAX_SAFE_INTEGER] (a
    population up to 9 * 10^13, so that the product with the percentage
    neither rounds above a whole number nor overflows), displaced is at most
    affected, and affected is at most total when the total population is a
    whole number; displaced is 0 whenever the damage percentage is at most
    40; and when the total population or the damage percentage is negative
    every field of the result is 0. *)
Theorem estimateAffectedPopulation_ordered :
  (forall (T : R) d,
      le d 100 = true -> T * 100 <= MAX_SAFE_INTEGER ->
      let r := estimateAffectedPopulation (Fin T) d in
      le (displaced r) (affected r) = true
      /\ ((exists z, T = IZR z) -> le (affected r) (total r) = true)
      /\ (le d 40 = true -> displaced r = Fin 0))
  /\ (forall t d,
        lt t 0 = true \/ lt d 0 = true ->
        estimateAffectedPopulation t d = NO_IMPACT).
Proof.
  split; [|apply estimateAffectedPopulation_negative].
  intros T d Hd _ r.
  assert (Hzero : estimateAffectedPopulation (Fin T) d = NO_IMPACT ->
                  le (displaced r) (affected r) = true
                  /\ ((exists z, T = IZR z) -> le (affected r) (total r) = true)
                  /\ (le d 40 = true -> displaced r = Fin 0)).
  { intros E. subst r. rewrite E. simpl.
    repeat split; intros; auto; apply le_Fin; lra. }
  destruct (Rlt_dec T 0) as [HT | HT].
  { apply Hzero, estimateAffectedPopulation_negative.
    left. now apply lt_Fin. }
  destruct d as [| | P |]; try discriminate.
  { apply Hzero, estimateAffectedPopulation_negative. now right. }
  destruct (Rlt_dec P 0) as [HP | HP].
  { apply Hzero, estimateAffectedPopulation_negative.
    right. now apply lt_Fin. }
  apply le_Fin in Hd. clear Hzero. subst r.
  rewrite estimateAffectedPopulation_finite by lra.
  cbn [total affected displaced]. split; [|split].
  - apply le_Fin, displaced_le_affected; lra.
  - intros [z ->]. apply le_Fin, round_R_part, affected_bounds; lra.
  - intros H40. apply le_Fin in H40. f_equal.
    rewrite Rmax_left by lra. rewrite Rmult_0_r. apply round_R_0.
Qed.

Lemma estimateAffectedPopulation_ordered_witness :
  le (Fin 50) 100 = true /\ 1000 * 100 <= MAX_SAFE_INTEGER
  /\ le (displaced (estimateAffectedPopulation (Fin 1000) (Fin 50)))
        (affected (estimateAffectedPopulation (Fin 1000) (Fin 50))) = true.
Proof.
  assert (H : le (Fin 50) 100 = true) by (apply le_Fin; lra).
  assert (HT : 1000 * 100 <= MAX_SAFE_INTEGER)
    by (unfold MAX_SAFE_INTEGER; lra).
  split; [exact H|]. split; [exact HT|].
  exact (proj1 (proj1 estimateAffectedPopulation_ordered 1000 (Fin 50) H HT)).
Defined.

(** The claim as stated for every input fails: above 100 percent damage
    displaced exceeds affected; for a fractional population affected exceeds
    total; for an infinite population and no damage displaced is NaN. *)
Lemma estimateAffectedPopulation_unordered :
  (let r := estimateAffectedPopulation (Fin 1000) (Fin 160) in
   affected r = Fin 1000 /\ displaced r = Fin 2000
   /\ le (displaced r) (affected r) = false)
  /\ (let r := estimateAffectedPopulation (Fin 0.5) (Fin 100) in
      total r = Fin 0.5 /\ affected r = Fin 1
      /\ le (affected r) (total r) = false)
  /\ (let r := estimateAffectedPopulation PosInf (Fin 0) in
      le (Fin 0) 40 = true /\ displaced r <> Fin 0).
Proof.
  assert (Hmin160 : Rmin (160 * 1.2) 100 = 100) by (apply Rmin_right; lra).
  assert (Hmin100 : Rmin (100 * 1.2) 100 = 100) by (apply Rmin_right; lra).
  split; [|split].
  - rewrite estimateAffectedPopulation_finite by lra.
    cbn zeta. cbn [total affected displaced]. rewrite Hmin160.
    replace (1000 * 100 / 100) with (IZR 1000) by lra.
    rewrite round_R_IZR, Rmax_right by lra.
    replace (1000 * ((160 - 40) / 60)) with (IZR 2000) by lra.
    rewrite round_R_IZR.
    repeat split. apply le_Fin_false. lra.
  - rewrite estimateAffectedPopulation_finite by lra.
    cbn zeta. cbn [total affected displaced]. rewrite Hmin100.
    assert (E : round_R (0.5 * 100 / 100) = 1).
    { unfold round_R. rewrite (Zfloor_eq 1); [reflexivity | lra]. }
    rewrite E. repeat split. apply le_Fin_false. lra.
  - cbn zeta. split; [apply le_Fin; lra|].
    unfold estimateAffectedPopulation.
    cbn [lt orb mul]. rewrite Math_min_Fin. cbn [mul]. unfold signed_inf.
    rewrite Rmin_left by lra.
    destruct (Rlt_dec 0 (0 * 1.2)); [lra|].
    destruct (Rlt_dec (0 * 1.2) 0); [lra|].
    replace (Rltb 0 0) with false by (symmetry; apply Rltb_false; lra).
    cbn [displaced div Math_round mul]. discriminate.
Qed.

End Population.

(* ------------------------------------------------------------------ *)
(** ** Casualty risk *)

Section Casualties.

Import Damage.

Lemma estimateCasualtyRisk_below_60 t d :
  lt d 60 = true ->
  low (estimateCasualtyRisk t d) = Fin 0
  /\ medium (estimateCasualtyRisk t d) = Fin 0
  /\ high (estimateCasualtyRisk t d) = Fin 0.
Proof.
  intros H. unfold estimateCasualtyRisk. rewrite H. repeat split.
Qed.

Lemma estimateCasualtyRisk_finite T P :
  60 <= P ->
  let fatalityRate := (P - 60) / 40 * ((P - 60) / 40) * 0.01 in
  let estimated := round_R (T * fatalityRate) in
  low (estimateCasualtyRisk (Fin T) (Fin P)) = Fin (round_R (estimated * 0.5))
  /\ medium (estimateCasualtyRisk (Fin T) (Fin P)) = Fin estimated
  /\ high (estimateCasualtyRisk (Fin T) (Fin P)) = Fin (round_R (estimated * 2)).
Proof.
  intros HP. cbn zeta. unfold estimateCasualtyRisk.
  replace (lt (Fin P) 60) with false by (symmetry; now apply lt_Fin_false).
  cbn [sub]. unfold div. destruct (Req_dec_T 40 0); [lra|].
  cbn [Math_pow mul Math_round low medium high]. repeat split.
Qed.

(** Half of a non-negative whole number rounds to at most that number. *)
Lemma round_R_half z : 0 <= IZR z -> round_R (IZR z * 0.5) <= IZR z.
Proof.
  intros H. apply le_IZR in H.
  destruct (Z.eq_dec z 0) as [-> | Hz].
  - rewrite Rmult_0_l, round_R_0. lra.
  - assert (H1 : 1 <= IZR z) by (apply IZR_le; lia).
    unfold round_R.
    pose proof (Zfloor_bound (IZR z * 0.5 + / 2)) as [Hb _]. lra.
Qed.

Lemma round_R_double z : round_R (IZR z * 2) = IZR (z * 2).
Proof. rewrite <- (round_R_IZR (z * 2)). f_equal. now rewrite mult_IZR. Qed.

(** C8, as the code behaves.  Whenever the damage percentage is below 60
    the low, medium and high estimates are all 0, for every total population;
    for a finite non-negative total population and a damage percentage of
    at most 100 (the documented range, on which the squared rate cannot
    overflow) the estimates satisfy low <= medium <= high. *)
Theorem estimateCasualtyRisk_ordered :
  (forall t d,
      lt d 60 = true ->
      low (estimateCasualtyRisk t d) = Fin 0
      /\ medium (estimateCasualtyRisk t d) = Fin 0
      /\ high (estimateCasualtyRisk t d) = Fin 0)
  /\ (forall (T : R) d,
        0 <= T -> le d 100 = true ->
        let r := estimateCasualtyRisk (Fin T) d in
        le (low r) (medium r) = true /\ le (medium r) (high r) = true).
Proof.
  split; [apply estimateCasualtyRisk_below_60|].
  intros T d HT Hd r. subst r.
  destruct d as [| | P |]; try discriminate Hd.
  { destruct (estimateCasualtyRisk_below_60 (Fin T) NegInf)
      as (-> & -> & ->); [reflexivity|].
    split; apply le_Fin; lra. }
  clear Hd.
  destruct (Rlt_dec P 60) as [HP | HP].
  - destruct (estimateCasualtyRisk_below_60 (Fin T) (Fin P))
      as (-> & -> & ->); [now apply lt_Fin|].
    split; apply le_Fin; lra.
  - destruct (estimateCasualtyRisk_finite T P) as (-> & -> & ->); [lra|].
    set (rate := (P - 60) / 40 * ((P - 60) / 40) * 0.01).
    assert (Hrate : 0 <= rate) by (unfold rate; nra).
    assert (He : 0 <= round_R (T * rate)) by (apply round_R_nonneg; nra).
    assert (Hz : exists e, round_R (T * rate) = IZR e)
      by (eexists; reflexivity).
    destruct Hz as [e Ee]. rewrite Ee in *.
    split; apply le_Fin.
    + now apply round_R_half.
    + rewrite round_R_double, mult_IZR. lra.
Qed.

Lemma estimateCasualtyRisk_ordered_witness :
  lt (Fin 30) 60 = true
  /\ medium (estimateCasualtyRisk (Fin 1000) (Fin 30)) = Fin 0
  /\ 0 <= 1000 /\ le (Fin 80) 100 = true
  /\ le (low (estimateCasualtyRisk (Fin 1000) (Fin 80)))
        (medium (estimateCasualtyRisk (Fin 1000) (Fin 80))) = true.
Proof.
  assert (H : lt (Fin 30) 60 = true) by (apply lt_Fin; lra).
  assert (H0 : 0 <= 1000) by lra.
  assert (H80 : le (Fin 80) 100 = true) by (apply le_Fin; lra).
  split; [exact H|]. split; [|split; [exact H0 | split; [exact H80|]]].
  - exact (proj1 (proj2
             (proj1 estimateCasualtyRisk_ordered (Fin 1000) (Fin 30) H))).
  - exact (proj1 (proj2 estimateCasualtyRisk_ordered 1000 (Fin 80) H0 H80)).
Defined.

(** The ordering fails for a negative population, and for a damage
    percentage that is NaN. *)
Lemma estimateCasualtyRisk_unordered :
  (let r := estimateCasualtyRisk (Fin (-1000)) (Fin 100) in
   low r = Fin (-5) /\ medium r = Fin (-10) /\ high r = Fin (-20)
   /\ le (low r) (medium r) = false)
  /\ (let r := estimateCasualtyRisk (Fin 1000) NaN in
      medium r = NaN /\ le (low r) (medium r) = false).
Proof.
  split.
  - cbn zeta.
    destruct (estimateCasualtyRisk_finite (-1000) 100) as (-> & -> & ->);
      [lra|].
    replace (-1000 * ((100 - 60) / 40 * ((100 - 60) / 40) * 0.01))
      with (IZR (-10)) by lra.
    rewrite round_R_IZR.
    replace (IZR (-10) * 2) with (IZR (-20)) by lra.
    rewrite round_R_IZR.
    assert (E : round_R (IZR (-10) * 0.5) = IZR (-5)).
    { unfold round_R. rewrite (Zfloor_eq (-5)); [reflexivity | lra]. }
    rewrite E. repeat split. apply le_Fin_false. lra.
  - cbn. split; reflexivity.
Qed.

End Casualties.

(* ------------------------------------------------------------------ *)
(** ** The range of double precision *)

Section DoubleRange.

Lemma pow_2_le (m n : nat) : (m <= n)%nat -> 2 ^ m <= 2 ^ n.
Proof. intros H. apply Rle_pow; [lra | assumption]. Qed.

Lemma pow_2_10 : 2 ^ 10 = 1024.
Proof. simpl. lra. Qed.

Lemma MAX_VALUE_lower : 1024 * 1024 * 1024 <= MAX_VALUE.
Proof.
  unfold MAX_VALUE.
  assert (H52 : 0 < / 2 ^ 52 <= 1).
  { split; [apply Rinv_0_lt_compat, pow_lt; lra|].
    rewrite <- Rinv_1. apply Rinv_le_contravar; [lra|].
    apply pow_R1_Rle. lra. }
  assert (H : 2 ^ 30 <= 2 ^ 1023) by (apply pow_2_le; lia).
  replace (2 ^ 30) with (2 ^ 10 * 2 ^ 10 * 2 ^ 10) in H
    by (rewrite <- !pow_add; reflexivity).
  rewrite pow_2_10 in H. nra.
Qed.

Lemma MIN_VALUE_small : 0 < MIN_VALUE <= / 1024.
Proof.
  unfold MIN_VALUE. split; [apply Rinv_0_lt_compat, pow_lt; lra|].
  apply Rinv_le_contravar; [lra|].
  rewrite <- pow_2_10. apply pow_2_le. lia.
Qed.

(** Between a thousandth and a thousand, a number can be squared. *)
Lemma square_in_range_moderate x :
  / 1024 <= x <= 1024 -> square_in_range x.
Proof.
  intros Hx. assert (H1024 : 0 < / 1024) by (apply Rinv_0_lt_compat; lra).
  unfold square_in_range. rewrite Rabs_pos_eq by lra.
  assert (Hp : 1024 <= 2 ^ 511) by (rewrite <- pow_2_10; apply pow_2_le; lia).
  split; [|lra].
  apply Rle_trans with (/ 1024); [|lra].
  apply Rinv_le_contravar; lra.
Qed.

End DoubleRange.

(* ------------------------------------------------------------------ *)
(** ** The other entry points of the attenuation model *)

Section AttenuationEntryPoints.

Import Attenuation.

Lemma Math_sqrt_not_negative z : lt (Math_sqrt z) 0 = false.
Proof.
  destruct z as [| | r |]; simpl; auto.
  destruct (Rlt_dec r 0); simpl; auto.
  apply Rltb_false, sqrt_pos.
Qed.

(** X1. Whenever [calculateIntensity] accepts its arguments,
    [calculateIntensityFromHypocentral], given the hypocentral distance
    sqrt(distance^2 + depth^2) of the same scenario, accepts too and returns
    the same intensity. *)
Theorem calculateIntensityFromHypocentral_agrees magnitude depth distance :
  rejected magnitude depth distance = false ->
  calculateIntensityFromHypocentral magnitude
    (hypocentralDistance depth distance)
  = calculateIntensity magnitude depth distance.
Proof.
  unfold rejected. intros H.
  apply orb_false_elim in H as [H Hx].
  apply orb_false_elim in H as [Hm Hd].
  rewrite calculateIntensity_cases, Hm, Hd, Hx.
  unfold calculateIntensityFromHypocentral, hypocentralDistance.
  fold (bad_magnitude magnitude). rewrite Hm.
  now rewrite Math_sqrt_not_negative.
Qed.

Lemma rejected_8_35_335 : rejected (Fin 8.8) (Fin 35) (Fin 335) = false.
Proof.
  unfold rejected, bad_magnitude, bad_depth, bad_distance, gt.
  repeat (apply orb_false_iff; split); apply lt_Fin_false; lra.
Qed.

Lemma calculateIntensityFromHypocentral_agrees_witness :
  rejected (Fin 8.8) (Fin 35) (Fin 335) = false
  /\ calculateIntensityFromHypocentral (Fin 8.8)
       (hypocentralDistance (Fin 35) (Fin 335))
     = calculateIntensity (Fin 8.8) (Fin 35) (Fin 335).
Proof.
  split; [exact rejected_8_35_335|].
  exact (calculateIntensityFromHypocentral_agrees _ _ _ rejected_8_35_335).
Defined.

(** X2. [calculateIntensityFromHypocentral] throws exactly when the
    magnitude is below 0 or above 10, or the hypocentral distance is below
    0, the magnitude being checked first; it has no depth to check, and NaN
    arguments pass both guards and give NaN. *)
Theorem calculateIntensityFromHypocentral_rejects_exactly magnitude R :
  ((exists message,
       calculateIntensityFromHypocentral magnitude R = ThrowError message)
     <-> bad_magnitude magnitude || lt R 0 = true)
  /\ (bad_magnitude magnitude = true ->
      calculateIntensityFromHypocentral magnitude R
      = ThrowError (magnitude_message magnitude))
  /\ (bad_magnitude magnitude = false -> lt R 0 = true ->
      calculateIntensityFromHypocentral magnitude R
      = ThrowError [Text "Invalid hypocentral distance: "; Interp R;
                    Text ". Must be non-negative."])
  /\ calculateIntensityFromHypocentral NaN NaN = Return NaN.
Proof.
  unfold calculateIntensityFromHypocentral. fold (bad_magnitude magnitude).
  destruct (bad_magnitude magnitude), (lt R 0); simpl;
    repeat split; intros;
    repeat match goal with H : exists _, _ |- _ => destruct H end;
    try discriminate; eauto.
Qed.

Lemma calculateIntensityFromHypocentral_rejects_exactly_witness :
  bad_magnitude (Fin 5) = false /\ lt (Fin (-3)) 0 = true
  /\ calculateIntensityFromHypocentral (Fin 5) (Fin (-3))
     = ThrowError [Text "Invalid hypocentral distance: "; Interp (Fin (-3));
                   Text ". Must be non-negative."].
Proof.
  assert (H5 : bad_magnitude (Fin 5) = false).
  { apply orb_false_iff; split; apply lt_Fin_false; lra. }
  assert (H3 : lt (Fin (-3)) 0 = true) by (apply lt_Fin; lra).
  split; [exact H5|]. split; [exact H3|].
  exact (proj1 (proj2 (proj2
    (calculateIntensityFromHypocentral_rejects_exactly (Fin 5) (Fin (-3)))))
    H5 H3).
Defined.

Lemma radius_R_at_0 D : 0 <= D -> radius_R D 0 = Rmax D 1.
Proof.
  intros H. unfold radius_R. f_equal.
  rewrite Rmult_0_l, Rplus_0_l. now apply sqrt_square.
Qed.

Lemma getEpicentralIntensity_finite M D :
  0 <= D -> getEpicentralIntensity (Fin M) (Fin D) = Fin (intensity_R M D 0).
Proof.
  intros HD. unfold getEpicentralIntensity, intensity_R.
  rewrite radius_R_at_0 by assumption.
  rewrite Math_max_Fin.
  assert (H1 : 1 <= Rmax D 1) by apply Rmax_r.
  unfold formula. cbn [ATTENUATION_CONSTANTS mul add].
  rewrite Math_log10_Fin by lra. cbn [mul sub].
  now rewrite Math_max_Fin.
Qed.

(** X3. On a valid magnitude and depth [getEpicentralIntensity] is the
    intensity [calculateIntensity] returns at distance 0, and no valid
    distance gives a higher intensity. *)
Theorem getEpicentralIntensity_is_maximum magnitude depth :
  valid_magnitude magnitude -> valid_depth depth ->
  calculateIntensity magnitude depth (Fin 0)
  = Return (getEpicentralIntensity magnitude depth)
  /\ forall distance,
       valid_distance distance ->
       exists i,
         calculateIntensity magnitude depth distance = Return i
         /\ le i (getEpicentralIntensity magnitude depth) = true.
Proof.
  intros [Hm0 Hm1] [Hd0 Hd1].
  destruct (between_inv _ _ _ Hm0 Hm1) as (M & -> & HM).
  destruct (between_inv _ _ _ Hd0 Hd1) as (D & -> & HD).
  rewrite getEpicentralIntensity_finite by lra. split.
  - apply calculateIntensity_finite; lra.
  - intros x Hx. destruct (le_0_inv _ Hx) as [(X & -> & HX) | ->].
    + rewrite calculateIntensity_finite by lra.
      eexists; split; [reflexivity|].
      apply le_Fin, intensity_R_distance; lra.
    + rewrite calculateIntensity_infinite by lra.
      eexists; split; [reflexivity|].
      apply le_Fin, intensity_R_nonneg.
Qed.

Lemma getEpicentralIntensity_is_maximum_witness :
  valid_magnitude (Fin 8.8) /\ valid_depth (Fin 35)
  /\ calculateIntensity (Fin 8.8) (Fin 35) (Fin 0)
     = Return (getEpicentralIntensity (Fin 8.8) (Fin 35)).
Proof.
  assert (Hm : valid_magnitude (Fin 8.8)) by (split; apply le_Fin; lra).
  assert (Hd : valid_depth (Fin 35)) by (split; apply le_Fin; lra).
  split; [exact Hm|]. split; [exact Hd|].
  exact (proj1 (getEpicentralIntensity_is_maximum _ _ Hm Hd)).
Defined.

Lemma log10_R_nonneg x : 1 <= x -> 0 <= log10_R x.
Proof.
  intros H. unfold log10_R. apply Rmult_le_pos.
  - rewrite <- ln_1. apply ln_le; lra.
  - left. apply Rinv_0_lt_compat, ln_10_pos.
Qed.

Lemma intensity_R_upper M D X :
  intensity_R M D X <= Rmax (1.8 * M - 3.502) 0.
Proof.
  unfold intensity_R. apply Rle_max_compat_r.
  pose proof (radius_R_ge_1 D X) as H1.
  pose proof (log10_R_nonneg _ H1). lra.
Qed.

(** X4. On valid arguments [calculateIntensity] returns a finite number
    between 0 and max(1.8 M - 3.502, 0); over all valid magnitudes it never
    exceeds 14.498. *)
Theorem calculateIntensity_upper_bound (M D : R) distance :
  0 <= M <= 10 -> 0 <= D <= 700 -> valid_distance distance ->
  exists v,
    calculateIntensity (Fin M) (Fin D) distance = Return (Fin v)
    /\ 0 <= v <= Rmax (1.8 * M - 3.502) 0
    /\ v <= 14.498.
Proof.
  intros HM HD Hx.
  assert (Hmax : Rmax (1.8 * M - 3.502) 0 <= 14.498).
  { apply Rmax_lub; lra. }
  destruct (le_0_inv _ Hx) as [(X & -> & HX) | ->].
  - exists (intensity_R M D X).
    split; [apply calculateIntensity_finite; lra|].
    pose proof (intensity_R_nonneg M D X).
    pose proof (intensity_R_upper M D X). lra.
  - exists 0. split; [apply calculateIntensity_infinite; lra|].
    pose proof (Rmax_r (1.8 * M - 3.502) 0). lra.
Qed.

Lemma calculateIntensity_upper_bound_witness :
  0 <= 10 <= 10 /\ 0 <= 0 <= 700 /\ valid_distance (Fin 0)
  /\ exists v,
       calculateIntensity (Fin 10) (Fin 0) (Fin 0) = Return (Fin v)
       /\ v <= 14.498.
Proof.
  assert (HM : 0 <= 10 <= 10) by lra.
  assert (HD : 0 <= 0 <= 700) by lra.
  assert (Hx : valid_distance (Fin 0)) by (apply le_Fin; lra).
  split; [exact HM|]. split; [exact HD|]. split; [exact Hx|].
  destruct (calculateIntensity_upper_bound 10 0 (Fin 0) HM HD Hx)
    as (v & E & _ & Hv).
  exists v. split; assumption.
Defined.

End AttenuationEntryPoints.

(* ------------------------------------------------------------------ *)
(** ** The intensity decay curve *)

Section DecayCurve.

Import Attenuation.

(** The loop counter passes the test [i <= steps] up to the integer part of
    [steps]. *)
Lemma counter_le_steps (i : nat) s :
  0 <= s -> (INR i <= s <-> (i <= Z.to_nat (Zfloor s))%nat).
Proof.
  intros Hs. pose proof (Zfloor_bound s) as [Hlo Hhi].
  assert (H0 : (0 <= Zfloor s)%Z) by (apply Zfloor_lub; simpl; lra).
  rewrite INR_IZR_INZ. split; intros H.
  - apply Zfloor_lub in H. lia.
  - apply Rle_trans with (IZR (Zfloor s)); [|assumption].
    apply IZR_le. lia.
Qed.

Lemma decay_loop_runs M D h s :
  0 <= M <= 10 -> 0 <= D <= 700 -> 0 <= h -> 0 <= s ->
  forall k i curve fuel,
    (i + k = S (Z.to_nat (Zfloor s)))%nat -> (k < fuel)%nat ->
    decay_loop fuel (Fin M) (Fin D) (Fin h) (Fin s) i curve
    = Some (Return (curve ++ map (decay_point_at M D h) (seq i k))).
Proof.
  intros HM HD Hh Hs. induction k as [|k IH]; intros i curve fuel Hk Hf.
  - destruct fuel as [|fuel]; [lia|]. simpl.
    replace (Rleb (INR i) s) with false.
    + now rewrite app_nil_r.
    + symmetry. apply Rleb_false. apply Rnot_le_lt. intros H.
      apply counter_le_steps in H; [lia | assumption].
  - destruct fuel as [|fuel]; [lia|]. cbn [decay_loop].
    replace (le (Fin (INR i)) (Fin s)) with true
      by (symmetry; apply le_Fin, counter_le_steps; [assumption | lia]).
    cbn [mul]. rewrite calculateIntensity_finite;
      [| lra | lra | apply Rmult_le_pos; [apply pos_INR | assumption]].
    rewrite IH by lia. f_equal. f_equal.
    rewrite <- app_assoc. reflexivity.
Qed.

(** X5. For a valid magnitude and depth, a [maxDistance] between 0 and half
    of [MAX_VALUE] and a number of [steps] from 1 up to the largest array
    length (so that neither the step nor a distance overflows and the
    counter and the array stay exact), [getIntensityDecayCurve] returns
    without throwing floor(steps) + 1 points; the point of index [i] is at
    distance [i * (maxDistance / steps)] with the intensity
    [calculateIntensity] gives there, and the intensities never increase
    along the curve. *)
Theorem getIntensityDecayCurve_points (M D L s : R) :
  0 <= M <= 10 -> 0 <= D <= 700 ->
  0 <= L -> L * 2 <= MAX_VALUE -> 1 <= s < MAX_ARRAY_LENGTH ->
  let n := Z.to_nat (Zfloor s) in
  exists curve,
    (forall fuel, (S n < fuel)%nat ->
       getIntensityDecayCurve fuel (Fin M) (Fin D) (Some (Fin L)) (Some (Fin s))
       = Some (Return curve))
    /\ List.length curve = S n
    /\ (forall i, (i <= n)%nat ->
          exists v,
            nth_error curve i
            = Some {| dp_distance := Fin (INR i * (L / s));
                      dp_intensity := Fin v |}
            /\ calculateIntensity (Fin M) (Fin D) (Fin (INR i * (L / s)))
               = Return (Fin v))
    /\ (forall i j p q, (i <= j)%nat ->
          nth_error curve i = Some p -> nth_error curve j = Some q ->
          le (dp_intensity q) (dp_intensity p) = true).
Proof.
  intros HM HD HL _ [Hs1 _] n.
  assert (Hs : 0 < s) by lra.
  assert (Hh : 0 <= L / s) by (apply Rmult_le_pos;
    [assumption | left; now apply Rinv_0_lt_compat]).
  exists (map (decay_point_at M D (L / s)) (seq 0 (S n))).
  assert (Hnth : forall i, (i <= n)%nat ->
            nth_error (map (decay_point_at M D (L / s)) (seq 0 (S n))) i
            = Some (decay_point_at M D (L / s) i)).
  { intros i Hi. rewrite nth_error_map, nth_error_seq.
    replace (i <? S n)%nat with true by (symmetry; apply Nat.ltb_lt; lia).
    reflexivity. }
  split; [|split; [|split]].
  - intros fuel Hf. unfold getIntensityDecayCurve, div.
    destruct (Req_dec_T s 0); [lra|].
    rewrite (decay_loop_runs M D (L / s) s HM HD Hh (Rlt_le _ _ Hs)
               (S n) 0 [] fuel); [reflexivity | reflexivity | assumption].
  - now rewrite length_map, length_seq.
  - intros i Hi. exists (intensity_R M D (INR i * (L / s))).
    split; [now apply Hnth|].
    apply calculateIntensity_finite; try lra.
    apply Rmult_le_pos; [apply pos_INR | assumption].
  - intros i j p q Hij Hp Hq.
    assert (Hj : (j <= n)%nat).
    { assert (H : (j < List.length
                        (map (decay_point_at M D (L / s)) (seq 0 (S n))))%nat)
        by (apply nth_error_Some; now rewrite Hq).
      rewrite length_map, length_seq in H. lia. }
    rewrite Hnth in Hp, Hq by lia.
    injection Hp as <-. injection Hq as <-. cbn [dp_intensity decay_point_at].
    apply le_Fin, intensity_R_distance.
    + apply Rmult_le_pos; [apply pos_INR | assumption].
    + apply Rmult_le_compat_r; [assumption | now apply le_INR].
Qed.

Lemma getIntensityDecayCurve_points_witness :
  0 <= 8.8 <= 10 /\ 0 <= 35 <= 700 /\ 0 <= 1000
  /\ 1000 * 2 <= MAX_VALUE /\ 1 <= 100 < MAX_ARRAY_LENGTH
  /\ exists curve,
       getIntensityDecayCurve (102 + Z.to_nat (Zfloor 100))
         (Fin 8.8) (Fin 35) (Some (Fin 1000)) (Some (Fin 100))
       = Some (Return curve)
       /\ List.length curve = S (Z.to_nat (Zfloor 100)).
Proof.
  assert (HM : 0 <= 8.8 <= 10) by lra.
  assert (HD : 0 <= 35 <= 700) by lra.
  assert (HL : 0 <= 1000) by lra.
  assert (HL2 : 1000 * 2 <= MAX_VALUE)
    by (pose proof MAX_VALUE_lower; lra).
  assert (Hs : 1 <= 100 < MAX_ARRAY_LENGTH)
    by (unfold MAX_ARRAY_LENGTH; lra).
  repeat (split; [assumption|]).
  destruct (getIntensityDecayCurve_points 8.8 35 1000 100 HM HD HL HL2 Hs)
    as (curve & Hrun & Hlen & _).
  exists curve. split; [|exact Hlen].
  apply Hrun. lia.
Defined.

Lemma calculateIntensity_at_NaN M D :
  0 <= M <= 10 -> 0 <= D <= 700 ->
  calculateIntensity (Fin M) (Fin D) NaN = Return NaN.
Proof.
  intros HM HD. rewrite calculateIntensity_cases.
  replace (bad_magnitude (Fin M)) with false
    by (unfold bad_magnitude; js_cmp; reflexivity).
  replace (bad_depth (Fin D)) with false
    by (unfold bad_depth; js_cmp; reflexivity).
  reflexivity.
Qed.

Lemma zero_times_step_over_zero maxDistance :
  mul (Fin (INR 0)) (div maxDistance (Fin 0)) = NaN.
Proof.
  assert (H0 : signed_inf true 0 = NaN /\ signed_inf false 0 = NaN).
  { unfold signed_inf. split; case_R; reflexivity. }
  destruct H0 as [Ht Hf].
  destruct maxDistance as [| | x |]; cbn [div INR]; try reflexivity.
  - destruct (Rlt_dec 0 0); [lra|]. cbn [mul]. exact Hf.
  - destruct (Req_dec_T 0 0) as [_ | H]; [|lra].
    unfold signed_inf at 1.
    destruct (Rlt_dec 0 x); [exact Ht|].
    destruct (Rlt_dec x 0); [exact Hf | reflexivity].
  - destruct (Rlt_dec 0 0); [lra|]. cbn [mul]. exact Ht.
Qed.

(** X6. Degenerate step counts.  With [steps] negative or NaN the loop body
    never runs and the curve is empty, whatever the other arguments are (no
    argument is validated).  With [steps = 0], a valid magnitude and depth
    and any [maxDistance], the curve is the single point whose distance and
    intensity are both NaN. *)
Theorem getIntensityDecayCurve_degenerate magnitude depth maxDistance :
  (forall steps fuel,
      le (Fin 0) steps = false ->
      getIntensityDecayCurve (S fuel) magnitude depth maxDistance (Some steps)
      = Some (Return []))
  /\ (valid_magnitude magnitude -> valid_depth depth ->
      forall fuel,
        getIntensityDecayCurve (S (S fuel)) magnitude depth maxDistance
          (Some (Fin 0))
        = Some (Return [{| dp_distance := NaN; dp_intensity := NaN |}])).
Proof.
  split.
  - intros steps fuel H. unfold getIntensityDecayCurve. cbn [decay_loop INR].
    now rewrite H.
  - intros [Hm0 Hm1] [Hd0 Hd1] fuel.
    destruct (between_inv _ _ _ Hm0 Hm1) as (M & -> & HM).
    destruct (between_inv _ _ _ Hd0 Hd1) as (D & -> & HD).
    unfold getIntensityDecayCurve. cbn [decay_loop].
    rewrite zero_times_step_over_zero.
    replace (le (Fin (INR 0)) (Fin 0)) with true
      by (symmetry; apply le_Fin; simpl; lra).
    rewrite calculateIntensity_at_NaN by assumption.
    replace (le (Fin (INR 1)) (Fin 0)) with false
      by (symmetry; apply le_Fin_false; simpl; lra).
    reflexivity.
Qed.

Lemma getIntensityDecayCurve_degenerate_witness :
  le (Fin 0) (Fin (-1)) = false
  /\ getIntensityDecayCurve 1 (Fin 8.8) (Fin 35) None (Some (Fin (-1)))
     = Some (Return [])
  /\ valid_magnitude (Fin 8.8) /\ valid_depth (Fin 35)
  /\ getIntensityDecayCurve 2 (Fin 8.8) (Fin 35) None (Some (Fin 0))
     = Some (Return [{| dp_distance := NaN; dp_intensity := NaN |}]).
Proof.
  assert (H : le (Fin 0) (Fin (-1)) = false) by (apply le_Fin_false; lra).
  assert (Hm : valid_magnitude (Fin 8.8)) by (split; apply le_Fin; lra).
  assert (Hd : valid_depth (Fin 35)) by (split; apply le_Fin; lra).
  split; [exact H|]. split; [|split; [exact Hm | split; [exact Hd|]]].
  - exact (proj1 (getIntensityDecayCurve_degenerate (Fin 8.8) (Fin 35) None)
             (Fin (-1)) 0%nat H).
  - exact (proj2 (getIntensityDecayCurve_degenerate (Fin 8.8) (Fin 35) None)
             Hm Hd 0%nat).
Defined.

End DecayCurve.

(* ------------------------------------------------------------------ *)
(** ** What the felt radius brackets *)

Section FeltRadiusAccuracy.

Import Attenuation.

Variables (M D : R) (target : num).
Hypothesis M_ok : 0 <= M <= 10.
Hypothesis D_ok : 0 <= D <= 700.

Lemma straddles_init : straddles M D target search_init 0 5000.
Proof.
  split; [apply bracket_init|]. split; [lra|]. split; left; reflexivity.
Qed.

Lemma search_body_straddles s lo hi :
  straddles M D target s lo hi ->
  exists s' lo' hi',
    search_body (Fin M) (Fin D) target s = Return s'
    /\ straddles M D target s' lo' hi'.
Proof.
  intros (Hb & Hhi & Hlo_t & Hhi_t).
  pose proof (bracket_width_pos _ _ _ Hb) as Hlt.
  destruct Hb as (Emin & Emax & Hlo & Hw).
  unfold search_body. rewrite Emin, Emax. cbn [add]. unfold div.
  destruct (Req_dec_T 2 0) as [E | _]; [lra|].
  rewrite calculateIntensity_finite by lra. cbn [bind].
  assert (Hhalf : 5000 / 2 ^ S (iterations s) = (hi - lo) / 2).
  { rewrite Hw. simpl. field. apply Rgt_not_eq, pow2_pos. }
  destruct (gt (Fin (intensity_R M D ((lo + hi) / 2))) target) eqn:Hgt.
  - exists {| minDist := Fin ((lo + hi) / 2); maxDist := Fin hi;
              iterations := S (iterations s) |}, ((lo + hi) / 2), hi.
    split; [reflexivity|].
    unfold straddles, bracket. cbn [minDist maxDist iterations].
    repeat split; auto; lra.
  - exists {| minDist := Fin lo; maxDist := Fin ((lo + hi) / 2);
              iterations := S (iterations s) |}, lo, ((lo + hi) / 2).
    split; [reflexivity|].
    unfold straddles, bracket. cbn [minDist maxDist iterations].
    repeat split; auto; lra.
Qed.

Lemma iterates_straddles n s s' :
  iterates (Fin M) (Fin D) target n s s' ->
  forall lo hi, straddles M D target s lo hi ->
  exists lo' hi', straddles M D target s' lo' hi'.
Proof.
  induction 1 as [s | n s s1 s2 Hc Hbody Hit IH]; intros lo hi Hs.
  - eauto.
  - destruct (search_body_straddles s lo hi Hs) as (s1' & lo1 & hi1 & E & Hs1).
    rewrite Hbody in E. injection E as <-. eauto.
Qed.

(** An intensity above the target stays above it at every smaller distance,
    and one that is not above it stays so at every larger distance. *)
Lemma above_target_left x y :
  0 <= x -> x <= y ->
  gt (Fin (intensity_R M D y)) target = true ->
  gt (Fin (intensity_R M D x)) target = true.
Proof.
  intros Hx Hxy H. unfold gt in *.
  apply lt_le_trans with (Fin (intensity_R M D y)); [assumption|].
  now apply le_Fin, intensity_R_distance.
Qed.

Lemma not_above_target_right x y :
  0 <= x -> x <= y ->
  gt (Fin (intensity_R M D x)) target = false ->
  gt (Fin (intensity_R M D y)) target = false.
Proof.
  intros Hx Hxy H. unfold gt in *.
  destruct (lt target (Fin (intensity_R M D y))) eqn:E; [|reflexivity].
  rewrite <- H. symmetry.
  apply lt_le_trans with (Fin (intensity_R M D y)); [assumption|].
  now apply le_Fin, intensity_R_distance.
Qed.

End FeltRadiusAccuracy.

Section FeltRadiusBracket.

Import Attenuation.

(** X7. On a valid magnitude and depth [estimateFeltRadius] returns the
    midpoint of a bracket [lo, hi] inside [0, 5000] of width 5000/8192 km
    that encloses the distance where the intensity crosses the target: if
    [lo > 0], the intensity exceeds the target at every distance up to [lo];
    if [hi < 5000], it does not exceed the target at any distance from [hi]
    on. *)
Theorem estimateFeltRadius_brackets_target
  (M D : R) (targetIntensity : option num) :
  0 <= M <= 10 -> 0 <= D <= 700 ->
  exists lo hi,
    0 <= lo /\ hi <= 5000 /\ hi - lo = 5000 / 8192
    /\ (forall fuel, (13 < fuel)%nat ->
          estimateFeltRadius fuel (Fin M) (Fin D) targetIntensity
          = Some (Return (Fin ((lo + hi) / 2))))
    /\ (0 < lo -> forall x, 0 <= x <= lo ->
          exists i,
            calculateIntensity (Fin M) (Fin D) (Fin x) = Return i
            /\ gt i (default_target targetIntensity) = true)
    /\ (hi < 5000 -> forall x, hi <= x ->
          exists i,
            calculateIntensity (Fin M) (Fin D) (Fin x) = Return i
            /\ gt i (default_target targetIntensity) = false).
Proof.
  intros HM HD. set (t := default_target targetIntensity).
  assert (Hm : valid_magnitude (Fin M)) by (split; apply le_Fin; lra).
  assert (Hd : valid_depth (Fin D)) by (split; apply le_Fin; lra).
  destruct (search_loop_runs (Fin M) (Fin D) t Hm Hd 13 search_init 0 5000
              bracket_init eq_refl)
    as (s & lo0 & hi0 & _ & Hn & Hit & Hrun).
  destruct (iterates_straddles M D t HM HD 13 search_init s Hit 0 5000
              (straddles_init M D t))
    as (lo & hi & (Hb & Hhi & Hlo_t & Hhi_t)).
  pose proof (bracket_width_pos _ _ _ Hb) as Hlt.
  destruct Hb as (Emin & Emax & Hlo & Hw).
  exists lo, hi. split; [assumption|]. split; [assumption|]. split.
  { rewrite Hw, Hn. simpl. lra. }
  split; [|split].
  - intros fuel Hf. unfold estimateFeltRadius. cbn zeta. fold t.
    rewrite Hrun by assumption. rewrite Emin, Emax. cbn [add]. unfold div.
    now destruct (Req_dec_T 2 0) as [E | _]; [lra|].
  - intros Hpos x Hx. rewrite calculateIntensity_finite by lra.
    eexists; split; [reflexivity|].
    destruct Hlo_t as [-> | Hgt]; [lra|].
    apply (above_target_left M D t x lo); tauto.
  - intros Hbelow x Hx. rewrite calculateIntensity_finite by lra.
    eexists; split; [reflexivity|].
    destruct Hhi_t as [-> | Hgt]; [lra|].
    apply (not_above_target_right M D t hi x); lra || assumption.
Qed.

Lemma estimateFeltRadius_brackets_target_witness :
  0 <= 8.8 <= 10 /\ 0 <= 35 <= 700
  /\ exists r,
       estimateFeltRadius 14 (Fin 8.8) (Fin 35) (Some (Fin 3.0))
       = Some (Return (Fin r)).
Proof.
  assert (HM : 0 <= 8.8 <= 10) by lra.
  assert (HD : 0 <= 35 <= 700) by lra.
  split; [exact HM|]. split; [exact HD|].
  destruct (estimateFeltRadius_brackets_target 8.8 35 (Some (Fin 3.0)) HM HD)
    as (lo & hi & _ & _ & _ & Hrun & _).
  exists ((lo + hi) / 2). apply Hrun. repeat constructor.
Defined.

End FeltRadiusBracket.

(* ------------------------------------------------------------------ *)
(** ** The numeric MMI level *)

Section NumericLevel.

Import MMI.

Lemma getMMINumeric_special :
  getMMINumeric NaN = 1%Z /\ getMMINumeric NegInf = 1%Z
  /\ getMMINumeric PosInf = 12%Z.
Proof. repeat split. Qed.

Lemma getMMINumeric_in_band r l :
  0 <= r -> In l MMI_SCALE -> in_band (Fin r) l = true ->
  getMMINumeric (Fin r) = numericLevel l.
Proof.
  intros Hr Hl Hb. unfold getMMINumeric.
  now rewrite <- (in_band_unique (Fin r) l) by (auto; now apply le_Fin).
Qed.

(** The band [k - 0.5 <= r < k + 0.5] of an intermediate level. *)
Ltac middle_band l k :=
  rewrite (getMMINumeric_in_band _ l);
  [ replace (Zfloor (_ + / 2)) with k
      by (symmetry; apply Zfloor_eq; simpl; lra);
    reflexivity
  | lra
  | simpl; tauto
  | unfold in_band; simpl; apply andb_true_iff; split;
    [ apply Rleb_true; lra
    | apply orb_true_iff; left; apply Rltb_true; lra ] ].

Lemma getMMINumeric_rounds r :
  getMMINumeric (Fin r) = Z.min 12 (Z.max 1 (Zfloor (r + / 2))).
Proof.
  pose proof (Zfloor_bound (r + / 2)) as [Hlo Hhi].
  destruct (Rlt_dec r 0) as [Hneg | Hpos].
  { unfold getMMINumeric.
    rewrite getMMI_invalid by (left; now apply lt_Fin).
    assert (H : (Zfloor (r + / 2) < 1)%Z) by (apply lt_IZR; lra).
    cbn [band numericLevel MMI_I]. lia. }
  destruct (Rlt_dec r 1.5).
  { rewrite (getMMINumeric_in_band _ MMI_I).
    - assert (H : (Zfloor (r + / 2) < 2)%Z) by (apply lt_IZR; lra).
      cbn [numericLevel MMI_I]. lia.
    - lra.
    - simpl; tauto.
    - unfold in_band; simpl. apply andb_true_iff; split;
        [apply Rleb_true; lra | apply orb_true_iff; left; apply Rltb_true; lra]. }
  destruct (Rlt_dec r 2.5); [middle_band MMI_II 2%Z|].
  destruct (Rlt_dec r 3.5); [middle_band MMI_III 3%Z|].
  destruct (Rlt_dec r 4.5); [middle_band MMI_IV 4%Z|].
  destruct (Rlt_dec r 5.5); [middle_band MMI_V 5%Z|].
  destruct (Rlt_dec r 6.5); [middle_band MMI_VI 6%Z|].
  destruct (Rlt_dec r 7.5); [middle_band MMI_VII 7%Z|].
  destruct (Rlt_dec r 8.5); [middle_band MMI_VIII 8%Z|].
  destruct (Rlt_dec r 9.5); [middle_band MMI_IX 9%Z|].
  destruct (Rlt_dec r 10.5); [middle_band MMI_X 10%Z|].
  destruct (Rlt_dec r 11.5); [middle_band MMI_XI 11%Z|].
  rewrite (getMMINumeric_in_band _ MMI_XII).
  - assert (H : (12 <= Zfloor (r + / 2))%Z) by (apply Zfloor_lub; lra).
    cbn [numericLevel MMI_XII]. lia.
  - lra.
  - simpl; tauto.
  - unfold in_band; simpl. apply andb_true_iff; split;
      [apply Rleb_true; lra | reflexivity].
Qed.

Lemma getMMINumeric_range x : (1 <= getMMINumeric x <= 12)%Z.
Proof.
  destruct getMMINumeric_special as (Enan & Eneg & Epos).
  destruct x as [| | r |]; try lia.
  rewrite getMMINumeric_rounds. lia.
Qed.

(** Level [k] or more is reached exactly from intensity [k - 0.5] on. *)
Lemma getMMINumeric_threshold (k : Z) x :
  (2 <= k <= 12)%Z ->
  (k <=? getMMINumeric x)%Z = le (Fin (IZR k - / 2)) x.
Proof.
  intros Hk. destruct getMMINumeric_special as (Enan & Eneg & Epos).
  destruct x as [| | r |].
  - rewrite Enan. cbn [le]. apply Z.leb_gt. lia.
  - rewrite Eneg. cbn [le]. apply Z.leb_gt. lia.
  - rewrite getMMINumeric_rounds.
    pose proof (Zfloor_bound (r + / 2)) as [Hlo Hhi].
    destruct (Rle_dec (IZR k - / 2) r) as [H | H].
    + replace (le (Fin (IZR k - / 2)) (Fin r)) with true
        by (symmetry; now apply le_Fin).
      apply Z.leb_le.
      assert (k <= Zfloor (r + / 2))%Z by (apply Zfloor_lub; lra). lia.
    + replace (le (Fin (IZR k - / 2)) (Fin r)) with false
        by (symmetry; apply le_Fin_false; lra).
      apply Z.leb_gt.
      assert (Zfloor (r + / 2) < k)%Z by (apply lt_IZR; lra). lia.
  - rewrite Epos. cbn [le]. apply Z.leb_le. lia.
Qed.

Lemma getMMINumeric_le x y :
  le x y = true -> (getMMINumeric x <= getMMINumeric y)%Z.
Proof.
  intros H.
  pose proof (getMMINumeric_range x) as Hx.
  pose proof (getMMINumeric_range y) as Hy.
  destruct (Z.le_gt_cases (getMMINumeric x) 1) as [H1 | H1]; [lia|].
  apply Z.leb_le.
  rewrite getMMINumeric_threshold by lia.
  apply le_trans with x; [|assumption].
  rewrite <- getMMINumeric_threshold by lia. apply Z.leb_le. lia.
Qed.

(** X8. The numeric MMI level of a finite intensity is the intensity
    rounded to the nearest integer (halves upwards) and clamped to 1..12;
    for every number it lies between 1 and 12, and it never decreases when
    the intensity grows. *)
Theorem getMMINumeric_rounds_and_clamps :
  (forall r,
      getMMINumeric (Fin r) = Z.min 12 (Z.max 1 (Zfloor (r + / 2)))
      /\ Math_round (Fin r) = Fin (IZR (Zfloor (r + / 2))))
  /\ (forall x, (1 <= getMMINumeric x <= 12)%Z)
  /\ (forall x y, le x y = true ->
        (getMMINumeric x <= getMMINumeric y)%Z).
Proof.
  split; [|split].
  - intros r. split; [apply getMMINumeric_rounds | reflexivity].
  - apply getMMINumeric_range.
  - apply getMMINumeric_le.
Qed.

Lemma getMMINumeric_rounds_and_clamps_witness :
  le (Fin 2) (Fin 7.2) = true
  /\ (getMMINumeric (Fin 2) <= getMMINumeric (Fin 7.2))%Z.
Proof.
  assert (H : le (Fin 2) (Fin 7.2) = true) by (apply le_Fin; lra).
  split; [exact H|].
  exact (proj2 (proj2 getMMINumeric_rounds_and_clamps) (Fin 2) (Fin 7.2) H).
Defined.

(** X9. The three predicates are thresholds on the intensity:
    [isFelt x] is [x >= 2.5], [isDamaging x] is [x >= 5.5] and [isSevere x]
    is [x >= 7.5] (all false for NaN); so a severe intensity is damaging and
    a damaging one is felt. *)
Theorem severity_predicates_are_thresholds x :
  isFelt x = ge x (Fin 2.5)
  /\ isDamaging x = ge x (Fin 5.5)
  /\ isSevere x = ge x (Fin 7.5)
  /\ (isSevere x = true -> isDamaging x = true)
  /\ (isDamaging x = true -> isFelt x = true).
Proof.
  unfold isFelt, isDamaging, isSevere, ge.
  rewrite !getMMINumeric_threshold by lia.
  replace (IZR 3 - / 2) with 2.5 by lra.
  replace (IZR 6 - / 2) with 5.5 by lra.
  replace (IZR 8 - / 2) with 7.5 by lra.
  repeat split; intros H.
  - apply le_trans with (Fin 7.5); [apply le_Fin; lra | assumption].
  - apply le_trans with (Fin 5.5); [apply le_Fin; lra | assumption].
Qed.

Lemma severity_predicates_are_thresholds_witness :
  isSevere (Fin 8) = true /\ isDamaging (Fin 8) = true.
Proof.
  assert (H : isSevere (Fin 8) = true).
  { rewrite (proj1 (proj2 (proj2
              (severity_predicates_are_thresholds (Fin 8))))).
    apply le_Fin; lra. }
  split; [exact H|].
  exact (proj1 (proj2 (proj2 (proj2
           (severity_predicates_are_thresholds (Fin 8))))) H).
Defined.

(** X10. [getSimpleDescription] never falls through to "Unknown": every
    number gets one of the ten descriptions; the description is "Not felt
    by most people" exactly when the intensity is not at least 2.5, and
    "Total devastation" exactly from 10.5 on. *)
Theorem getSimpleDescription_total x :
  getSimpleDescription x <> "Unknown"%string
  /\ (getSimpleDescription x = "Not felt by most people"%string
      <-> ge x (Fin 2.5) = false)
  /\ (getSimpleDescription x = "Total devastation"%string
      <-> ge x (Fin 10.5) = true).
Proof.
  pose proof (getMMINumeric_range x) as Hr.
  pose proof (getMMINumeric_threshold 3 x ltac:(lia)) as H3.
  pose proof (getMMINumeric_threshold 11 x ltac:(lia)) as H11.
  replace (IZR 3 - / 2) with 2.5 in H3 by lra.
  replace (IZR 11 - / 2) with 10.5 in H11 by lra.
  unfold ge. rewrite <- H3, <- H11. unfold getSimpleDescription.
  set (mmi := getMMINumeric x) in *.
  assert (Hcases : (mmi = 1 \/ mmi = 2 \/ mmi = 3 \/ mmi = 4 \/ mmi = 5
                    \/ mmi = 6 \/ mmi = 7 \/ mmi = 8 \/ mmi = 9 \/ mmi = 10
                    \/ mmi = 11 \/ mmi = 12)%Z) by lia.
  clearbody mmi. clear H3 H11 Hr.
  repeat (destruct Hcases as [-> | Hcases]); try subst mmi;
    cbn; repeat split; intros; try discriminate; reflexivity.
Qed.

End NumericLevel.

(* ------------------------------------------------------------------ *)
(** ** The inverse lookup [getIntensityRangeForMMI] *)

Section RangeLookup.

Import MMI.

Variable toUpperCase : string -> string.

Lemma find_level_of_entry l :
  In l MMI_SCALE -> find_level (Fin (IZR (numericLevel l))) = Some l.
Proof.
  intros Hl. unfold find_level, MMI_SCALE.
  simpl in Hl.
  repeat (destruct Hl as [<- | Hl]; [cbn; unfold strict_eq; case_R; reflexivity|]).
  contradiction.
Qed.

Lemma find_level_Some n l :
  find_level n = Some l ->
  In l MMI_SCALE /\ n = Fin (IZR (numericLevel l)).
Proof.
  intros H. unfold find_level in H. apply find_some in H as [Hl Heq].
  split; [assumption|].
  destruct n as [| | y |]; try discriminate.
  unfold strict_eq in Heq.
  destruct (Req_dec_T _ y) as [-> | _]; [reflexivity | discriminate].
Qed.

Lemma numericLevel_range l :
  In l MMI_SCALE -> (1 <= numericLevel l <= 12)%Z.
Proof.
  intros Hl. simpl in Hl.
  repeat (destruct Hl as [<- | Hl]; [cbn; lia|]). contradiction.
Qed.

Lemma entry_of_level (k : Z) :
  (1 <= k <= 12)%Z -> exists l, In l MMI_SCALE /\ numericLevel l = k.
Proof.
  intros Hk.
  assert (H : (k = 1 \/ k = 2 \/ k = 3 \/ k = 4 \/ k = 5 \/ k = 6 \/ k = 7
               \/ k = 8 \/ k = 9 \/ k = 10 \/ k = 11 \/ k = 12)%Z) by lia.
  destruct H as [-> | [-> | [-> | [-> | [-> | [-> | [-> | [-> | [-> | [->
                | [-> | ->]]]]]]]]]]];
    [ exists MMI_I | exists MMI_II | exists MMI_III | exists MMI_IV
    | exists MMI_V | exists MMI_VI | exists MMI_VII | exists MMI_VIII
    | exists MMI_IX | exists MMI_X | exists MMI_XI | exists MMI_XII ];
    (split; [simpl; tauto | reflexivity]).
Qed.

(** X11. Looked up by number, [getIntensityRangeForMMI] returns the minimum,
    maximum and roman numeral of the band with that numeric level, and
    returns null exactly when the number is not one of the integers 1 to 12
    (fractions, NaN and the infinities included). *)
Theorem getIntensityRangeForMMI_by_number (n : num) :
  (forall l, In l MMI_SCALE -> n = Fin (IZR (numericLevel l)) ->
     getIntensityRangeForMMI toUpperCase (LevelNumber n) = Some (range_of l))
  /\ (getIntensityRangeForMMI toUpperCase (LevelNumber n) = None
      <-> ~ exists k, (1 <= k <= 12)%Z /\ n = Fin (IZR k)).
Proof.
  unfold getIntensityRangeForMMI. split.
  - intros l Hl ->. now rewrite find_level_of_entry.
  - destruct (find_level n) as [l |] eqn:E.
    + split; [discriminate|]. intros H. exfalso. apply H.
      apply find_level_Some in E as [Hl ->].
      exists (numericLevel l). split; [now apply numericLevel_range | reflexivity].
    + split; [|reflexivity]. intros _ (k & Hk & ->).
      destruct (entry_of_level k Hk) as (l & Hl & <-).
      rewrite find_level_of_entry in E by assumption. discriminate.
Qed.

Lemma getMMI_range_contains r :
  0 <= r ->
  ge (Fin r) (minIntensity (band (getMMI (Fin r))))
  && lt (Fin r) (maxIntensity (band (getMMI (Fin r)))) = true.
Proof.
  intros Hr.
  assert (H0 : le 0 (Fin r) = true) by now apply le_Fin.
  pose proof (getMMI_in_band (Fin r) H0) as Hb.
  pose proof (getMMI_in_table (Fin r)) as Hl.
  unfold in_band in Hb. apply andb_true_iff in Hb as [Hmin Hmax].
  apply andb_true_iff; split; [exact Hmin|].
  apply orb_true_iff in Hmax as [Hmax | Hopen]; [exact Hmax|].
  unfold open_ended in Hopen.
  destruct (maxIntensity (band (getMMI (Fin r)))); try discriminate.
  reflexivity.
Qed.

(** X12. Round trip with the classifier: for a finite intensity [x >= 0],
    looking up the numeric level that [getMMINumeric x] reports gives back a
    range with [min <= x < max] and the roman numeral [getMMILevel x]. *)
Theorem getIntensityRangeForMMI_of_getMMINumeric (r : R) :
  0 <= r ->
  exists range,
    getIntensityRangeForMMI toUpperCase
      (LevelNumber (Fin (IZR (getMMINumeric (Fin r))))) = Some range
    /\ ge (Fin r) (range_min range) && lt (Fin r) (range_max range) = true
    /\ range_level range = getMMILevel (Fin r).
Proof.
  intros Hr. exists (range_of (band (getMMI (Fin r)))).
  split; [|split].
  - unfold getIntensityRangeForMMI, getMMINumeric.
    now rewrite find_level_of_entry by apply getMMI_in_table.
  - now apply getMMI_range_contains.
  - reflexivity.
Qed.

Lemma property_romanMap_level l :
  In l MMI_SCALE -> property (level l) romanMap = Some (numericLevel l).
Proof.
  intros Hl. simpl in Hl.
  repeat (destruct Hl as [<- | Hl]; [reflexivity|]). contradiction.
Qed.

Lemma property_romanMap_missing key :
  (forall l, In l MMI_SCALE -> key <> level l) ->
  property key romanMap = None.
Proof.
  intros H.
  assert (Hf : forall l, In l MMI_SCALE -> String.eqb (level l) key = false).
  { intros l Hl. apply String.eqb_neq. intros E. now apply (H l Hl). }
  unfold romanMap. cbn [property].
  replace (String.eqb "I" key) with false
    by (symmetry; exact (Hf MMI_I ltac:(simpl; tauto))).
  replace (String.eqb "II" key) with false
    by (symmetry; exact (Hf MMI_II ltac:(simpl; tauto))).
  replace (String.eqb "III" key) with false
    by (symmetry; exact (Hf MMI_III ltac:(simpl; tauto))).
  replace (String.eqb "IV" key) with false
    by (symmetry; exact (Hf MMI_IV ltac:(simpl; tauto))).
  replace (String.eqb "V" key) with false
    by (symmetry; exact (Hf MMI_V ltac:(simpl; tauto))).
  replace (String.eqb "VI" key) with false
    by (symmetry; exact (Hf MMI_VI ltac:(simpl; tauto))).
  replace (String.eqb "VII" key) with false
    by (symmetry; exact (Hf MMI_VII ltac:(simpl; tauto))).
  replace (String.eqb "VIII" key) with false
    by (symmetry; exact (Hf MMI_VIII ltac:(simpl; tauto))).
  replace (String.eqb "IX" key) with false
    by (symmetry; exact (Hf MMI_IX ltac:(simpl; tauto))).
  replace (String.eqb "X" key) with false
    by (symmetry; exact (Hf MMI_X ltac:(simpl; tauto))).
  replace (String.eqb "XI" key) with false
    by (symmetry; exact (Hf MMI_XI ltac:(simpl; tauto))).
  replace (String.eqb "XII" key) with false
    by (symmetry; exact (Hf MMI_XII ltac:(simpl; tauto))).
  reflexivity.
Qed.

(** X13. Looked up by string, [getIntensityRangeForMMI] never returns null:
    when the upper-cased string is the roman numeral of a band it returns
    that band's range, and for every other string it falls back to the range
    of MMI I. *)
Theorem getIntensityRangeForMMI_by_string (s : string) :
  (exists range,
      getIntensityRangeForMMI toUpperCase (LevelString s) = Some range)
  /\ (forall l, In l MMI_SCALE -> toUpperCase s = level l ->
        getIntensityRangeForMMI toUpperCase (LevelString s)
        = Some (range_of l))
  /\ ((forall l, In l MMI_SCALE -> toUpperCase s <> level l) ->
      getIntensityRangeForMMI toUpperCase (LevelString s)
      = Some (range_of MMI_I)).
Proof.
  assert (Hhit : forall l, In l MMI_SCALE -> toUpperCase s = level l ->
            getIntensityRangeForMMI toUpperCase (LevelString s)
            = Some (range_of l)).
  { intros l Hl E. unfold getIntensityRangeForMMI, romanToNumeric.
    rewrite E, property_romanMap_level by assumption.
    now rewrite find_level_of_entry. }
  assert (Hmiss : (forall l, In l MMI_SCALE -> toUpperCase s <> level l) ->
            getIntensityRangeForMMI toUpperCase (LevelString s)
            = Some (range_of MMI_I)).
  { intros H. unfold getIntensityRangeForMMI, romanToNumeric.
    rewrite property_romanMap_missing by assumption.
    pose proof (find_level_of_entry MMI_I ltac:(simpl; tauto)) as E.
    change (find_level (Fin (IZR 1)) = Some MMI_I) in E.
    now rewrite E. }
  split; [|split; assumption].
  destruct (in_dec string_dec (toUpperCase s) (map level MMI_SCALE))
    as [Hin | Hout].
  - apply in_map_iff in Hin as (l & E & Hl). eauto.
  - eexists. apply Hmiss. intros l Hl E. apply Hout.
    rewrite E. now apply in_map.
Qed.

End RangeLookup.

Lemma getIntensityRangeForMMI_by_number_witness :
  In MMI.MMI_VII MMI.MMI_SCALE
  /\ MMI.getIntensityRangeForMMI ascii_toUpperCase (MMI.LevelNumber (Fin 7))
     = Some (range_of MMI.MMI_VII).
Proof.
  assert (H : In MMI.MMI_VII MMI.MMI_SCALE) by (simpl; tauto).
  split; [exact H|].
  exact (proj1 (getIntensityRangeForMMI_by_number ascii_toUpperCase (Fin 7))
           MMI.MMI_VII H eq_refl).
Defined.

Lemma getIntensityRangeForMMI_of_getMMINumeric_witness :
  0 <= 7.2
  /\ exists range,
       MMI.getIntensityRangeForMMI ascii_toUpperCase
         (MMI.LevelNumber (Fin (IZR (MMI.getMMINumeric (Fin 7.2)))))
       = Some range.
Proof.
  assert (H : 0 <= 7.2) by lra.
  split; [exact H|].
  destruct (getIntensityRangeForMMI_of_getMMINumeric ascii_toUpperCase 7.2 H)
    as (range & E & _).
  exists range. exact E.
Defined.

Lemma getIntensityRangeForMMI_by_string_witness :
  In MMI.MMI_VII MMI.MMI_SCALE
  /\ ascii_toUpperCase "vii" = MMI.level MMI.MMI_VII
  /\ MMI.getIntensityRangeForMMI ascii_toUpperCase (MMI.LevelString "vii")
     = Some (range_of MMI.MMI_VII).
Proof.
  assert (H : In MMI.MMI_VII MMI.MMI_SCALE) by (simpl; tauto).
  assert (E : ascii_toUpperCase "vii" = MMI.level MMI.MMI_VII) by reflexivity.
  split; [exact H|]. split; [exact E|].
  exact (proj1 (proj2
           (getIntensityRangeForMMI_by_string ascii_toUpperCase "vii"))
           MMI.MMI_VII H E).
Defined.

(* ------------------------------------------------------------------ *)
(** ** The PGA estimate *)

Section PGA.

Import MMI.

Lemma Rpower_pos x y : 0 < Rpower x y.
Proof. unfold Rpower. apply exp_pos. Qed.

(** The two models of [Math.pow] agree on the exponent 2. *)
Lemma Math_pow_num_square x : Math_pow_num x (Fin 2) = Math_pow x 2.
Proof.
  assert (Hint : is_integer 2 = true).
  { unfold is_integer. rewrite (ZfloorZ 2).
    destruct (Req_dec_T 2 2); [reflexivity | lra]. }
  assert (Hodd : Z.odd (Zfloor 2) = false) by now rewrite (ZfloorZ 2).
  assert (Hsq : forall y, 0 < y -> Rpower y 2 = y * y).
  { intros y Hy. replace 2 with (INR 2) by (simpl; lra).
    rewrite Rpower_pow by assumption. simpl. ring. }
  unfold Math_pow_num. cbn [Math_pow].
  destruct (Req_dec_T 2 0) as [E | _]; [lra|].
  destruct (Rlt_dec 0 2) as [_ | E]; [|lra].
  rewrite Hint, Hodd. cbn [andb].
  destruct x as [| | v |]; try reflexivity. cbn [mul].
  destruct (Req_dec_T v 0) as [-> | Hv]; [f_equal; ring|].
  destruct (Rlt_dec 0 v).
  - now rewrite Hsq.
  - rewrite Hsq by lra. f_equal. ring.
Qed.

Lemma level_exponent_nonzero (n : Z) : (IZR n - 3.7) / 2.2 <> 0.
Proof.
  intros H.
  assert (E : IZR (n * 10) = IZR 37).
  { rewrite mult_IZR.
    assert (IZR n - 3.7 = 0) by (apply Rmult_eq_reg_r with (/ 2.2); lra).
    lra. }
  apply eq_IZR in E. lia.
Qed.

Lemma estimatePGA_value x : estimatePGA x = Fin (pga_R (getMMINumeric x)).
Proof.
  unfold estimatePGA. set (n := getMMINumeric x).
  cbn [sub]. unfold div. destruct (Req_dec_T 2.2 0); [lra|].
  unfold Math_pow_num.
  destruct (Req_dec_T _ 0) as [E | _];
    [exfalso; exact (level_exponent_nonzero n E)|].
  destruct (Req_dec_T 10 0); [lra|]. destruct (Rlt_dec 0 10); [|lra].
  cbn [mul]. rewrite Math_max_Fin. fold (pga_R n).
  assert (0 < pga_R n).
  { unfold pga_R. apply Rmult_lt_0_compat; [apply Rpower_pos | lra]. }
  rewrite Rmax_left by lra. reflexivity.
Qed.

Lemma pga_R_le n m : (n <= m)%Z -> pga_R n <= pga_R m.
Proof.
  intros H. unfold pga_R. apply Rmult_le_compat_r; [lra|].
  apply Rle_Rpower; [lra|]. apply IZR_le in H.
  apply Rmult_le_compat_r; lra.
Qed.

(** X14. For every number [estimatePGA] returns the finite, strictly
    positive value 10^((level - 3.7) / 2.2) * 100 of the numeric MMI level,
    so the final floor at 0 never applies, and the estimate never decreases
    when the intensity grows. *)
Theorem estimatePGA_positive_monotone :
  (forall x,
      estimatePGA x = Fin (pga_R (getMMINumeric x))
      /\ 0 < pga_R (getMMINumeric x))
  /\ (forall x y, le x y = true ->
        le (estimatePGA x) (estimatePGA y) = true).
Proof.
  split.
  - intros x. split; [apply estimatePGA_value|].
    unfold pga_R. apply Rmult_lt_0_compat; [apply Rpower_pos | lra].
  - intros x y H. rewrite !estimatePGA_value.
    now apply le_Fin, pga_R_le, getMMINumeric_le.
Qed.

Lemma estimatePGA_positive_monotone_witness :
  le (Fin 2) (Fin 7.2) = true
  /\ le (estimatePGA (Fin 2)) (estimatePGA (Fin 7.2)) = true.
Proof.
  assert (H : le (Fin 2) (Fin 7.2) = true) by (apply le_Fin; lra).
  split; [exact H|].
  exact (proj2 estimatePGA_positive_monotone (Fin 2) (Fin 7.2) H).
Defined.

End PGA.

(* ------------------------------------------------------------------ *)
(** ** More on the damage model *)

Section DamageMore.

Import Damage.

Lemma estimateDamage_le x y :
  le x y = true -> le (estimateDamage x) (estimateDamage y) = true.
Proof.
  intros H.
  destruct (estimateDamage_range x) as (p & Ex & Hp).
  destruct (estimateDamage_range y) as (q & Ey & Hq).
  destruct x as [| | r |]; try discriminate.
  - rewrite estimateDamage_below_0 by now left.
    rewrite Ey. apply le_Fin; lra.
  - destruct (Rlt_dec r 0).
    + rewrite estimateDamage_below_0 by (left; now apply lt_Fin).
      rewrite Ey. apply le_Fin; lra.
    + rewrite estimateDamage_finite by lra.
      destruct y as [| | s |]; try discriminate.
      * apply le_Fin in H. rewrite estimateDamage_finite by lra.
        now apply le_Fin, damage_R_le.
      * rewrite estimateDamage_PosInf.
        pose proof (damage_R_bounds r). apply le_Fin; lra.
  - destruct y; try discriminate.
    rewrite estimateDamage_PosInf. apply le_Fin; lra.
Qed.

Lemma severity_range p : (0 <= severity (getDamageCategory p) <= 5)%Z.
Proof.
  unfold getDamageCategory.
  repeat match goal with
    | |- context [if lt p ?c then _ else _] => destruct (lt p c)
    end; cbn; lia.
Qed.

(** Severity [k] or more is reached exactly when the percentage is not below
    the lower bound of band [k]. *)
Lemma severity_Fin p :
  severity (getDamageCategory (Fin p)) =
    if Rlt_dec p 5 then 0%Z else if Rlt_dec p 15 then 1%Z
    else if Rlt_dec p 30 then 2%Z else if Rlt_dec p 50 then 3%Z
    else if Rlt_dec p 70 then 4%Z else 5%Z.
Proof.
  unfold getDamageCategory, lt, Rltb.
  repeat match goal with
    | |- context [Rlt_dec p ?c] => destruct (Rlt_dec p c)
    end; reflexivity.
Qed.

(** X15. The severity of the damage category lies between 0 and 5 and
    never decreases when the damage percentage grows. *)
Theorem getDamageCategory_monotone :
  (forall p, (0 <= severity (getDamageCategory p) <= 5)%Z)
  /\ (forall p q, le p q = true ->
        (severity (getDamageCategory p)
         <= severity (getDamageCategory q))%Z).
Proof.
  split; [apply severity_range|].
  intros p q H.
  pose proof (severity_range p). pose proof (severity_range q).
  destruct p as [| | x |]; try discriminate H.
  - cbn. lia.
  - destruct q as [| | y |]; try discriminate H.
    + apply le_Fin in H. rewrite !severity_Fin.
      repeat match goal with
        | |- context [Rlt_dec ?a ?c] => destruct (Rlt_dec a c)
        end; try lia; lra.
    + cbn. lia.
  - destruct q; try discriminate H. cbn. lia.
Qed.

Lemma getDamageCategory_monotone_witness :
  le (Fin 10) (Fin 60) = true
  /\ (severity (getDamageCategory (Fin 10))
      <= severity (getDamageCategory (Fin 60)))%Z.
Proof.
  assert (H : le (Fin 10) (Fin 60) = true) by (apply le_Fin; lra).
  split; [exact H|].
  exact (proj2 getDamageCategory_monotone (Fin 10) (Fin 60) H).
Defined.

(** X16. For every intensity the four construction types are ordered:
    modern <= standard <= unreinforced <= informal, all of them finite
    percentages between 0 and 100. *)
Theorem getBuildingDamageByType_ordered x :
  let r := getBuildingDamageByType x in
  exists m s u i : R,
    bd_damage (modern r) = Fin m /\ bd_damage (standard r) = Fin s
    /\ bd_damage (unreinforced r) = Fin u /\ bd_damage (informal r) = Fin i
    /\ 0 <= m /\ m <= s /\ s <= u /\ u <= i /\ i <= 100.
Proof.
  cbn zeta. unfold getBuildingDamageByType.
  destruct (estimateDamage_range x) as (p & -> & Hp).
  cbn [modern standard unreinforced informal bd_damage mul].
  rewrite Math_max_Fin, !Math_min_Fin.
  do 4 eexists. repeat (split; [reflexivity|]).
  unfold Rmax, Rmin.
  repeat match goal with
    | |- context [Rle_dec ?a ?c] => destruct (Rle_dec a c)
    end; lra.
Qed.

Lemma damage_R_at_threshold x :
  (x < 6 -> damage_R x < 50) /\ (x = 6 -> damage_R x = 50)
  /\ (6 < x -> 50 < damage_R x).
Proof.
  assert (H6 : damage_R 6 = 50).
  { unfold damage_R.
    replace (- (1.5 * (6 - 6))) with 0 by lra. rewrite exp_0. lra. }
  assert (Hstrict : forall a b, a < b -> damage_R a < damage_R b).
  { intros a b Hab. unfold damage_R.
    pose proof (exp_pos (- (1.5 * (b - 6)))) as Hb.
    assert (He : exp (- (1.5 * (b - 6))) < exp (- (1.5 * (a - 6))))
      by (apply exp_increasing; lra).
    unfold Rdiv. apply Rmult_lt_compat_l; [lra|].
    apply Rinv_lt_contravar; [|lra].
    apply Rmult_lt_0_compat; lra. }
  repeat split.
  - intros H. rewrite <- H6. now apply Hstrict.
  - now intros ->.
  - intros H. rewrite <- H6. now apply Hstrict.
Qed.

(** X17. [estimateDamage] is 0 exactly for the intensities that are below
    0 or NaN; on the finite intensities from 0 on it is below 50 before the
    threshold 6.0, exactly 50 at it, and above 50 after it. *)
Theorem estimateDamage_threshold :
  (forall x,
      estimateDamage x = Fin 0 <-> (lt x 0 = true \/ isNaN x = true))
  /\ (forall r, 0 <= r ->
        exists p, estimateDamage (Fin r) = Fin p
                  /\ (r < 6 -> p < 50) /\ (r = 6 -> p = 50)
                  /\ (6 < r -> 50 < p)).
Proof.
  split.
  - intros x. split; [|apply estimateDamage_below_0].
    destruct x as [| | r |]; auto.
    + destruct (Rlt_dec r 0) as [Hr | Hr]; [left; now apply lt_Fin|].
      rewrite estimateDamage_finite by lra. intros E.
      injection E as E. pose proof (damage_R_bounds r). lra.
    + rewrite estimateDamage_PosInf. intros E. injection E as E. lra.
  - intros r Hr. exists (damage_R r).
    split; [now apply estimateDamage_finite | apply damage_R_at_threshold].
Qed.

Lemma estimateDamage_threshold_witness :
  0 <= 6 /\ estimateDamage (Fin 6) = Fin 50.
Proof.
  assert (H : 0 <= 6) by lra.
  split; [exact H|].
  destruct (proj2 estimateDamage_threshold 6 H) as (p & E & _ & H6 & _).
  rewrite E. f_equal. apply H6. reflexivity.
Defined.

End DamageMore.

(* ------------------------------------------------------------------ *)
(** ** Economic loss *)

Section EconomicLoss.

Import Damage.

Lemma is_integer_1_3 : is_integer 1.3 = false.
Proof.
  unfold is_integer. rewrite (Zfloor_eq 1) by lra.
  destruct (Req_dec_T 1.3 1); [lra | reflexivity].
Qed.

Lemma lossFactor_negative d :
  d < 0 -> Math_pow_num (div (Fin d) 100) 1.3 = NaN.
Proof.
  intros Hd. unfold div. destruct (Req_dec_T 100 0); [lra|].
  unfold Math_pow_num. destruct (Req_dec_T 1.3 0); [lra|].
  destruct (Req_dec_T (d / 100) 0); [lra|].
  destruct (Rlt_dec 0 (d / 100)); [lra|].
  now rewrite is_integer_1_3.
Qed.

Lemma lossFactor_finite d :
  0 <= d -> Math_pow_num (div (Fin d) 100) 1.3 = Fin (loss_R d).
Proof.
  intros Hd. unfold div. destruct (Req_dec_T 100 0); [lra|].
  unfold Math_pow_num, loss_R. destruct (Req_dec_T 1.3 0); [lra|].
  destruct (Req_dec_T (d / 100) 0).
  - destruct (Rlt_dec 0 1.3); [reflexivity | lra].
  - destruct (Rlt_dec 0 (d / 100)); [reflexivity | lra].
Qed.

Lemma Rpower_1_l y : Rpower 1 y = 1.
Proof. unfold Rpower. rewrite ln_1, Rmult_0_r. apply exp_0. Qed.

Lemma loss_R_bounds d : 0 <= d <= 100 -> 0 <= loss_R d <= 1.
Proof.
  intros Hd. unfold loss_R. destruct (Req_dec_T (d / 100) 0); [lra|].
  split; [left; apply Rpower_pos|].
  rewrite <- (Rpower_1_l 1.3). apply Rle_Rpower_l; lra.
Qed.

(** X18. [estimateEconomicLoss] does not guard its inputs.  For a negative
    damage percentage whose hundredth is at most [- MIN_VALUE] (it does not
    underflow to zero) every field of the result is NaN, whatever the
    population and the GDP per capita are; for a population of 0, a damage
    percentage between 0 and 100 and a GDP per capita whose triple is at
    most [MAX_VALUE] in size, the three losses are 0 and [percentOfGDP] is
    NaN. *)
Theorem estimateEconomicLoss_unguarded :
  (forall (d : R) totalPopulation gdpPerCapita,
      d / 100 <= - MIN_VALUE ->
      let r := estimateEconomicLoss (Fin d) totalPopulation gdpPerCapita in
      directLoss r = NaN /\ indirectLoss r = NaN /\ totalLoss r = NaN
      /\ percentOfGDP r = NaN)
  /\ (forall (d g : R),
        0 <= d <= 100 -> Rabs g * 3 <= MAX_VALUE ->
        let r := estimateEconomicLoss (Fin d) (Fin 0) (Some (Fin g)) in
        directLoss r = Fin 0 /\ indirectLoss r = Fin 0
        /\ totalLoss r = Fin 0 /\ percentOfGDP r = NaN).
Proof.
  split.
  - intros d t g Hd. cbn zeta. unfold estimateEconomicLoss.
    rewrite lossFactor_negative by (pose proof MIN_VALUE_small; lra).
    assert (E : forall a, mul a NaN = NaN) by (now intros [| | |]).
    rewrite E. cbn. repeat split.
  - intros d g [Hd _] _. cbn zeta. unfold estimateEconomicLoss.
    rewrite lossFactor_finite by assumption.
    cbn [mul add directLoss indirectLoss totalLoss percentOfGDP].
    rewrite !Math_round_Fin.
    replace (0 * (g * 3) * loss_R d) with 0 by ring.
    replace (0 * 0.3) with 0 by ring.
    replace (0 + 0) with 0 by ring. rewrite round_R_0.
    repeat (split; [reflexivity|]).
    unfold div at 2. destruct (Req_dec_T (0 * g) 0) as [_ | H]; [|lra].
    unfold signed_inf.
    destruct (Rlt_dec 0 0); [lra|]. reflexivity.
Qed.

Lemma estimateEconomicLoss_unguarded_witness :
  -5 / 100 <= - MIN_VALUE
  /\ percentOfGDP (estimateEconomicLoss (Fin (-5)) (Fin 1000) None) = NaN
  /\ 0 <= 50 <= 100 /\ Rabs 15000 * 3 <= MAX_VALUE
  /\ percentOfGDP (estimateEconomicLoss (Fin 50) (Fin 0) (Some (Fin 15000)))
     = NaN.
Proof.
  assert (H5 : -5 / 100 <= - MIN_VALUE)
    by (pose proof MIN_VALUE_small; lra).
  assert (H50 : 0 <= 50 <= 100) by lra.
  assert (Hg : Rabs 15000 * 3 <= MAX_VALUE)
    by (rewrite Rabs_pos_eq by lra; pose proof MAX_VALUE_lower; lra).
  split; [exact H5|]. split; [|split; [exact H50 | split; [exact Hg|]]].
  - exact (proj2 (proj2 (proj2
      (proj1 estimateEconomicLoss_unguarded (-5) (Fin 1000) None H5)))).
  - exact (proj2 (proj2 (proj2
      (proj2 estimateEconomicLoss_unguarded 50 15000 H50 Hg)))).
Defined.

(** X19. For a damage percentage between 0 and 100 and a population and a
    GDP per capita that are at least 1 and whose product, taken four times,
    is at most [MAX_VALUE] (no product of the computation overflows or
    underflows), the rounded losses satisfy indirect <= direct <= total, and
    [percentOfGDP] depends on the damage percentage alone: it is
    round(3900 * (damagePercent / 100)^1.3) / 10, between 0 and 390. *)
Theorem estimateEconomicLoss_shape (d T g : R) :
  0 <= d <= 100 -> 1 <= T -> 1 <= g -> T * g * 4 <= MAX_VALUE ->
  let r := estimateEconomicLoss (Fin d) (Fin T) (Some (Fin g)) in
  le (indirectLoss r) (directLoss r) = true
  /\ le (directLoss r) (totalLoss r) = true
  /\ percentOfGDP r = Fin (round_R (3900 * loss_R d) / 10)
  /\ 0 <= round_R (3900 * loss_R d) / 10 <= 390.
Proof.
  intros Hd HT Hg _. cbn zeta. unfold estimateEconomicLoss.
  rewrite lossFactor_finite by lra.
  pose proof (loss_R_bounds d Hd) as Hl.
  cbn [mul add directLoss indirectLoss totalLoss percentOfGDP].
  rewrite !Math_round_Fin.
  assert (Hraw : 0 <= T * (g * 3) * loss_R d).
  { apply Rmult_le_pos; [|lra]. apply Rmult_le_pos; lra. }
  split; [|split; [|split]].
  - apply le_Fin, round_R_le. lra.
  - apply le_Fin, round_R_le. lra.
  - unfold div. destruct (Req_dec_T (T * g) 0) as [E | _].
    { assert (0 < T * g) by (apply Rmult_lt_0_compat; lra). lra. }
    cbn [mul]. rewrite Math_round_Fin.
    destruct (Req_dec_T 10 0); [lra|].
    assert (E : (T * (g * 3) * loss_R d + T * (g * 3) * loss_R d * 0.3)
                / (T * g) * 1000 = 3900 * loss_R d).
    { replace (T * (g * 3) * loss_R d + T * (g * 3) * loss_R d * 0.3)
        with ((T * g) * (3.9 * loss_R d)) by nra.
      unfold Rdiv. rewrite (Rmult_comm (T * g)), Rmult_assoc, Rmult_assoc.
      rewrite <- (Rmult_assoc (T * g)), Rinv_r by nra. lra. }
    now rewrite E.
  - assert (H0 : 0 <= round_R (3900 * loss_R d))
      by (apply round_R_nonneg; lra).
    assert (H1 : round_R (3900 * loss_R d) <= 3900)
      by (apply (round_R_part 3900); lra).
    lra.
Qed.

Lemma estimateEconomicLoss_shape_witness :
  0 <= 50 <= 100 /\ 1 <= 1000 /\ 1 <= 15000
  /\ 1000 * 15000 * 4 <= MAX_VALUE
  /\ le (indirectLoss (estimateEconomicLoss (Fin 50) (Fin 1000)
                         (Some (Fin 15000))))
        (directLoss (estimateEconomicLoss (Fin 50) (Fin 1000)
                       (Some (Fin 15000)))) = true.
Proof.
  assert (Hd : 0 <= 50 <= 100) by lra.
  assert (HT : 1 <= 1000) by lra.
  assert (Hg : 1 <= 15000) by lra.
  assert (Hmax : 1000 * 15000 * 4 <= MAX_VALUE)
    by (pose proof MAX_VALUE_lower; lra).
  repeat (split; [assumption|]).
  exact (proj1 (estimateEconomicLoss_shape 50 1000 15000 Hd HT Hg Hmax)).
Defined.

End EconomicLoss.

(* ------------------------------------------------------------------ *)
(** ** The damage curve *)

Section DamageCurveSampling.

Import Damage.




End DamageCurveSampling.

(* ------------------------------------------------------------------ *)
(** ** Comparing scenarios *)

Section Scenarios.

Import Damage.

Variable intensityOf : num -> num -> num -> completion num.

Lemma compare_from_returns scenarios :
  (forall sc, In sc scenarios -> exists v, applied intensityOf sc = Return v) ->
  forall index,
  exists results,
    compare_from intensityOf index scenarios = Return results
    /\ List.length results = List.length scenarios
    /\ forall i sc, nth_error scenarios i = Some sc ->
         exists r,
           nth_error results i = Some r
           /\ scenarioId r = (Z.of_nat (index + i) + 1)%Z
           /\ c_scenario r = sc
           /\ applied intensityOf sc = Return (c_intensity r)
           /\ c_damage r = estimateDamage (c_intensity r)
           /\ c_category r = label (getDamageCategory (c_damage r))
           /\ c_severity r = severity (getDamageCategory (c_damage r)).
Proof.
  induction scenarios as [|sc rest IH]; intros Hall index.
  - exists []. split; [reflexivity|]. split; [reflexivity|].
    intros [|i] sc H; discriminate.
  - destruct (Hall sc (or_introl eq_refl)) as (v & Ev).
    destruct (IH (fun s Hs => Hall s (or_intror Hs)) (S index))
      as (results & E & Hlen & Hnth).
    cbn [compare_from]. unfold applied in Ev. rewrite Ev. cbn [bind].
    rewrite E. cbn [bind]. eexists. split; [reflexivity|].
    split; [cbn; now rewrite Hlen|].
    intros [|i] sc' H.
    + injection H as <-. eexists. split; [reflexivity|].
      cbn. rewrite Nat.add_0_r. repeat split. exact Ev.
    + cbn in H. destruct (Hnth i sc' H) as (r & Hr & Hid & Hrest).
      exists r. split; [exact Hr|]. split; [|exact Hrest].
      rewrite Hid. f_equal. lia.
Qed.

Lemma compare_from_throws before sc after message :
  (forall s, In s before -> exists v, applied intensityOf s = Return v) ->
  applied intensityOf sc = ThrowError message ->
  forall index,
    compare_from intensityOf index (before ++ sc :: after)
    = ThrowError message.
Proof.
  induction before as [|s rest IH]; intros Hall Hsc index.
  - cbn. unfold applied in Hsc. now rewrite Hsc.
  - destruct (Hall s (or_introl eq_refl)) as (v & Ev).
    cbn [app compare_from]. unfold applied in Ev. rewrite Ev. cbn [bind].
    now rewrite (IH (fun s' Hs => Hall s' (or_intror Hs)) Hsc).
Qed.

End Scenarios.

Section ScenariosResult.

Import Damage.

(** X21. [compareDamageScenarios] is a map in input order.  When the
    intensity function returns on every scenario, the result has one element
    per scenario; the element at position [i] carries [scenarioId = i + 1],
    the scenario itself, the intensity the function returned, the damage
    [estimateDamage] gives for it (between 0 and 100) and the label and
    severity of that damage's category.  When the function throws on some
    scenario and returns on all earlier ones, the call throws that same
    error and produces no result. *)
Theorem compareDamageScenarios_maps
  (intensityOf : num -> num -> num -> completion num) (scenarios : list scenario) :
  ((forall sc, In sc scenarios -> exists v, applied intensityOf sc = Return v) ->
   exists results,
     compareDamageScenarios scenarios intensityOf = Return results
     /\ List.length results = List.length scenarios
     /\ forall i sc, nth_error scenarios i = Some sc ->
          exists r,
            nth_error results i = Some r
            /\ scenarioId r = (Z.of_nat i + 1)%Z
            /\ c_scenario r = sc
            /\ applied intensityOf sc = Return (c_intensity r)
            /\ c_damage r = estimateDamage (c_intensity r)
            /\ le 0 (c_damage r) = true /\ le (c_damage r) 100 = true
            /\ c_category r = label (getDamageCategory (c_damage r))
            /\ c_severity r = severity (getDamageCategory (c_damage r)))
  /\ (forall before sc after message,
        scenarios = before ++ sc :: after ->
        (forall s, In s before ->
           exists v, applied intensityOf s = Return v) ->
        applied intensityOf sc = ThrowError message ->
        compareDamageScenarios scenarios intensityOf = ThrowError message).
Proof.
  split.
  - intros Hall.
    destruct (compare_from_returns intensityOf scenarios Hall 0)
      as (results & E & Hlen & Hnth).
    exists results. split; [exact E|]. split; [exact Hlen|].
    intros i sc H.
    destruct (Hnth i sc H) as (r & Hr & Hid & Hsc & Hin & Hd & Hc & Hs).
    exists r. repeat (split; [assumption|]).
    destruct (estimateDamage_range (c_intensity r)) as (d & Ed & Hrange).
    rewrite Hd, Ed. repeat split; try (apply le_Fin; lra).
    + now rewrite <- Ed, <- Hd.
    + now rewrite <- Ed, <- Hd.
  - intros before sc after message -> Hall Hsc.
    now apply compare_from_throws.
Qed.

Lemma compareDamageScenarios_maps_witness :
  let sc := {| sc_magnitude := Fin 11; sc_depth := Fin 35;
               sc_distance := Fin 335 |} in
  applied Attenuation.calculateIntensity sc
  = ThrowError (magnitude_message (Fin 11))
  /\ compareDamageScenarios [sc] Attenuation.calculateIntensity
     = ThrowError (magnitude_message (Fin 11)).
Proof.
  cbn zeta.
  assert (H : applied Attenuation.calculateIntensity
                {| sc_magnitude := Fin 11; sc_depth := Fin 35;
                   sc_distance := Fin 335 |}
              = ThrowError (magnitude_message (Fin 11))).
  { unfold applied. cbn [sc_magnitude sc_depth sc_distance].
    rewrite calculateIntensity_cases.
    replace (bad_magnitude (Fin 11)) with true; [reflexivity|].
    symmetry. apply orb_true_iff; right. apply lt_Fin; lra. }
  split; [exact H|].
  apply (proj2 (compareDamageScenarios_maps Attenuation.calculateIntensity
                  [ {| sc_magnitude := Fin 11; sc_depth := Fin 35;
                       sc_distance := Fin 335 |} ])
           [] _ [] _ eq_refl).
  - intros s [].
  - exact H.
Defined.

End ScenariosResult.

(* ------------------------------------------------------------------ *)
(** ** The pipeline of the application *)

Section Pipeline.

Import Attenuation MMI Damage.

Lemma damage_R_not_damaging r : r < 5.5 -> damage_R r < 40.
Proof.
  intros Hr. apply Rle_lt_trans with (damage_R 5.5).
  - apply damage_R_le; lra.
  - unfold damage_R.
    pose proof (exp_ineq1_le (- (1.5 * (5.5 - 6)))) as He.
    apply Rmult_lt_reg_r with (1 + exp (- (1.5 * (5.5 - 6)))); [lra|].
    unfold Rdiv. rewrite Rmult_assoc, Rinv_l by lra. lra.
Qed.

(** X22. Fed with the damage percentage that [estimateDamage] computes,
    [estimateAffectedPopulation] keeps its order: for every intensity and
    every whole population [T >= 0] whose hundredfold is at most
    [MAX_SAFE_INTEGER] (up to 9 * 10^13, so that the product with the
    percentage is exact), displaced <= affected <= total = T; and nobody is
    displaced when the intensity is not damaging (below 5.5, negative or
    NaN). *)
Theorem affected_population_of_estimated_damage (T : Z) (x : num) :
  (0 <= T)%Z -> IZR T * 100 <= MAX_SAFE_INTEGER ->
  let r := estimateAffectedPopulation (Fin (IZR T)) (estimateDamage x) in
  total r = Fin (IZR T)
  /\ le (displaced r) (affected r) = true
  /\ le (affected r) (total r) = true
  /\ (isDamaging x = false -> displaced r = Fin 0).
Proof.
  intros HT _. cbn zeta.
  apply IZR_le in HT.
  destruct (estimateDamage_range x) as (p & Ep & Hp).
  rewrite Ep, estimateAffectedPopulation_finite by lra.
  cbn zeta. cbn [total affected displaced].
  split; [reflexivity|]. split; [|split].
  - apply le_Fin, displaced_le_affected; lra.
  - apply le_Fin, round_R_part, affected_bounds; lra.
  - intros Hd.
    assert (Hp40 : p <= 40).
    { unfold isDamaging in Hd.
      rewrite getMMINumeric_threshold in Hd by lia.
      replace (IZR 6 - / 2) with 5.5 in Hd by lra.
      destruct x as [| | y |]; try discriminate Hd.
      - rewrite estimateDamage_below_0 in Ep by now right.
        injection Ep as <-. lra.
      - rewrite estimateDamage_below_0 in Ep by now left.
        injection Ep as <-. lra.
      - apply le_Fin_false in Hd.
        destruct (Rlt_dec y 0).
        + rewrite estimateDamage_below_0 in Ep by (left; now apply lt_Fin).
          injection Ep as <-. lra.
        + rewrite estimateDamage_finite in Ep by lra.
          injection Ep as <-. pose proof (damage_R_not_damaging y Hd). lra. }
    f_equal. rewrite Rmax_left by lra. rewrite Rmult_0_r. apply round_R_0.
Qed.

Lemma affected_population_of_estimated_damage_witness :
  (0 <= 5000000)%Z /\ IZR 5000000 * 100 <= MAX_SAFE_INTEGER
  /\ le (displaced (estimateAffectedPopulation (Fin (IZR 5000000))
                      (estimateDamage (Fin 7.2))))
        (affected (estimateAffectedPopulation (Fin (IZR 5000000))
                     (estimateDamage (Fin 7.2)))) = true.
Proof.
  assert (H : (0 <= 5000000)%Z) by lia.
  assert (Hmax : IZR 5000000 * 100 <= MAX_SAFE_INTEGER)
    by (unfold MAX_SAFE_INTEGER; lra).
  split; [exact H|]. split; [exact Hmax|].
  exact (proj1 (proj2
    (affected_population_of_estimated_damage 5000000 (Fin 7.2) H Hmax))).
Defined.

(** X23. Along the pipeline a larger distance never gives a worse result:
    on a valid magnitude and depth, for valid distances [x <= x'] the
    intensity at [x'] has a numeric MMI level, a damage percentage and a
    damage severity that are at most those at [x]. *)
Theorem pipeline_decreases_with_distance magnitude depth x x' :
  valid_magnitude magnitude -> valid_depth depth ->
  valid_distance x -> le x x' = true ->
  exists i i',
    calculateIntensity magnitude depth x = Return i
    /\ calculateIntensity magnitude depth x' = Return i'
    /\ (getMMINumeric i' <= getMMINumeric i)%Z
    /\ le (estimateDamage i') (estimateDamage i) = true
    /\ (severity (getDamageCategory (estimateDamage i'))
        <= severity (getDamageCategory (estimateDamage i)))%Z.
Proof.
  intros Hm Hd Hx Hle.
  assert (Hx' : valid_distance x') by (eapply le_trans; eauto).
  assert (Hi : exists i i',
             calculateIntensity magnitude depth x = Return i
             /\ calculateIntensity magnitude depth x' = Return i'
             /\ le i' i = true).
  { destruct (calculateIntensity_valid _ _ _ Hm Hd Hx)
      as (M & D & -> & -> & HM & HD & Hcase).
    destruct (le_0_inv _ Hx') as [(X' & -> & HX') | ->].
    - destruct Hcase as [(X & -> & HX & E) | (-> & _)]; [|discriminate].
      apply le_Fin in Hle. rewrite E, calculateIntensity_finite by lra.
      do 2 eexists. repeat split.
      now apply le_Fin, intensity_R_distance.
    - rewrite calculateIntensity_infinite by lra.
      destruct Hcase as [(X & -> & HX & E) | (-> & E)]; rewrite E;
        do 2 eexists; repeat split; apply le_Fin;
        [apply intensity_R_nonneg | lra]. }
  destruct Hi as (i & i' & E & E' & Hii).
  exists i, i'. repeat (split; [assumption|]).
  split; [now apply getMMINumeric_le|].
  pose proof (estimateDamage_le _ _ Hii) as Hdam.
  split; [assumption|].
  destruct (estimateDamage_range i) as (p & Ep & _).
  destruct (estimateDamage_range i') as (q & Eq & _).
  rewrite Ep, Eq in *. apply le_Fin in Hdam. rewrite !severity_Fin.
  repeat match goal with
    | |- context [Rlt_dec ?a ?c] => destruct (Rlt_dec a c)
    end; try lia; lra.
Qed.

Lemma pipeline_decreases_with_distance_witness :
  valid_magnitude (Fin 8.8) /\ valid_depth (Fin 35)
  /\ valid_distance (Fin 100) /\ le (Fin 100) (Fin 335) = true
  /\ exists i i',
       calculateIntensity (Fin 8.8) (Fin 35) (Fin 100) = Return i
       /\ calculateIntensity (Fin 8.8) (Fin 35) (Fin 335) = Return i'
       /\ le (estimateDamage i') (estimateDamage i) = true.
Proof.
  assert (Hm : valid_magnitude (Fin 8.8)) by (split; apply le_Fin; lra).
  assert (Hd : valid_depth (Fin 35)) by (split; apply le_Fin; lra).
  assert (Hx : valid_distance (Fin 100)) by (apply le_Fin; lra).
  assert (Hle : le (Fin 100) (Fin 335) = true) by (apply le_Fin; lra).
  repeat (split; [assumption|]).
  destruct (pipeline_decreases_with_distance _ _ _ _ Hm Hd Hx Hle)
    as (i & i' & E & E' & _ & Hdam & _).
  exists i, i'. auto.
Defined.

End Pipeline.

(* ------------------------------------------------------------------ *)
(** ** The gauge of the intensity display *)

Section Gauge.

Import MMI IntensityDisplay.

Lemma mmiLevels_of_MMI_SCALE : mmiLevels = map cell_of MMI_SCALE.
Proof. reflexivity. Qed.

Lemma active_levels_filter x :
  active_levels x
  = map level (filter (fun l => isActive x (cell_of l)) MMI_SCALE).
Proof.
  unfold active_levels. rewrite mmiLevels_of_MMI_SCALE.
  generalize MMI_SCALE as table. induction table as [|l rest IH].
  - reflexivity.
  - cbn [map filter]. destruct (isActive x (cell_of l)); cbn [map];
      now rewrite IH.
Qed.

Lemma filter_none {A : Type} (f : A -> bool) (l : list A) :
  (forall b, In b l -> f b = false) -> filter f l = [].
Proof.
  induction l as [|b rest IH]; intros H; [reflexivity|].
  cbn [filter]. rewrite (H b (or_introl eq_refl)).
  apply IH. intros y Hy. apply H. now right.
Qed.

(** A list without duplicates has a single element passing a test that
    only that element passes. *)
Lemma filter_unique {A : Type} (f : A -> bool) (a : A) (l : list A) :
  NoDup l -> In a l -> f a = true ->
  (forall b, In b l -> f b = true -> b = a) ->
  filter f l = [a].
Proof.
  induction l as [|b rest IH]; intros Hnd Hin Hfa Huniq; [contradiction|].
  apply NoDup_cons_iff in Hnd as [Hnotin Hnd]. cbn [filter].
  destruct Hin as [-> | Hin].
  - rewrite Hfa. f_equal. apply filter_none. intros y Hy.
    destruct (f y) eqn:E; [|reflexivity].
    exfalso. apply Hnotin.
    now rewrite <- (Huniq y (or_intror Hy) E).
  - destruct (f b) eqn:E.
    + exfalso. apply Hnotin. rewrite (Huniq b (or_introl eq_refl) E).
      exact Hin.
    + apply IH; auto. intros y Hy. apply Huniq. now right.
Qed.

Lemma MMI_SCALE_NoDup : NoDup MMI_SCALE.
Proof.
  apply (NoDup_map_inv numericLevel). cbn [map MMI_SCALE numericLevel].
  repeat (apply NoDup_cons; [cbn [In]; intros H;
    repeat (destruct H as [H | H]; [discriminate H|]); exact H|]).
  apply NoDup_nil.
Qed.

Lemma isActive_cell_of r l :
  r < 99 -> In l MMI_SCALE ->
  isActive (Fin r) (cell_of l) = in_band (Fin r) l.
Proof.
  intros Hr Hl. unfold isActive, in_band, open_ended, cell_of, ge.
  cbn [cell_min cell_max]. f_equal.
  destruct (maxIntensity l); cbn [lt]; rewrite ?orb_false_r; try reflexivity.
  apply Rltb_true. lra.
Qed.

Lemma active_levels_in_range r :
  0 <= r < 99 -> active_levels (Fin r) = [getMMILevel (Fin r)].
Proof.
  intros [H0 H99]. rewrite active_levels_filter.
  assert (Hx : le 0 (Fin r) = true) by now apply le_Fin.
  rewrite (filter_unique _ (band (getMMI (Fin r)))); [reflexivity | | | |].
  - apply MMI_SCALE_NoDup.
  - apply getMMI_in_table.
  - rewrite isActive_cell_of by (auto using getMMI_in_table).
    now apply getMMI_in_band.
  - intros l Hl Hact. rewrite isActive_cell_of in Hact by assumption.
    now apply in_band_unique.
Qed.

Lemma cell_of_bounds l :
  In l MMI_SCALE ->
  exists lo hi, cell_min (cell_of l) = Fin lo /\ cell_max (cell_of l) = Fin hi
                /\ 0 <= lo /\ hi <= 99.
Proof.
  intros Hl. simpl in Hl.
  repeat (destruct Hl as [<- | Hl];
          [do 2 eexists; split; [reflexivity|]; split; [reflexivity|]; lra|]).
  contradiction.
Qed.

Lemma active_levels_out_of_range x :
  le 0 x = false \/ lt x 99 = false -> active_levels x = [].
Proof.
  intros H. rewrite active_levels_filter.
  replace (filter (fun l => isActive x (cell_of l)) MMI_SCALE) with (@nil entry);
    [reflexivity|].
  symmetry. apply filter_none. intros l Hl.
  destruct (cell_of_bounds l Hl) as (lo & hi & Emin & Emax & Hlo & Hhi).
  unfold isActive, ge. rewrite Emin, Emax.
  destruct x as [| | r |]; try reflexivity.
  destruct H as [H | H].
  - apply le_Fin_false in H. apply andb_false_iff; left.
    apply le_Fin_false. lra.
  - apply lt_Fin_false in H. apply andb_false_iff; right.
    apply lt_Fin_false. lra.
Qed.

Lemma getMMILevel_in_band r l :
  0 <= r -> In l MMI_SCALE -> in_band (Fin r) l = true ->
  getMMILevel (Fin r) = level l.
Proof.
  intros Hr Hl Hb. unfold getMMILevel.
  now rewrite <- (in_band_unique (Fin r) l) by (auto; now apply le_Fin).
Qed.

(** X24. The gauge of the intensity display agrees with the classifier below
    99: for a finite intensity [0 <= x < 99] exactly one cell is active, the
    one whose roman numeral is [getMMILevel x].  For an intensity below 0,
    NaN, or at least 99 (where [getMMI] still answers XII) no cell is
    active. *)
Theorem gauge_follows_getMMI x :
  (le 0 x = true -> lt x 99 = true ->
   active_levels x = [getMMILevel x])
  /\ (le 0 x = false \/ lt x 99 = false ->
      active_levels x = []
      /\ (le (Fin 99) x = true -> getMMILevel x = "XII"%string)).
Proof.
  split.
  - intros H0 H99. destruct x as [| | r |]; try discriminate.
    apply le_Fin in H0. apply lt_Fin in H99.
    apply active_levels_in_range; lra.
  - intros H. split; [now apply active_levels_out_of_range|].
    intros H99. destruct x as [| | r |]; try discriminate.
    + apply le_Fin in H99.
      apply (getMMILevel_in_band r MMI_XII); [lra | simpl; tauto |].
      unfold in_band; simpl. apply andb_true_iff; split;
        [apply Rleb_true; lra | reflexivity].
    + reflexivity.
Qed.

Lemma gauge_follows_getMMI_witness :
  le 0 (Fin 7.2) = true /\ lt (Fin 7.2) 99 = true
  /\ active_levels (Fin 7.2) = [getMMILevel (Fin 7.2)]
  /\ lt (Fin 120) 99 = false /\ active_levels (Fin 120) = [].
Proof.
  assert (H0 : le 0 (Fin 7.2) = true) by (apply le_Fin; lra).
  assert (H99 : lt (Fin 7.2) 99 = true) by (apply lt_Fin; lra).
  assert (H120 : lt (Fin 120) 99 = false) by (apply lt_Fin_false; lra).
  split; [exact H0|]. split; [exact H99|]. split; [|split; [exact H120|]].
  - exact (proj1 (gauge_follows_getMMI (Fin 7.2)) H0 H99).
  - exact (proj1 (proj2 (gauge_follows_getMMI (Fin 120))
                    (or_intror H120))).
Defined.

End Gauge.

(* ------------------------------------------------------------------ *)
(** ** The depth validator *)

Section DepthValidator.

Import GeoValidation.

(** X25. [isValidDepth] accepts exactly the depths in [0, 700]; every depth
    it accepts passes the depth guard of [calculateIntensity], and the only
    depth that passes the guard although [isValidDepth] rejects it is NaN. *)
Theorem isValidDepth_matches_guard depth :
  (isValidDepth depth = true <-> valid_depth depth)
  /\ (isValidDepth depth = true -> bad_depth depth = false)
  /\ (bad_depth depth = false -> isValidDepth depth = false ->
      depth = NaN).
Proof.
  assert (E : isValidDepth depth = le 0 depth && le depth 700).
  { unfold isValidDepth, ge. destruct depth; cbn [isNaN negb le];
      now rewrite ?andb_true_r, ?andb_false_r. }
  rewrite E. unfold valid_depth, bad_depth, gt. split; [|split].
  - apply andb_true_iff.
  - intros H. apply andb_true_iff in H as [H0 H700].
    apply orb_false_iff. split; now apply le_not_lt.
  - intros Hg Hv. apply orb_false_iff in Hg as [H0 H700].
    destruct depth as [| | r |]; try reflexivity; try discriminate.
    exfalso. apply lt_Fin_false in H0, H700.
    apply andb_false_iff in Hv as [Hv | Hv]; apply le_Fin_false in Hv; lra.
Qed.

Lemma isValidDepth_matches_guard_witness :
  isValidDepth (Fin 35) = true /\ bad_depth (Fin 35) = false.
Proof.
  assert (H : isValidDepth (Fin 35) = true).
  { apply (proj1 (isValidDepth_matches_guard (Fin 35))).
    split; apply le_Fin; lra. }
  split; [exact H|].
  exact (proj1 (proj2 (isValidDepth_matches_guard (Fin 35))) H).
Defined.

End DepthValidator.

(* ------------------------------------------------------------------ *)
(** ** Great-circle distance *)

Section GreatCircle.

Import Geo GeoValidation.

Lemma isValidCoordinate_Fin lat lon :
  isValidCoordinate (Fin lat) (Fin lon) = true
  <-> -90 <= lat <= 90 /\ -180 <= lon <= 180.
Proof.
  unfold isValidCoordinate, ge. cbn [isNaN negb].
  rewrite !andb_true_r, !andb_true_iff, !le_Fin. tauto.
Qed.

Lemma toRadians_Fin x : toRadians (Fin x) = Fin (rad x).
Proof.
  unfold toRadians, Math_PI, div.
  destruct (Req_dec_T 180 0); [lra | reflexivity].
Qed.

Lemma half_Fin x : div (Fin x) 2 = Fin (x / 2).
Proof. unfold div. destruct (Req_dec_T 2 0); [lra | reflexivity]. Qed.

Lemma calculateDistance_Fin lat1 lon1 lat2 lon2 :
  calculateDistance (Fin lat1) (Fin lon1) (Fin lat2) (Fin lon2)
  = let a := haversine_R lat1 lon1 lat2 lon2 in
    mul EARTH_RADIUS_KM
      (mul 2 (Math_atan2 (Math_sqrt (Fin a)) (Math_sqrt (Fin (1 - a))))).
Proof.
  unfold calculateDistance. cbn [sub].
  rewrite !toRadians_Fin, !half_Fin. reflexivity.
Qed.

Lemma sin_half_sqr x : sin (x / 2) * sin (x / 2) = (1 - cos x) / 2.
Proof.
  pose proof (cos_2a_sin (x / 2)) as H.
  replace (2 * (x / 2)) with x in H by lra. lra.
Qed.

Lemma sin_cos_sqr x : sin x * sin x + cos x * cos x = 1.
Proof. pose proof (sin2_cos2 x) as H. unfold Rsqr in H. exact H. Qed.

(** The haversine term is half of one minus the cosine of the central
    angle. *)
Lemma haversine_R_dot lat1 lon1 lat2 lon2 :
  haversine_R lat1 lon1 lat2 lon2
  = (1 - (sin (rad lat1) * sin (rad lat2)
          + cos (rad lat1) * cos (rad lat2) * cos (rad (lon2 - lon1)))) / 2.
Proof.
  unfold haversine_R.
  rewrite Rmult_assoc, !sin_half_sqr.
  replace (rad (lat2 - lat1)) with (rad lat2 - rad lat1)
    by (unfold rad; ring).
  rewrite cos_minus. lra.
Qed.

Lemma unit_dot_bound s1 c1 s2 c2 cl :
  s1 * s1 + c1 * c1 = 1 -> s2 * s2 + c2 * c2 = 1 -> -1 <= cl <= 1 ->
  -1 <= s1 * s2 + c1 * c2 * cl <= 1.
Proof.
  intros H1 H2 Hcl.
  pose proof (Rle_0_sqr (s1 - s2)) as Hsm. pose proof (Rle_0_sqr (s1 + s2)) as Hsp.
  pose proof (Rle_0_sqr (c1 - c2)) as Hcm. pose proof (Rle_0_sqr (c1 + c2)) as Hcp.
  unfold Rsqr in *.
  set (p := c1 * c2) in *.
  assert (Ep : p = c1 * c2) by reflexivity.
  set (q := s1 * s2) in *.
  assert (Eq : q = s1 * s2) by reflexivity.
  assert (Hq : -1 <= q + p <= 1 /\ -1 <= q - p <= 1).
  { clearbody p q. subst p q. split; split; lra || nra. }
  replace (c1 * c2 * cl) with (p * cl) by (subst p; ring).
  clearbody p q. clear Ep Eq Hsm Hsp Hcm Hcp H1 H2.
  destruct (Rle_dec 0 p) as [Hpos | Hneg].
  - assert (p * cl <= p) by nra. assert (- p <= p * cl) by nra. lra.
  - assert (p <= p * cl) by nra. assert (p * cl <= - p) by nra. lra.
Qed.

Lemma haversine_R_bounds lat1 lon1 lat2 lon2 :
  0 <= haversine_R lat1 lon1 lat2 lon2 <= 1.
Proof.
  rewrite haversine_R_dot.
  pose proof (unit_dot_bound _ _ _ _ (cos (rad (lon2 - lon1)))
                (sin_cos_sqr (rad lat1)) (sin_cos_sqr (rad lat2))
                (COS_bound _)).
  lra.
Qed.

Lemma haversine_R_sym lat1 lon1 lat2 lon2 :
  haversine_R lat1 lon1 lat2 lon2 = haversine_R lat2 lon2 lat1 lon1.
Proof.
  rewrite !haversine_R_dot.
  replace (rad (lon1 - lon2)) with (- rad (lon2 - lon1))
    by (unfold rad; ring).
  rewrite cos_neg. lra.
Qed.

Lemma haversine_R_same lat lon : haversine_R lat lon lat lon = 0.
Proof.
  rewrite haversine_R_dot.
  replace (rad (lon - lon)) with 0 by (unfold rad; ring).
  rewrite cos_0. pose proof (sin_cos_sqr (rad lat)). lra.
Qed.

(** Two points whose latitudes and longitudes differ by a quarter turn at
    most are clear of being antipodal: the haversine term is at most 3/4. *)
Lemma clear_of_antipode_quarter lat1 lon1 lat2 lon2 :
  -90 <= lat1 <= 90 -> -90 <= lat2 <= 90 ->
  -90 <= lat2 - lat1 <= 90 -> -90 <= lon2 - lon1 <= 90 ->
  clear_of_antipode lat1 lon1 lat2 lon2.
Proof.
  intros H1 H2 Hlat Hlon. unfold clear_of_antipode. rewrite haversine_R_dot.
  pose proof PI_RGT_0 as Hpi.
  assert (Hq : forall x, -90 <= x <= 90 -> 0 <= cos (rad x)).
  { intros x Hx. apply cos_ge_0; unfold rad; nra. }
  pose proof (Hq _ H1) as Hc1. pose proof (Hq _ H2) as Hc2.
  pose proof (Hq _ Hlon) as Hcl. pose proof (Hq _ Hlat) as Hcd.
  replace (rad (lat2 - lat1)) with (rad lat2 - rad lat1) in Hcd
    by (unfold rad; ring).
  rewrite cos_minus in Hcd.
  pose proof (COS_bound (rad lat2 + rad lat1)) as [_ Hcs].
  rewrite cos_plus in Hcs.
  assert (Hccc : 0 <= cos (rad lat1) * cos (rad lat2)
                      * cos (rad (lon2 - lon1))).
  { apply Rmult_le_pos; [apply Rmult_le_pos|]; assumption. }
  lra.
Qed.

(** The angle of a point of the closed first quadrant. *)
Lemma Math_atan2_first_quadrant y x :
  0 <= y -> 0 <= x ->
  exists t, Math_atan2 (Fin y) (Fin x) = Fin t /\ 0 <= t <= PI / 2.
Proof.
  intros Hy Hx. pose proof PI_RGT_0 as Hpi. unfold Math_atan2.
  destruct (Rlt_dec 0 x) as [Hpos | Hzero].
  - eexists; split; [reflexivity|].
    pose proof (atan_bound (y / x)) as [_ Hub].
    assert (H0 : 0 <= y / x).
    { apply Rmult_le_pos; [assumption | left; now apply Rinv_0_lt_compat]. }
    destruct H0 as [H0 | <-].
    + pose proof (atan_increasing _ _ H0) as Hinc. rewrite atan_0 in Hinc. lra.
    + rewrite atan_0. lra.
  - destruct (Rlt_dec x 0); [lra|].
    destruct (Rlt_dec 0 y).
    + eexists; split; [reflexivity | lra].
    + destruct (Rlt_dec y 0); [lra|].
      eexists; split; [reflexivity | lra].
Qed.

Lemma calculateDistance_range lat1 lon1 lat2 lon2 :
  exists d,
    calculateDistance (Fin lat1) (Fin lon1) (Fin lat2) (Fin lon2) = Fin d
    /\ 0 <= d <= 6371 * PI.
Proof.
  rewrite calculateDistance_Fin. cbn zeta.
  pose proof (haversine_R_bounds lat1 lon1 lat2 lon2) as Ha.
  rewrite !Math_sqrt_Fin by lra.
  destruct (Math_atan2_first_quadrant _ _
              (sqrt_pos (haversine_R lat1 lon1 lat2 lon2))
              (sqrt_pos (1 - haversine_R lat1 lon1 lat2 lon2)))
    as (t & -> & Ht).
  unfold EARTH_RADIUS_KM. cbn [mul].
  eexists; split; [reflexivity|]. lra.
Qed.

(** X26. On two points with coordinates that [isValidCoordinate] accepts
    and that keep clear of being antipodal (haversine term at most 0.99),
    [calculateDistance] returns a finite distance between 0 and half the
    circumference 6371 * PI; it is symmetric in its two points and 0
    between a point and itself. *)
Theorem calculateDistance_metric (lat1 lon1 lat2 lon2 : R) :
  isValidCoordinate (Fin lat1) (Fin lon1) = true ->
  isValidCoordinate (Fin lat2) (Fin lon2) = true ->
  clear_of_antipode lat1 lon1 lat2 lon2 ->
  (exists d,
      calculateDistance (Fin lat1) (Fin lon1) (Fin lat2) (Fin lon2) = Fin d
      /\ 0 <= d <= 6371 * PI)
  /\ calculateDistance (Fin lat1) (Fin lon1) (Fin lat2) (Fin lon2)
     = calculateDistance (Fin lat2) (Fin lon2) (Fin lat1) (Fin lon1)
  /\ calculateDistance (Fin lat1) (Fin lon1) (Fin lat1) (Fin lon1) = Fin 0.
Proof.
  intros _ _ _.
  split; [apply calculateDistance_range|]. split.
  - rewrite !calculateDistance_Fin. cbn zeta.
    now rewrite (haversine_R_sym lat1 lon1 lat2 lon2).
  - rewrite calculateDistance_Fin. cbn zeta. rewrite haversine_R_same.
    rewrite !Math_sqrt_Fin by lra.
    replace (1 - 0) with 1 by lra. rewrite sqrt_0, sqrt_1.
    unfold Math_atan2. destruct (Rlt_dec 0 1); [|lra].
    replace (0 / 1) with 0 by lra. rewrite atan_0.
    unfold EARTH_RADIUS_KM. cbn [mul]. f_equal. lra.
Qed.

(** Santiago and Valparaiso, the example of the source. *)
Lemma santiago_valparaiso :
  isValidCoordinate (Fin (-33.4489)) (Fin (-70.6693)) = true
  /\ isValidCoordinate (Fin (-33.0472)) (Fin (-71.6127)) = true
  /\ clear_of_antipode (-33.4489) (-70.6693) (-33.0472) (-71.6127).
Proof.
  split; [apply isValidCoordinate_Fin; lra|].
  split; [apply isValidCoordinate_Fin; lra|].
  apply clear_of_antipode_quarter; lra.
Qed.

Lemma calculateDistance_metric_witness :
  (isValidCoordinate (Fin (-33.4489)) (Fin (-70.6693)) = true
   /\ isValidCoordinate (Fin (-33.0472)) (Fin (-71.6127)) = true
   /\ clear_of_antipode (-33.4489) (-70.6693) (-33.0472) (-71.6127))
  /\ calculateDistance (Fin (-33.4489)) (Fin (-70.6693))
       (Fin (-33.0472)) (Fin (-71.6127))
     = calculateDistance (Fin (-33.0472)) (Fin (-71.6127))
         (Fin (-33.4489)) (Fin (-70.6693)).
Proof.
  split; [exact santiago_valparaiso|].
  destruct santiago_valparaiso as (H1 & H2 & H3).
  exact (proj1 (proj2 (calculateDistance_metric _ _ _ _ H1 H2 H3))).
Defined.

End GreatCircle.

(* ------------------------------------------------------------------ *)
(** ** Hypocentral distance and bearing *)

Section Hypocentral.

Import Geo GeoValidation.

Lemma hypotenuse_bounds h D :
  0 <= h ->
  h <= sqrt (h * h + D * D) /\ Rabs D <= sqrt (h * h + D * D)
  /\ sqrt (h * h + D * D) <= h + Rabs D.
Proof.
  intros Hh. pose proof (Rabs_pos D) as HD.
  assert (HDD : D * D = Rabs D * Rabs D).
  { unfold Rabs. destruct (Rcase_abs D); ring. }
  rewrite HDD. set (d := Rabs D) in *. clearbody d.
  repeat split.
  - rewrite <- (sqrt_square h) at 1 by assumption.
    apply sqrt_le_1_alt. nra.
  - rewrite <- (sqrt_square d) at 1 by assumption.
    apply sqrt_le_1_alt. nra.
  - rewrite <- (sqrt_square (h + d)) by lra.
    apply sqrt_le_1_alt. nra.
Qed.

(** X27. On two points with coordinates that [isValidCoordinate] accepts
    and that keep clear of being antipodal, and for a depth whose square is
    a normal double (between 2^-511 and 2^511 in size), the hypocentral
    distance is the finite hypotenuse of the great-circle distance [h] and
    the depth: it is at least [h], at least |depth| and at most
    [h + |depth|]. *)
Theorem calculateHypocentralDistance_bounds
  (epicenterLat epicenterLon siteLat siteLon depth : R) :
  isValidCoordinate (Fin epicenterLat) (Fin epicenterLon) = true ->
  isValidCoordinate (Fin siteLat) (Fin siteLon) = true ->
  clear_of_antipode epicenterLat epicenterLon siteLat siteLon ->
  square_in_range depth ->
  exists h R,
    calculateDistance (Fin epicenterLat) (Fin epicenterLon)
      (Fin siteLat) (Fin siteLon) = Fin h
    /\ calculateHypocentralDistance (Fin epicenterLat) (Fin epicenterLon)
         (Fin siteLat) (Fin siteLon) (Fin depth) = Fin R
    /\ R * R = h * h + depth * depth
    /\ h <= R /\ Rabs depth <= R /\ R <= h + Rabs depth.
Proof.
  intros _ _ _ _.
  destruct (calculateDistance_range epicenterLat epicenterLon siteLat siteLon)
    as (h & Eh & Hh).
  exists h, (sqrt (h * h + depth * depth)).
  assert (Hsum : 0 <= h * h + depth * depth) by nra.
  split; [exact Eh|]. split.
  - unfold calculateHypocentralDistance. rewrite Eh. cbn [Math_pow mul add].
    now apply Math_sqrt_Fin.
  - split; [now apply sqrt_def|]. apply hypotenuse_bounds. lra.
Qed.

(** The 2010 Maule earthquake and Santiago, the example of the source. *)
Lemma maule_santiago :
  isValidCoordinate (Fin (-35.846)) (Fin (-72.719)) = true
  /\ isValidCoordinate (Fin (-33.4489)) (Fin (-70.6693)) = true
  /\ clear_of_antipode (-35.846) (-72.719) (-33.4489) (-70.6693).
Proof.
  split; [apply isValidCoordinate_Fin; lra|].
  split; [apply isValidCoordinate_Fin; lra|].
  apply clear_of_antipode_quarter; lra.
Qed.

Lemma calculateHypocentralDistance_bounds_witness :
  (isValidCoordinate (Fin (-35.846)) (Fin (-72.719)) = true
   /\ isValidCoordinate (Fin (-33.4489)) (Fin (-70.6693)) = true
   /\ clear_of_antipode (-35.846) (-72.719) (-33.4489) (-70.6693))
  /\ square_in_range 35
  /\ exists R,
       calculateHypocentralDistance (Fin (-35.846)) (Fin (-72.719))
         (Fin (-33.4489)) (Fin (-70.6693)) (Fin 35) = Fin R
       /\ 35 <= R.
Proof.
  assert (Hd : square_in_range 35).
  { apply square_in_range_moderate.
    assert (0 < / 1024) by (apply Rinv_0_lt_compat; lra).
    assert (/ 1024 <= 1).
    { rewrite <- Rinv_1. apply Rinv_le_contravar; lra. }
    lra. }
  split; [exact maule_santiago|]. split; [exact Hd|].
  destruct maule_santiago as (H1 & H2 & H3).
  destruct (calculateHypocentralDistance_bounds _ _ _ _ 35 H1 H2 H3 Hd)
    as (h & R & _ & ER & _ & _ & Hdepth & _).
  exists R. split; [exact ER|].
  rewrite Rabs_pos_eq in Hdepth by lra. exact Hdepth.
Defined.

Lemma Math_atan2_range y x :
  exists t, Math_atan2 (Fin y) (Fin x) = Fin t /\ - PI <= t <= PI.
Proof.
  pose proof PI_RGT_0 as Hpi. pose proof (atan_bound (y / x)) as [Hlo Hhi].
  unfold Math_atan2.
  destruct (Rlt_dec 0 x) as [Hpos | Hnpos].
  { eexists; split; [reflexivity | lra]. }
  destruct (Rlt_dec x 0) as [Hneg | Hzero].
  - assert (Hinv : / x < 0) by now apply Rinv_lt_0_compat.
    destruct (Rlt_dec y 0) as [Hy | Hy].
    + assert (H0 : 0 < y / x) by (unfold Rdiv; nra).
      pose proof (atan_increasing _ _ H0) as Hinc. rewrite atan_0 in Hinc.
      eexists; split; [reflexivity | lra].
    + assert (H0 : y / x <= 0) by (unfold Rdiv; nra).
      assert (Hat : atan (y / x) <= 0).
      { destruct H0 as [H0 | ->]; [|rewrite atan_0; lra].
        pose proof (atan_increasing _ _ H0) as Hinc.
        rewrite atan_0 in Hinc. lra. }
      eexists; split; [reflexivity | lra].
  - destruct (Rlt_dec 0 y); [eexists; split; [reflexivity | lra]|].
    destruct (Rlt_dec y 0); eexists; split; try reflexivity; lra.
Qed.

Lemma rem_360_range v :
  0 <= v -> exists b, rem (Fin v) 360 = Fin b /\ 0 <= b < 360.
Proof.
  intros Hv. unfold rem. destruct (Req_dec_T 360 0); [lra|].
  eexists; split; [reflexivity|].
  unfold trunc_R. destruct (Rle_dec 0 (v / 360)) as [_ | H];
    [|exfalso; apply H; lra].
  pose proof (Zfloor_bound (v / 360)) as [Hlo Hhi]. lra.
Qed.

(** X28. On two points with coordinates that [isValidCoordinate] accepts
    (so that the difference of the longitudes cannot overflow)
    [calculateBearing] returns a finite bearing [b] with [0 <= b < 360]. *)
Theorem calculateBearing_range (lat1 lon1 lat2 lon2 : R) :
  isValidCoordinate (Fin lat1) (Fin lon1) = true ->
  isValidCoordinate (Fin lat2) (Fin lon2) = true ->
  exists b,
    calculateBearing (Fin lat1) (Fin lon1) (Fin lat2) (Fin lon2) = Fin b
    /\ 0 <= b < 360.
Proof.
  intros _ _.
  unfold calculateBearing. cbn [sub]. rewrite !toRadians_Fin.
  cbn [Math_sin Math_cos mul sub].
  match goal with
  | |- context [Math_atan2 (Fin ?y) (Fin ?x)] =>
      destruct (Math_atan2_range y x) as (t & -> & Ht)
  end.
  pose proof PI_RGT_0 as Hpi.
  cbn [mul]. unfold Math_PI, div.
  destruct (Req_dec_T PI 0); [lra|]. cbn [add].
  apply rem_360_range.
  assert (Hdeg : -180 <= t * 180 / PI).
  { apply Rmult_le_reg_r with PI; [lra|].
    unfold Rdiv. rewrite Rmult_assoc, Rinv_l by lra. lra. }
  lra.
Qed.

Lemma calculateBearing_range_witness :
  (isValidCoordinate (Fin (-35.846)) (Fin (-72.719)) = true
   /\ isValidCoordinate (Fin (-33.4489)) (Fin (-70.6693)) = true)
  /\ exists b,
       calculateBearing (Fin (-35.846)) (Fin (-72.719))
         (Fin (-33.4489)) (Fin (-70.6693)) = Fin b
       /\ 0 <= b < 360.
Proof.
  destruct maule_santiago as (H1 & H2 & _).
  split; [split; assumption|].
  exact (calculateBearing_range _ _ _ _ H1 H2).
Defined.

End Hypocentral.

(* ------------------------------------------------------------------ *)
(** ** The effect of the application *)

Section AppEffect.

Import Attenuation Geo GeoValidation App.

Lemma calculateIntensityFromHypocentral_finite M R :
  0 <= M <= 10 -> 0 <= R ->
  calculateIntensityFromHypocentral (Fin M) (Fin R)
  = Return (Fin (intensity_R M 0 R)).
Proof.
  intros HM HR. unfold calculateIntensityFromHypocentral.
  replace (lt (Fin M) 0 || gt (Fin M) 10) with false
    by (js_cmp; reflexivity).
  replace (lt (Fin R) 0) with false by (symmetry; now apply lt_Fin_false).
  rewrite Math_max_Fin.
  assert (Er : Rmax R 1 = radius_R 0 R).
  { unfold radius_R. f_equal.
    rewrite Rmult_0_l, Rplus_0_r. symmetry. now apply sqrt_square. }
  rewrite Er. pose proof (radius_R_ge_1 0 R).
  unfold formula. cbn [ATTENUATION_CONSTANTS mul add].
  rewrite Math_log10_Fin by lra. cbn [mul sub].
  now rewrite Math_max_Fin.
Qed.

Lemma intensity_R_counts_depth_twice M D h :
  0 <= h ->
  intensity_R M D (sqrt (h * h + D * D))
  = intensity_R M 0 (sqrt (h * h + 2 * (D * D))).
Proof.
  intros Hh. unfold intensity_R, radius_R.
  assert (H1 : 0 <= h * h + D * D) by nra.
  assert (H2 : 0 <= h * h + 2 * (D * D)) by nra.
  rewrite !sqrt_def by assumption.
  replace (h * h + D * D + D * D) with (h * h + 2 * (D * D)) by ring.
  replace (h * h + 2 * (D * D) + 0 * 0) with (h * h + 2 * (D * D)) by ring.
  reflexivity.
Qed.

(** X29. The effect that recomputes the results passes the hypocentral
    distance to [calculateIntensity], which adds the depth once more.  For a
    valid magnitude and depth and coordinates of the epicentre and of the
    selected city that [isValidCoordinate] accepts and that keep clear of
    being antipodal, it never throws; with [h] the great-circle distance,
    the displayed distance is sqrt(h^2 + depth^2), while the displayed
    intensity is the attenuation formula at the radius
    sqrt(h^2 + 2 depth^2), hence at most the intensity at the displayed
    distance; the MMI entry, the damage percentage and the affected
    population are computed from that intensity. *)
Theorem computeResults_counts_depth_twice
  (M D elat elon : R) (selectedCity : string) (cities : list city) (c : city)
  (clat clon : R) :
  0 <= M <= 10 -> 0 <= D <= 700 ->
  select_city cities selectedCity = Some c ->
  city_lat c = Fin clat -> city_lon c = Fin clon ->
  isValidCoordinate (Fin elat) (Fin elon) = true ->
  isValidCoordinate (Fin clat) (Fin clon) = true ->
  clear_of_antipode elat elon clat clon ->
  exists h r,
    calculateDistance (Fin elat) (Fin elon) (Fin clat) (Fin clon) = Fin h
    /\ computeResults (Fin M) (Fin D) {| lat := Fin elat; lon := Fin elon |}
         selectedCity cities = Some (Return r)
    /\ res_city r = city_name c
    /\ res_distance r = Fin (sqrt (h * h + D * D))
    /\ calculateIntensityFromHypocentral (Fin M)
         (Fin (sqrt (h * h + 2 * (D * D))))
       = Return (res_intensityValue r)
    /\ (exists i,
          calculateIntensityFromHypocentral (Fin M) (res_distance r)
          = Return i
          /\ le (res_intensityValue r) i = true)
    /\ res_mmi r = MMI.getMMI (res_intensityValue r)
    /\ res_damagePercent r = Damage.estimateDamage (res_intensityValue r)
    /\ res_affectedPop r
       = Damage.estimateAffectedPopulation (population c)
           (res_damagePercent r).
Proof.
  intros HM HD Hsel Hlat Hlon _ _ _.
  destruct (calculateDistance_range elat elon clat clon) as (h & Eh & Hh).
  assert (Hsum : 0 <= h * h + D * D) by nra.
  assert (Hsum2 : 0 <= h * h + 2 * (D * D)) by nra.
  pose proof (sqrt_pos (h * h + D * D)) as Hhyp.
  exists h. eexists. split; [exact Eh|]. split.
  - unfold computeResults. rewrite Hsel. cbn [lat lon].
    rewrite Hlat, Hlon. unfold calculateHypocentralDistance.
    rewrite Eh. cbn [Math_pow mul add]. rewrite Math_sqrt_Fin by assumption.
    rewrite calculateIntensity_finite by (lra || assumption).
    cbn [bind]. reflexivity.
  - cbn [res_city res_distance res_intensityValue res_mmi res_damagePercent
           res_affectedPop].
    split; [reflexivity|]. split; [reflexivity|]. split; [|split].
    + rewrite calculateIntensityFromHypocentral_finite
        by (assumption || apply sqrt_pos).
      now rewrite intensity_R_counts_depth_twice by lra.
    + rewrite calculateIntensityFromHypocentral_finite by assumption.
      eexists; split; [reflexivity|]. apply le_Fin.
      rewrite intensity_R_counts_depth_twice by lra.
      apply intensity_R_distance; [assumption|].
      apply sqrt_le_1_alt. nra.
    + repeat split.
Qed.

Lemma computeResults_counts_depth_twice_witness :
  let santiago :=
    {| city_name := "Santiago"; city_lat := Fin (-33.4489);
       city_lon := Fin (-70.6693); population := Fin 5000000 |} in
  0 <= 8.8 <= 10 /\ 0 <= 35 <= 700
  /\ select_city [santiago] "Santiago" = Some santiago
  /\ (isValidCoordinate (Fin (-35.846)) (Fin (-72.719)) = true
      /\ isValidCoordinate (Fin (-33.4489)) (Fin (-70.6693)) = true
      /\ clear_of_antipode (-35.846) (-72.719) (-33.4489) (-70.6693))
  /\ exists r,
       computeResults (Fin 8.8) (Fin 35)
         {| lat := Fin (-35.846); lon := Fin (-72.719) |}
         "Santiago" [santiago] = Some (Return r).
Proof.
  cbn zeta.
  assert (HM : 0 <= 8.8 <= 10) by lra.
  assert (HD : 0 <= 35 <= 700) by lra.
  split; [exact HM|]. split; [exact HD|]. split; [reflexivity|].
  split; [exact maule_santiago|].
  destruct maule_santiago as (H1 & H2 & H3).
  destruct (computeResults_counts_depth_twice 8.8 35 (-35.846) (-72.719)
              "Santiago"
              [ {| city_name := "Santiago"; city_lat := Fin (-33.4489);
                   city_lon := Fin (-70.6693);
                   population := Fin 5000000 |} ]
              _ (-33.4489) (-70.6693) HM HD eq_refl eq_refl eq_refl
              H1 H2 H3)
    as (h & r & _ & E & _).
  exists r. exact E.
Defined.

End AppEffect.

(* ------------------------------------------------------------------ *)
(** ** The size of the casualty estimates *)

Section CasualtyBound.

Import Damage.

(** X30. For a finite population [T >= 0] and a damage percentage between
    60 and 100 the three casualty estimates are finite whole numbers with
    0 <= low <= medium <= high, the medium estimate is at most 1 % of the
    population, rounded, and the high estimate is exactly twice the
    medium one. *)
Theorem estimateCasualtyRisk_at_most_one_percent (T P : R) :
  0 <= T -> 60 <= P <= 100 ->
  exists (lo me : R) (z : Z),
    low (estimateCasualtyRisk (Fin T) (Fin P)) = Fin lo
    /\ medium (estimateCasualtyRisk (Fin T) (Fin P)) = Fin me
    /\ high (estimateCasualtyRisk (Fin T) (Fin P)) = Fin (2 * me)
    /\ me = IZR z
    /\ 0 <= lo <= me /\ me <= round_R (T * 0.01).
Proof.
  intros HT HP.
  destruct (estimateCasualtyRisk_finite T P) as (-> & -> & ->); [lra|].
  set (rate := (P - 60) / 40 * ((P - 60) / 40) * 0.01).
  assert (Hrate : 0 <= rate <= 0.01).
  { unfold rate. assert (0 <= (P - 60) / 40 <= 1) by lra. nra. }
  assert (Hz : exists e, round_R (T * rate) = IZR e)
    by (eexists; reflexivity).
  destruct Hz as [e Ee].
  assert (He : 0 <= IZR e).
  { rewrite <- Ee. apply round_R_nonneg. nra. }
  exists (round_R (IZR e * 0.5)), (IZR e), e. rewrite Ee.
  split; [reflexivity|]. split; [reflexivity|]. split.
  { rewrite round_R_double, mult_IZR. f_equal. lra. }
  split; [reflexivity|]. split; [split|].
  - apply round_R_nonneg. lra.
  - now apply round_R_half.
  - rewrite <- Ee. apply round_R_le. nra.
Qed.

Lemma estimateCasualtyRisk_at_most_one_percent_witness :
  0 <= 1000 /\ 60 <= 100 <= 100
  /\ exists me,
       medium (estimateCasualtyRisk (Fin 1000) (Fin 100)) = Fin me
       /\ me <= round_R (1000 * 0.01).
Proof.
  assert (HT : 0 <= 1000) by lra.
  assert (HP : 60 <= 100 <= 100) by lra.
  split; [exact HT|]. split; [exact HP|].
  destruct (estimateCasualtyRisk_at_most_one_percent 1000 100 HT HP)
    as (lo & me & z & _ & Eme & _ & _ & _ & Hme).
  exists me. split; assumption.
Defined.

End CasualtyBound.
